(** * A shallow embedding of parts of mongo-go-driver

    The modules that embed a source file of the driver:
    - [mongo]: [DocumentResult.Decode] of mongo/document_result.go;
    - [insertopt]: the option bundles of mongo/insertopt/insertopt.go;
    - [structtag]: [DefaultStructTagParser] of the bson codec;
    - [dispatch]: [Find] of core/dispatch/find.go;
    - [session]: the cluster clock of core/session;
    - [collection]: [InsertOne] and [DeleteOne] of mongo/collection.go.
    The modules whose code is not among the sources and which follow the
    specification of the driver instead:
    - [bson]: the document model and its byte form;
    - [wiremessage]: the OP_MSG form of the write commands;
    - [cursor]: [Next] of a tailable-await cursor.

    Go values are modelled as follows.  An [error] interface value is an
    [option error] ([None] is Go's [nil]); a pointer or an interface value
    that may be nil is an [option]; an [int] used as a slice index is a [Z],
    so that the index [-1] reached at the end of a backwards loop is
    representable; a slice is a [list]; a function with several results
    returns a tuple; a nil dereference or an out-of-range slice access is a
    panic.  Functions of other packages and of the Go library that a source
    file calls are parameters of its module. *)

From Stdlib Require Import ZArith List String Ascii Lia Bool DecimalString.
From stdpp Require Import base list strings gmap.

Local Open Scope Z_scope.
Set Warnings "-register-all".

(** ** Common Go notions *)

(** The sentinel errors of the driver that the embedded functions return, and
    an opaque error carrying a message for everything else. *)
Inductive error : Type :=
| ErrNoDocuments
| ErrCollation
| ErrCancelled
| ErrOther (msg : string).

#[global] Instance error_eq_dec : EqDecision error.
Proof. solve_decision. Defined.

(** A Go function call either returns or panics. *)
Inductive outcome (A : Type) : Type :=
| Returned (a : A)
| Panicked.
Arguments Returned {A} a.
Arguments Panicked {A}.

Definition obind {A B} (m : outcome A) (k : A -> outcome B) : outcome B :=
  match m with
  | Returned a => k a
  | Panicked => Panicked
  end.

(** What a call of the driver yields: a value, an error, or a panic. *)
Inductive result (A : Type) : Type :=
| Ok (a : A)
| Failed (e : error)
| Panic.
Arguments Ok {A} a.
Arguments Failed {A} e.
Arguments Panic {A}.

(** ** mongo/document_result.go *)
Module mongo.

(** The methods of the [Cursor] interface that [Decode] calls.  [C] is the
    state of the cursor behind the interface, [Dest] the value a non-nil
    destination points to.  [Next] advances the cursor; [CurDecode] decodes
    the current document into the destination. *)
Class Cursor (C Dest : Type) : Type := {
  Next : C -> bool * C;
  Err : C -> option error;
  CurDecode : C -> Dest -> option error * C * Dest;
}.

Section DocumentResult.
Context {C Dest : Type} `{Cursor C Dest}.

(** [type DocumentResult struct { err error; cur Cursor }]; [cur] is an
    interface value and may be nil. *)
Record DocumentResult : Type := {
  err : option error;
  cur : option C;
}.

(** [func (dr *DocumentResult) Decode(v interface{}) error].  The result
    carries the returned error, the cursor after the call and the destination
    after the call. *)
Definition Decode (dr : DocumentResult) (v : option Dest)
  : outcome (option error * option C * option Dest) :=
  match err dr with
  | Some e => Returned (Some e, cur dr, v)
  | None =>
      match cur dr with
      | None => Panicked
      | Some c =>
          let '(more, c1) := Next c in
          if negb more then
            match Err c1 with
            | Some e => Returned (Some e, Some c1, v)
            | None => Returned (Some ErrNoDocuments, Some c1, v)
            end
          else
            match v with
            | None => Returned (None, Some c1, None)
            | Some d =>
                let '(e, c2, d') := CurDecode c1 d in
                Returned (e, Some c2, Some d')
            end
      end
  end.

(** C10.  The precedence of the errors of [Decode]: a stored error of the
    operation is returned first (the cursor is not touched); otherwise, when
    [Next] reports no document, the cursor's own error is returned if it is
    non-nil and [ErrNoDocuments] if the cursor is merely empty; otherwise a
    nil destination makes [Decode] return nil without decoding (the cursor's
    [Decode] is not called: the cursor is the one [Next] left). *)
Theorem Decode_error_precedence (dr : DocumentResult) (v : option Dest) :
  (forall e, err dr = Some e -> Decode dr v = Returned (Some e, cur dr, v)) /\
  (forall c c1, err dr = None -> cur dr = Some c -> Next c = (false, c1) ->
     (forall e, Err c1 = Some e -> Decode dr v = Returned (Some e, Some c1, v)) /\
     (Err c1 = None -> Decode dr v = Returned (Some ErrNoDocuments, Some c1, v))) /\
  (forall c c1, err dr = None -> cur dr = Some c -> Next c = (true, c1) ->
     v = None -> Decode dr v = Returned (None, Some c1, None)).
Proof.
  unfold Decode. split; [|split].
  - intros e ->. reflexivity.
  - intros c c1 Herr Hcur Hnext. split.
    + intros e He. rewrite Herr, Hcur, Hnext. cbn. rewrite He. reflexivity.
    + intros He. rewrite Herr, Hcur, Hnext. cbn. rewrite He. reflexivity.
  - intros c c1 -> -> -> ->. reflexivity.
Qed.

End DocumentResult.

Arguments DocumentResult C : clear implicits.

(** A cursor over an in-memory batch, used to run [Decode]: the state is the
    document under the cursor, the remaining documents and the stored
    error. *)
Record batchCursor : Type := {
  current : option nat;
  rest : list nat;
  failure : option error;
}.

#[global] Instance batchCursor_Cursor : Cursor batchCursor nat := {
  Next c :=
    match failure c, rest c with
    | None, d :: ds => (true, {| current := Some d; rest := ds; failure := None |})
    | _, _ => (false, c)
    end;
  Err c := failure c;
  CurDecode c d :=
    match current c with
    | Some x => (None, c, x)
    | None => (Some (ErrOther "no current document"), c, d)
    end;
}.

Definition emptyCursor : batchCursor :=
  {| current := None; rest := []; failure := None |}.
Definition failedCursor : batchCursor :=
  {| current := None; rest := [7%nat]; failure := Some (ErrOther "read error") |}.
Definition oneDocCursor : batchCursor :=
  {| current := None; rest := [7%nat]; failure := None |}.

(** The four cases of the precedence at concrete results: a stored error with
    a cursor that has a document, a failed cursor, an empty cursor, and a nil
    destination with a document available. *)
Lemma Decode_error_precedence_witness :
  Decode {| err := Some ErrCollation; cur := Some oneDocCursor |} (Some 0%nat)
    = Returned (Some ErrCollation, Some oneDocCursor, Some 0%nat) /\
  Decode {| err := None; cur := Some failedCursor |} (Some 0%nat)
    = Returned (Some (ErrOther "read error"), Some failedCursor, Some 0%nat) /\
  Decode {| err := None; cur := Some emptyCursor |} (Some 0%nat)
    = Returned (Some ErrNoDocuments, Some emptyCursor, Some 0%nat) /\
  Decode {| err := None; cur := Some oneDocCursor |} None
    = Returned (None, Some {| current := Some 7%nat; rest := []; failure := None |}, None).
Proof.
  split; [|split; [|split]].
  - destruct (Decode_error_precedence (H := batchCursor_Cursor)
      {| err := Some ErrCollation; cur := Some oneDocCursor |} (Some 0%nat))
      as [Hstored _].
    apply Hstored. reflexivity.
  - destruct (Decode_error_precedence (H := batchCursor_Cursor)
      {| err := None; cur := Some failedCursor |} (Some 0%nat))
      as [_ [Hdone _]].
    destruct (Hdone failedCursor failedCursor) as [Hfailed _];
      [reflexivity .. |].
    apply Hfailed. reflexivity.
  - destruct (Decode_error_precedence (H := batchCursor_Cursor)
      {| err := None; cur := Some emptyCursor |} (Some 0%nat))
      as [_ [Hdone _]].
    destruct (Hdone emptyCursor emptyCursor) as [_ Hempty];
      [reflexivity .. |].
    apply Hempty. reflexivity.
  - destruct (Decode_error_precedence (H := batchCursor_Cursor)
      {| err := None; cur := Some oneDocCursor |} None)
      as [_ [_ Hnil]].
    apply (Hnil oneDocCursor); reflexivity.
Defined.

End mongo.

(** ** mongo/insertopt/insertopt.go *)
Module insertopt.

(** [reflect.TypeOf] of the converted options: the three option types of
    core/option that the conversions of this file produce. *)
Inductive OptType : Type :=
| TOptBypassDocumentValidation
| TOptOrdered
| TOptWriteConcern.

#[global] Instance OptType_eq_dec : EqDecision OptType.
Proof. solve_decision. Defined.

Definition OptType_to_nat (t : OptType) : nat :=
  match t with
  | TOptBypassDocumentValidation => 0
  | TOptOrdered => 1
  | TOptWriteConcern => 2
  end.

Definition OptType_of_nat (n : nat) : OptType :=
  match n with
  | O => TOptBypassDocumentValidation
  | S O => TOptOrdered
  | _ => TOptWriteConcern
  end.

#[global] Instance OptType_countable : Countable OptType.
Proof.
  apply (inj_countable' OptType_to_nat OptType_of_nat).
  intros []; reflexivity.
Defined.

Section Bundles.
(** The pointer type [*writeconcern.WriteConcern]; the bundles only carry
    it. *)
Context {WriteConcern : Type}.

(** [option.InsertOptioner]: the converted options. *)
Inductive InsertOptioner : Type :=
| OptBypassDocumentValidation (b : bool)
| OptOrdered (b : bool)
| OptWriteConcern (wc : WriteConcern).

(** A slot of a [[]option.InsertOptioner]: an interface value, nil until it
    is written. *)
Definition slot : Type := option InsertOptioner.

Definition TypeOf (currOption : slot) : option OptType :=
  match currOption with
  | None => None
  | Some (OptBypassDocumentValidation _) => Some TOptBypassDocumentValidation
  | Some (OptOrdered _) => Some TOptOrdered
  | Some (OptWriteConcern _) => Some TOptWriteConcern
  end.

(** [type OneBundle struct { option One; next *OneBundle }] and the values of
    the interface [One]: nil, the two option types that implement it, and a
    nested [*OneBundle].  [nilOneBundle] is the nil pointer. *)
Inductive OneBundle : Type :=
| nilOneBundle
| mkOneBundle (option_ : One) (next : OneBundle)
with One : Type :=
| OneNil
| OneBypassDocumentValidation (b : bool)
| OneWriteConcern (wc : WriteConcern)
| OneNested (ob : OneBundle).

(** [var oneBundle = new(OneBundle)] *)
Definition oneBundle : OneBundle := mkOneBundle OneNil nilOneBundle.

(** [func BundleOne(opts ...One) *OneBundle] *)
Definition BundleOne (opts : list One) : OneBundle :=
  fold_left (fun head opt => mkOneBundle opt head) opts oneBundle.

(** [func (ob *OneBundle) BypassDocumentValidation(b bool) *OneBundle] *)
Definition BypassDocumentValidation (ob : OneBundle) (b : bool) : OneBundle :=
  mkOneBundle (OneBypassDocumentValidation b) ob.

(** [func (ob *OneBundle) WriteConcern(wc) *OneBundle] *)
Definition WithWriteConcern (ob : OneBundle) (wc : WriteConcern) : OneBundle :=
  mkOneBundle (OneWriteConcern wc) ob.

(** [ConvertOneOption]: a bundle converts to nil; calling the method on a nil
    interface panics. *)
Definition ConvertOneOption (o : One) : outcome slot :=
  match o with
  | OneNil => Panicked
  | OneBypassDocumentValidation b => Returned (Some (OptBypassDocumentValidation b))
  | OneWriteConcern wc => Returned (Some (OptWriteConcern wc))
  | OneNested _ => Returned None
  end.

(** [func (ob *OneBundle) bundleLength() int]: the loop runs while
    [ob != nil && ob.option != nil]. *)
Fixpoint bundleLength (ob : OneBundle) : nat :=
  match ob with
  | nilOneBundle => 0
  | mkOneBundle OneNil _ => 0
  | mkOneBundle (OneNested converted) next =>
      bundleLength converted + bundleLength next
  | mkOneBundle _ next => 1 + bundleLength next
  end.

(** [options[index] = x]: index out of range panics. *)
Definition store (options : list slot) (index : Z) (x : slot)
  : outcome (list slot) :=
  if (0 <=? index) && (index <? Z.of_nat (length options))
  then Returned (<[Z.to_nat index := x]> options)
  else Panicked.

(** [for _, nestedOp := range nestedOptions { options[startIndex] = nestedOp;
    startIndex++ }] *)
Fixpoint storeAll (options : list slot) (startIndex : Z) (nestedOptions : list slot)
  : outcome (list slot) :=
  match nestedOptions with
  | [] => Returned options
  | nestedOp :: tl =>
      obind (store options startIndex nestedOp)
        (fun options' => storeAll options' (startIndex + 1) tl)
  end.

(** The loop of [unbundle], from [listHead] on, with the slice being filled
    and the index of the next slot to write.  The call of [unbundle] on a
    nested bundle is written out (nil check, [make], loop). *)
Fixpoint unbundleLoop (listHead : OneBundle) (options : list slot) (index : Z)
  {struct listHead} : outcome (list slot) :=
  match listHead with
  | nilOneBundle => Returned options
  | mkOneBundle OneNil _ => Returned options
  | mkOneBundle (OneNested converted) next =>
      obind
        match converted with
        | nilOneBundle => Returned []
        | mkOneBundle _ _ =>
            let listLen := bundleLength converted in
            unbundleLoop converted (replicate listLen None) (Z.of_nat listLen - 1)
        end
        (fun nestedOptions =>
           let startIndex := index - Z.of_nat (length nestedOptions) + 1 in
           obind (storeAll options startIndex nestedOptions)
             (fun options' =>
                unbundleLoop next options' (index - Z.of_nat (length nestedOptions))))
  | mkOneBundle o next =>
      obind (ConvertOneOption o)
        (fun c =>
           obind (store options index c)
             (fun options' => unbundleLoop next options' (index - 1)))
  end.

(** [func (ob *OneBundle) unbundle() ([]option.InsertOptioner, error)]; the
    error is nil on every return. *)
Definition unbundle (ob : OneBundle) : outcome (list slot * option error) :=
  match ob with
  | nilOneBundle => Returned ([], None)
  | mkOneBundle _ _ =>
      let listLen := bundleLength ob in
      obind (unbundleLoop ob (replicate listLen None) (Z.of_nat listLen - 1))
        (fun options => Returned (options, None))
  end.

(** The deduplicating loop [for i := len(options) - 1; i >= 0; i--], with
    [n = i + 1] iterations left; [optionsSet] is the set of types seen. *)
Fixpoint dedupLoop (n : nat) (options : list slot)
  (optionsSet : gset (option OptType)) : outcome (list slot) :=
  match n with
  | O => Returned options
  | S i =>
      match options !! i with
      | None => Panicked
      | Some currOption =>
          let optionType := TypeOf currOption in
          if decide (optionType ∈ optionsSet)
          then dedupLoop i (take i options ++ drop (S i) options) optionsSet
          else dedupLoop i options ({[optionType]} ∪ optionsSet)
      end
  end.

(** [func (ob *OneBundle) Unbundle(deduplicate bool)
    ([]option.InsertOptioner, error)] *)
Definition Unbundle (ob : OneBundle) (deduplicate : bool)
  : outcome (list slot * option error) :=
  obind (unbundle ob)
    (fun '(options, err) =>
       match err with
       | Some e => Returned ([], Some e)
       | None =>
           if negb deduplicate then Returned (options, None)
           else
             obind (dedupLoop (length options) options ∅)
               (fun options' => Returned (options', None))
       end).

(** *** What the loops visit, and what was added *)

(** The options that the loops of [bundleLength] and [unbundle] visit, in the
    order of the slice: both loops stop at the first node whose option is
    nil. *)
Fixpoint collected (ob : OneBundle) : list InsertOptioner :=
  match ob with
  | nilOneBundle => []
  | mkOneBundle OneNil _ => []
  | mkOneBundle (OneNested converted) next => collected next ++ collected converted
  | mkOneBundle (OneBypassDocumentValidation b) next =>
      collected next ++ [OptBypassDocumentValidation b]
  | mkOneBundle (OneWriteConcern wc) next => collected next ++ [OptWriteConcern wc]
  end.

(** The flattened options of a bundle as the documentation describes them:
    every option that was added, in the order it was added (the head of the
    chain is the most recent), nested bundles expanded in place.  A nil
    option carries nothing. *)
Fixpoint added (ob : OneBundle) : list InsertOptioner :=
  match ob with
  | nilOneBundle => []
  | mkOneBundle o next =>
      added next ++
      match o with
      | OneNil => []
      | OneBypassDocumentValidation b => [OptBypassDocumentValidation b]
      | OneWriteConcern wc => [OptWriteConcern wc]
      | OneNested converted => added converted
      end
  end.

(** A bundle in which a nil option stands only in the last node of a chain,
    as in the sentinel [oneBundle] that [BundleOne] starts from. *)
Fixpoint nilOnlyAtEnd (ob : OneBundle) : bool :=
  match ob with
  | nilOneBundle => true
  | mkOneBundle OneNil next =>
      match next with nilOneBundle => true | mkOneBundle _ _ => false end
  | mkOneBundle (OneNested converted) next =>
      nilOnlyAtEnd converted && nilOnlyAtEnd next
  | mkOneBundle _ next => nilOnlyAtEnd next
  end.

(** Deduplication as the documentation describes it: an option is kept when
    no later option has its type. *)
Fixpoint keepLast (options : list slot) : list slot :=
  match options with
  | [] => []
  | x :: tl =>
      if decide (TypeOf x ∈ TypeOf <$> tl) then keepLast tl else x :: keepLast tl
  end.

(** The same, with a set of types that count as seen later. *)
Fixpoint keepUnseen (seen : gset (option OptType)) (options : list slot)
  : list slot :=
  match options with
  | [] => []
  | x :: tl =>
      if decide (TypeOf x ∈ seen ∨ TypeOf x ∈ TypeOf <$> tl)
      then keepUnseen seen tl
      else x :: keepUnseen seen tl
  end.

(** *** Induction over bundles *)

Scheme OneBundle_mut := Induction for OneBundle Sort Prop
  with One_mut := Induction for One Sort Prop.

Lemma OneBundle_nested_ind (P : OneBundle -> Prop) :
  P nilOneBundle ->
  (forall next, P next -> P (mkOneBundle OneNil next)) ->
  (forall b next, P next -> P (mkOneBundle (OneBypassDocumentValidation b) next)) ->
  (forall wc next, P next -> P (mkOneBundle (OneWriteConcern wc) next)) ->
  (forall converted next, P converted -> P next ->
     P (mkOneBundle (OneNested converted) next)) ->
  forall ob, P ob.
Proof.
  intros Hnil HoNil Hbyp Hwc Hnest.
  apply (OneBundle_mut P
           (fun o => match o with OneNested c => P c | _ => True end)); auto.
  intros [| b | wc | c] Ho next Hnext; auto.
Qed.

(** *** The slice writes *)

Lemma store_app (pre post : list slot) (old x : slot) :
  store (pre ++ old :: post) (Z.of_nat (length pre)) x
  = Returned (pre ++ x :: post).
Proof.
  unfold store. rewrite length_app. cbn [length].
  replace ((0 <=? Z.of_nat (length pre)) &&
           (Z.of_nat (length pre) <? Z.of_nat (length pre + S (length post))))
    with true.
  - rewrite Nat2Z.id. f_equal.
    rewrite insert_app_r_alt by lia.
    replace (length pre - length pre)%nat with 0%nat by lia. reflexivity.
  - symmetry. apply andb_true_intro. split.
    + apply Z.leb_le. lia.
    + apply Z.ltb_lt. lia.
Qed.

Lemma storeAll_app (nested slots pre post : list slot) :
  length slots = length nested ->
  storeAll (pre ++ slots ++ post) (Z.of_nat (length pre)) nested
  = Returned (pre ++ nested ++ post).
Proof.
  revert slots pre. induction nested as [| x nested IH]; intros slots pre Hlen.
  - destruct slots; [reflexivity | discriminate].
  - destruct slots as [| old slots]; [discriminate |].
    cbn [storeAll app]. rewrite store_app. cbn [obind].
    replace (Z.of_nat (length pre) + 1) with (Z.of_nat (length (pre ++ [x])))
      by (rewrite length_app; cbn; lia).
    replace (pre ++ x :: slots ++ post) with ((pre ++ [x]) ++ slots ++ post)
      by (rewrite <- app_assoc; reflexivity).
    rewrite IH by (cbn in Hlen; lia).
    rewrite <- app_assoc. reflexivity.
Qed.

(** *** [bundleLength] and [unbundle] *)

Lemma bundleLength_collected (ob : OneBundle) :
  bundleLength ob = length (collected ob).
Proof.
  induction ob using OneBundle_nested_ind; cbn; try reflexivity;
    rewrite length_app; cbn; lia.
Qed.

Lemma unbundleLoop_collected (listHead : OneBundle) :
  forall pre slots post : list slot,
    length slots = bundleLength listHead ->
    unbundleLoop listHead (pre ++ slots ++ post)
      (Z.of_nat (length pre + length slots) - 1)
    = Returned (pre ++ map Some (collected listHead) ++ post).
Proof.
  induction listHead as [| next IH | b next IH | wc next IH | converted next IHc IHn]
    using OneBundle_nested_ind; intros pre slots post Hlen.
  - destruct slots; [reflexivity | discriminate].
  - destruct slots; [reflexivity | discriminate].
  - cbn [bundleLength] in Hlen. cbn [unbundleLoop ConvertOneOption obind collected].
    destruct (exists_last (l := slots)) as [slotsN [old ->]];
      [intros ->; discriminate |].
    rewrite length_app in Hlen |- *. cbn [length] in Hlen |- *.
    replace (Z.of_nat (length pre + (length slotsN + 1)) - 1)
      with (Z.of_nat (length (pre ++ slotsN)))
      by (rewrite length_app; lia).
    replace (pre ++ (slotsN ++ [old]) ++ post)
      with ((pre ++ slotsN) ++ old :: post)
      by (rewrite <- !app_assoc; reflexivity).
    rewrite store_app. cbn [obind].
    replace (Z.of_nat (length (pre ++ slotsN)) - 1)
      with (Z.of_nat (length pre + length slotsN) - 1)
      by (rewrite length_app; lia).
    rewrite <- app_assoc. rewrite IH by lia.
    rewrite map_app, <- !app_assoc. reflexivity.
  - cbn [bundleLength] in Hlen. cbn [unbundleLoop ConvertOneOption obind collected].
    destruct (exists_last (l := slots)) as [slotsN [old ->]];
      [intros ->; discriminate |].
    rewrite length_app in Hlen |- *. cbn [length] in Hlen |- *.
    replace (Z.of_nat (length pre + (length slotsN + 1)) - 1)
      with (Z.of_nat (length (pre ++ slotsN)))
      by (rewrite length_app; lia).
    replace (pre ++ (slotsN ++ [old]) ++ post)
      with ((pre ++ slotsN) ++ old :: post)
      by (rewrite <- !app_assoc; reflexivity).
    rewrite store_app. cbn [obind].
    replace (Z.of_nat (length (pre ++ slotsN)) - 1)
      with (Z.of_nat (length pre + length slotsN) - 1)
      by (rewrite length_app; lia).
    rewrite <- app_assoc. rewrite IH by lia.
    rewrite map_app, <- !app_assoc. reflexivity.
  - cbn [bundleLength] in Hlen. cbn [unbundleLoop collected].
    assert (Hnested :
      match converted with
      | nilOneBundle => Returned []
      | mkOneBundle _ _ =>
          let listLen := bundleLength converted in
          unbundleLoop converted (replicate listLen None) (Z.of_nat listLen - 1)
      end = Returned (map Some (collected converted))).
    { destruct converted as [| o nx] eqn:E; [reflexivity |].
      rewrite <- E in *. cbn zeta.
      pose proof (IHc [] (replicate (bundleLength converted) None) []) as Hc.
      rewrite !app_nil_r, length_replicate in Hc. cbn [app length] in Hc.
      replace (Z.of_nat (0 + bundleLength converted))
        with (Z.of_nat (bundleLength converted)) in Hc by lia.
      apply Hc. reflexivity. }
    cbn zeta in Hnested. rewrite Hnested. cbn [obind]. rewrite length_map.
    rewrite <- bundleLength_collected.
    set (k := bundleLength converted) in *.
    assert (Hsplit : slots = take (bundleLength next) slots
                             ++ drop (bundleLength next) slots)
      by (symmetry; apply take_drop).
    set (slotsN := take (bundleLength next) slots) in *.
    set (slotsC := drop (bundleLength next) slots) in *.
    assert (HlenN : length slotsN = bundleLength next)
      by (subst slotsN; rewrite length_take; lia).
    assert (HlenC : length slotsC = k)
      by (subst slotsC; rewrite length_drop; lia).
    rewrite Hsplit. rewrite length_app.
    replace (Z.of_nat (length pre + (length slotsN + length slotsC)) - 1
             - Z.of_nat k + 1)
      with (Z.of_nat (length (pre ++ slotsN)))
      by (rewrite length_app; lia).
    replace (pre ++ (slotsN ++ slotsC) ++ post)
      with ((pre ++ slotsN) ++ slotsC ++ post)
      by (rewrite <- !app_assoc; reflexivity).
    rewrite storeAll_app
      by (rewrite length_map, <- bundleLength_collected; exact HlenC).
    cbn [obind].
    replace (Z.of_nat (length pre + (length slotsN + length slotsC)) - 1
             - Z.of_nat k)
      with (Z.of_nat (length pre + length slotsN) - 1) by lia.
    rewrite <- app_assoc. rewrite IHn by exact HlenN.
    rewrite map_app, <- !app_assoc. reflexivity.
Qed.

(** [unbundle] never panics and returns the options its loop visits. *)
Lemma unbundle_collected (ob : OneBundle) :
  unbundle ob = Returned (map Some (collected ob), None).
Proof.
  pose proof (unbundleLoop_collected ob [] (replicate (bundleLength ob) None) [])
    as Hloop.
  rewrite !app_nil_r, length_replicate in Hloop. cbn [app length] in Hloop.
  replace (Z.of_nat (0 + bundleLength ob)) with (Z.of_nat (bundleLength ob))
    in Hloop by lia.
  specialize (Hloop eq_refl).
  destruct ob as [| o next]; [reflexivity |].
  unfold unbundle. cbn zeta. rewrite Hloop. reflexivity.
Qed.

(** The loops visit every added option when no nil option was added. *)
Lemma collected_added (ob : OneBundle) :
  nilOnlyAtEnd ob = true -> collected ob = added ob.
Proof.
  induction ob as [| next IH | b next IH | wc next IH | converted next IHc IHn]
    using OneBundle_nested_ind; cbn; intros Hwf.
  - reflexivity.
  - destruct next; [reflexivity | discriminate].
  - rewrite IH by exact Hwf. reflexivity.
  - rewrite IH by exact Hwf. reflexivity.
  - apply andb_prop in Hwf as [Hc Hn]. rewrite IHc, IHn by assumption.
    reflexivity.
Qed.

(** *** Deduplication *)

Lemma keepUnseen_snoc_seen (seen : gset (option OptType)) (p : list slot) (x : slot) :
  TypeOf x ∈ seen -> keepUnseen seen (p ++ [x]) = keepUnseen seen p.
Proof.
  intros Hx. induction p as [| y p IH]; cbn [app keepUnseen].
  - destruct (decide _) as [_ | Hn]; [reflexivity |].
    exfalso. apply Hn. left. exact Hx.
  - rewrite IH. rewrite fmap_app.
    destruct (decide (TypeOf y ∈ seen ∨ TypeOf y ∈ (TypeOf <$> p) ++ (TypeOf <$> [x])))
      as [H1 | H1];
    destruct (decide (TypeOf y ∈ seen ∨ TypeOf y ∈ TypeOf <$> p)) as [H2 | H2];
      try reflexivity; exfalso.
    + apply H2. destruct H1 as [H1 | H1]; [left; exact H1 |].
      apply elem_of_app in H1 as [H1 | H1]; [right; exact H1 |].
      apply list_elem_of_singleton in H1. left. rewrite H1. exact Hx.
    + apply H1. destruct H2 as [H2 | H2]; [left; exact H2 |].
      right. apply elem_of_app. left. exact H2.
Qed.

Lemma keepUnseen_snoc_unseen (seen : gset (option OptType)) (p : list slot) (x : slot) :
  TypeOf x ∉ seen ->
  keepUnseen seen (p ++ [x]) = keepUnseen ({[TypeOf x]} ∪ seen) p ++ [x].
Proof.
  intros Hx. induction p as [| y p IH]; cbn [app keepUnseen].
  - destruct (decide _) as [[H1 | H1] | _]; [| | reflexivity]; exfalso.
    + exact (Hx H1).
    + cbn in H1. apply elem_of_nil in H1. exact H1.
  - rewrite IH. rewrite fmap_app.
    destruct (decide (TypeOf y ∈ seen ∨ TypeOf y ∈ (TypeOf <$> p) ++ (TypeOf <$> [x])))
      as [H1 | H1];
    destruct (decide (TypeOf y ∈ {[TypeOf x]} ∪ seen ∨ TypeOf y ∈ TypeOf <$> p))
      as [H2 | H2];
      try reflexivity; exfalso.
    + apply H2. destruct H1 as [H1 | H1]; [left; set_solver |].
      apply elem_of_app in H1 as [H1 | H1]; [right; exact H1 |].
      apply list_elem_of_singleton in H1. left. set_solver.
    + apply H1. destruct H2 as [H2 | H2].
      * apply elem_of_union in H2 as [H2 | H2]; [| left; exact H2].
        right. apply elem_of_app. right. apply elem_of_singleton in H2.
        rewrite H2. apply list_elem_of_singleton. reflexivity.
      * right. apply elem_of_app. left. exact H2.
Qed.

Lemma keepUnseen_empty (options : list slot) :
  keepUnseen ∅ options = keepLast options.
Proof.
  induction options as [| x tl IH]; cbn [keepUnseen keepLast]; [reflexivity |].
  rewrite IH.
  destruct (decide (TypeOf x ∈ (∅ : gset (option OptType)) ∨ TypeOf x ∈ TypeOf <$> tl))
    as [H1 | H1];
  destruct (decide (TypeOf x ∈ TypeOf <$> tl)) as [H2 | H2];
    try reflexivity; exfalso.
  - destruct H1 as [H1 | H1]; [set_solver | exact (H2 H1)].
  - apply H1. right. exact H2.
Qed.

(** The loop removes, from the part of the slice not yet visited, every slot
    whose type is in the set or occurs later; it does not panic. *)
Lemma dedupLoop_keepUnseen (pre : list slot) :
  forall (suf : list slot) (seen : gset (option OptType)),
    dedupLoop (length pre) (pre ++ suf) seen
    = Returned (keepUnseen seen pre ++ suf).
Proof.
  induction pre as [| x p IH] using rev_ind; intros suf seen; [reflexivity |].
  rewrite length_app. cbn [length].
  replace (length p + 1)%nat with (S (length p)) by lia.
  cbn [dedupLoop]. rewrite <- app_assoc. cbn [app].
  rewrite list_lookup_middle by reflexivity.
  destruct (decide (TypeOf x ∈ seen)) as [Hin | Hout].
  - rewrite take_app_length.
    replace (drop (S (length p)) (p ++ x :: suf)) with suf.
    + rewrite IH. rewrite keepUnseen_snoc_seen by exact Hin. reflexivity.
    + change (x :: suf) with ([x] ++ suf). rewrite app_assoc.
      rewrite drop_app_length'; [reflexivity |].
      rewrite length_app. cbn. lia.
  - rewrite IH. rewrite keepUnseen_snoc_unseen by exact Hout.
    rewrite <- app_assoc. reflexivity.
Qed.

Lemma dedupLoop_keepLast (options : list slot) :
  dedupLoop (length options) options ∅ = Returned (keepLast options).
Proof.
  pose proof (dedupLoop_keepUnseen options [] ∅) as Hloop.
  rewrite !app_nil_r in Hloop. rewrite Hloop, keepUnseen_empty. reflexivity.
Qed.

(** [keepLast] returns a subsequence. *)
Lemma keepLast_sublist (options : list slot) : sublist (keepLast options) options.
Proof.
  induction options as [| x tl IH]; cbn [keepLast]; [constructor |].
  destruct (decide _); [apply sublist_cons | apply sublist_skip]; exact IH.
Qed.

(** Of the slots of a type, [keepLast] keeps exactly the last one. *)
Lemma keepLast_last (ty : option OptType) (options : list slot) :
  filter (fun x => TypeOf x = ty) (keepLast options)
  = option_list (last (filter (fun x => TypeOf x = ty) options)).
Proof.
  induction options as [| x tl IH]; cbn [keepLast]; [reflexivity |].
  destruct (decide (TypeOf x ∈ TypeOf <$> tl)) as [Hlater | Hlast].
  - rewrite IH. destruct (decide (TypeOf x = ty)) as [Hty | Hty].
    + rewrite (filter_cons_True _ x tl) by exact Hty.
      apply list_elem_of_fmap in Hlater as [y [Hy Hin]].
      assert (Hyin : y ∈ filter (fun x => TypeOf x = ty) tl)
        by (apply list_elem_of_filter; split; [congruence | exact Hin]).
      destruct (filter (fun x => TypeOf x = ty) tl) as [| z f];
        [apply elem_of_nil in Hyin; contradiction |].
      rewrite last_cons_cons. reflexivity.
    + rewrite (filter_cons_False _ x tl) by exact Hty. reflexivity.
  - destruct (decide (TypeOf x = ty)) as [Hty | Hty].
    + rewrite !filter_cons_True by exact Hty. rewrite IH.
      assert (Hnone : filter (fun x => TypeOf x = ty) tl = []).
      { destruct (filter (fun x => TypeOf x = ty) tl) as [| z f] eqn:E;
          [reflexivity |].
        exfalso. apply Hlast.
        assert (Hz : z ∈ filter (fun x => TypeOf x = ty) tl)
          by (rewrite E; constructor).
        apply list_elem_of_filter in Hz as [Hz Hin].
        apply list_elem_of_fmap. exists z. split; [congruence | exact Hin]. }
      rewrite Hnone. reflexivity.
    + rewrite !filter_cons_False by exact Hty. exact IH.
Qed.

(** *** [Unbundle] *)

Lemma Unbundle_flat (ob : OneBundle) :
  Unbundle ob false = Returned (map Some (collected ob), None).
Proof. unfold Unbundle. rewrite unbundle_collected. reflexivity. Qed.

Lemma Unbundle_dedup (ob : OneBundle) :
  Unbundle ob true = Returned (keepLast (map Some (collected ob)), None).
Proof.
  unfold Unbundle. rewrite unbundle_collected. cbn [obind negb].
  rewrite dedupLoop_keepLast. reflexivity.
Qed.

(** For a bundle to which no nil option was added, [Unbundle(false)] returns
    the added options in the order they were added, nested bundles expanded
    in place, and [Unbundle(true)] returns a subsequence of that list which
    keeps, of the options of each type, exactly the last one. *)
Theorem Unbundle_nilOnlyAtEnd (ob : OneBundle) :
  nilOnlyAtEnd ob = true ->
  Unbundle ob false = Returned (map Some (added ob), None) /\
  exists kept,
    Unbundle ob true = Returned (kept, None) /\
    sublist kept (map Some (added ob)) /\
    forall ty,
      filter (fun x => TypeOf x = ty) kept
      = option_list (last (filter (fun x => TypeOf x = ty) (map Some (added ob)))).
Proof.
  intros Hwf. rewrite <- (collected_added ob Hwf). split.
  - apply Unbundle_flat.
  - exists (keepLast (map Some (collected ob))). split; [apply Unbundle_dedup |].
    split; [apply keepLast_sublist | intros ty; apply keepLast_last].
Qed.

End Bundles.

Arguments OneBundle WriteConcern : clear implicits.
Arguments One WriteConcern : clear implicits.
Arguments InsertOptioner WriteConcern : clear implicits.

(** *** The bundles of [TestInsertInsertOneOpt] *)

Definition bundle1 : OneBundle unit :=
  BypassDocumentValidation (BypassDocumentValidation nilOneBundle true) false.

Definition nestedBundle1 : OneBundle unit :=
  BundleOne [OneBypassDocumentValidation true; OneBypassDocumentValidation true;
             OneNested (BundleOne [OneBypassDocumentValidation false])].

Definition nestedBundle3 : OneBundle unit :=
  let b1 := BundleOne [OneBypassDocumentValidation false] in
  let b2 := BundleOne [OneBypassDocumentValidation false; OneNested b1] in
  let b3 := BundleOne [OneBypassDocumentValidation true] in
  let b4 := BundleOne [OneBypassDocumentValidation false; OneNested b3] in
  BundleOne [OneNested b4; OneBypassDocumentValidation true; OneNested b2].

Example Unbundle_bundle1 :
  Unbundle bundle1 false
  = Returned ([Some (OptBypassDocumentValidation true);
               Some (OptBypassDocumentValidation false)], None) /\
  Unbundle bundle1 true
  = Returned ([Some (OptBypassDocumentValidation false)], None).
Proof. split; vm_compute; reflexivity. Qed.

Example Unbundle_nestedBundle3 :
  Unbundle nestedBundle3 false
  = Returned (map (fun b => Some (OptBypassDocumentValidation b))
                [false; true; true; false; false], None) /\
  Unbundle nestedBundle3 true
  = Returned ([Some (OptBypassDocumentValidation false)], None).
Proof. split; vm_compute; reflexivity. Qed.

Lemma Unbundle_nilOnlyAtEnd_witness :
  nilOnlyAtEnd nestedBundle1 = true /\
  Unbundle nestedBundle1 false
  = Returned (map Some (added nestedBundle1), None).
Proof.
  split; [reflexivity |].
  apply (Unbundle_nilOnlyAtEnd nestedBundle1). reflexivity.
Defined.

(** A bundle created from an option followed by a nil option, and the first
    bundle of the test "Nil Option Bundle" (without the session option, which
    this version of the package does not have). *)
Definition bundleWithNil : OneBundle unit :=
  BundleOne [OneBypassDocumentValidation true; OneNil].

Definition nilOptionBundle : OneBundle unit :=
  BundleOne [OneBypassDocumentValidation true; OneNested (BundleOne [OneNil]); OneNil].

(** C8.  [Unbundle] at a bundle to which a nil option was added after another
    option: the loops stop at the node of the nil option, so [Unbundle(false)]
    returns no option at all, although [BypassDocumentValidation(true)] was
    added; the same happens with deduplication, and at the bundle of the
    test, which expects one option. *)
Theorem Unbundle_nil_option_drops_earlier :
  added bundleWithNil = [OptBypassDocumentValidation true] /\
  Unbundle bundleWithNil false = Returned ([], None) /\
  Unbundle bundleWithNil true = Returned ([], None) /\
  added nilOptionBundle = [OptBypassDocumentValidation true] /\
  Unbundle nilOptionBundle false = Returned ([], None).
Proof. repeat split; vm_compute; reflexivity. Qed.

End insertopt.

(** ** bson-codec-design/bson: the struct tag parser *)
Module structtag.

Local Open Scope string_scope.

(** The double quote character, and a string between double quotes. *)
Definition dquote : ascii := Ascii.ascii_of_nat 34.
Definition backslash : ascii := Ascii.ascii_of_nat 92.
Definition quoted (s : string) : string :=
  String dquote (s ++ String dquote EmptyString).

(** [reflect.StructField], as far as the parser reads it: the name of the
    field and its raw tag. *)
Record StructField : Type := {
  Name : string;
  Tag : string;
}.

(** [type StructTags struct] *)
Record StructTags : Type := {
  TagName : string;
  OmitEmpty : bool;
  MinSize : bool;
  Truncate : bool;
  Inline : bool;
  Skip : bool;
}.

(** The zero value [var st StructTags]. *)
Definition zeroStructTags : StructTags :=
  {| TagName := ""; OmitEmpty := false; MinSize := false; Truncate := false;
     Inline := false; Skip := false |}.

(** [strings.Split(s, ",")]: the parts of [s] between commas; one empty part
    for the empty string. *)
Fixpoint Split (s : string) : list string :=
  match s with
  | EmptyString => [""]
  | String c r =>
      if Ascii.eqb c "," then "" :: Split r
      else
        match Split r with
        | hd :: tl => String c hd :: tl
        | [] => [String c ""]
        end
  end.

(** [strings.Contains(s, ":")] *)
Fixpoint ContainsColon (s : string) : bool :=
  match s with
  | EmptyString => false
  | String c r => Ascii.eqb c ":" || ContainsColon r
  end.

(** *** [reflect.StructTag.Lookup] of the Go library *)

(** [for i < len(tag) && tag[i] == ' ' { i++ }; tag = tag[i:]] *)
Fixpoint skipSpaces (tag : string) : string :=
  match tag with
  | String c r => if Ascii.eqb c " " then skipSpaces r else tag
  | EmptyString => tag
  end.

(** The characters of a tag name: above the space, and none of the colon,
    the double quote and DEL. *)
Definition isNameChar (c : ascii) : bool :=
  (32 <? nat_of_ascii c)%nat && negb (Ascii.eqb c ":") &&
  negb (Ascii.eqb c dquote) && negb (nat_of_ascii c =? 127)%nat.

(** The scan to the colon: the name [tag[:i]] and the rest [tag[i:]]. *)
Fixpoint scanName (tag : string) : string * string :=
  match tag with
  | String c r =>
      if isNameChar c then let '(name, rest) := scanName r in (String c name, rest)
      else ("", tag)
  | EmptyString => ("", "")
  end.

(** The scan of the quoted string, after its opening quote: the text up to
    the closing quote and the rest after it; a backslash skips the next
    character; [None] when the closing quote is missing. *)
Fixpoint scanQuoted (s : string) : option (string * string) :=
  match s with
  | EmptyString => None
  | String c r =>
      if Ascii.eqb c dquote then Some ("", r)
      else if Ascii.eqb c backslash then
        match r with
        | EmptyString => None
        | String c' r' =>
            match scanQuoted r' with
            | Some (inner, rest) => Some (String c (String c' inner), rest)
            | None => None
            end
        end
      else
        match scanQuoted r with
        | Some (inner, rest) => Some (String c inner, rest)
        | None => None
        end
  end.

Section Parser.
(** [strings.ToLower] and [strconv.Unquote] of the Go library; [Unquote]
    takes the quoted string with its quotes and fails with [None]. *)
Variable ToLower : string -> string.
Variable Unquote : string -> option string.

(** The loop [for tag != ""] of [Lookup]; every round removes at least one
    character of [tag], [fuel] bounds the number of rounds. *)
Fixpoint lookupLoop (fuel : nat) (tag key : string) : option string :=
  match fuel with
  | O => None
  | S fuel' =>
      let tag := skipSpaces tag in
      match tag with
      | EmptyString => None
      | _ =>
          let '(name, rest) := scanName tag in
          match name, rest with
          | String _ _, String c1 (String c2 afterQuote) =>
              if Ascii.eqb c1 ":" && Ascii.eqb c2 dquote then
                match scanQuoted afterQuote with
                | None => None
                | Some (inner, tag') =>
                    if String.eqb key name then Unquote (quoted inner)
                    else lookupLoop fuel' tag' key
                end
              else None
          | _, _ => None
          end
      end
  end.

(** [func (tag StructTag) Lookup(key string) (value string, ok bool)] *)
Definition Lookup (tag key : string) : option string :=
  lookupLoop (S (String.length tag)) tag key.

(** One round of [for idx, str := range strings.Split(tag, ",")]. *)
Definition tagStep (idx : nat) (str : string) (acc : string * StructTags)
  : string * StructTags :=
  let '(key, st) := acc in
  let key := if (idx =? 0)%nat && negb (String.eqb str "") then str else key in
  let st :=
    if String.eqb str "omitempty" then
      {| TagName := TagName st; OmitEmpty := true; MinSize := MinSize st;
         Truncate := Truncate st; Inline := Inline st; Skip := Skip st |}
    else if String.eqb str "minsize" then
      {| TagName := TagName st; OmitEmpty := OmitEmpty st; MinSize := true;
         Truncate := Truncate st; Inline := Inline st; Skip := Skip st |}
    else if String.eqb str "truncate" then
      {| TagName := TagName st; OmitEmpty := OmitEmpty st; MinSize := MinSize st;
         Truncate := true; Inline := Inline st; Skip := Skip st |}
    else if String.eqb str "inline" then
      {| TagName := TagName st; OmitEmpty := OmitEmpty st; MinSize := MinSize st;
         Truncate := Truncate st; Inline := true; Skip := Skip st |}
    else st in
  (key, st).

Fixpoint tagLoop (idx : nat) (strs : list string) (acc : string * StructTags)
  : string * StructTags :=
  match strs with
  | [] => acc
  | str :: tl => tagLoop (S idx) tl (tagStep idx str acc)
  end.

(** [var DefaultStructTagParser StructTagParserFunc = func(sf
    reflect.StructField) (StructTags, error)] *)
Definition DefaultStructTagParser (sf : StructField) : StructTags * option error :=
  let key := ToLower (Name sf) in
  let st := zeroStructTags in
  let '(key, st) :=
    match Lookup (Tag sf) "bson" with
    | Some tag =>
        let st :=
          if String.eqb tag "-" || String.eqb (Tag sf) "-" then
            {| TagName := TagName st; OmitEmpty := OmitEmpty st;
               MinSize := MinSize st; Truncate := Truncate st;
               Inline := Inline st; Skip := true |}
          else st in
        tagLoop 0 (Split tag) (key, st)
    | None =>
        if negb (ContainsColon (Tag sf)) && (0 <? String.length (Tag sf))%nat
        then (Tag sf, st)
        else (key, st)
    end in
  ({| TagName := key; OmitEmpty := OmitEmpty st; MinSize := MinSize st;
      Truncate := Truncate st; Inline := Inline st; Skip := Skip st |}, None).

(** *** The bound on the rounds of [Lookup] suffices *)

Lemma skipSpaces_length (tag : string) :
  (String.length (skipSpaces tag) <= String.length tag)%nat.
Proof.
  induction tag as [| c r IH]; cbn; [lia |].
  destruct (Ascii.eqb c " "); cbn; lia.
Qed.

Lemma scanName_length (tag name rest : string) :
  scanName tag = (name, rest) ->
  String.length tag = (String.length name + String.length rest)%nat.
Proof.
  revert name rest. induction tag as [| c r IH]; cbn; intros name rest Hscan.
  - injection Hscan as <- <-. reflexivity.
  - destruct (isNameChar c).
    + destruct (scanName r) as [name' rest'] eqn:E.
      injection Hscan as <- <-. cbn. rewrite (IH name' rest' eq_refl). lia.
    + injection Hscan as <- <-. reflexivity.
Qed.

Lemma scanQuoted_length_bounded (n : nat) :
  forall s inner rest : string,
    (String.length s <= n)%nat ->
    scanQuoted s = Some (inner, rest) ->
    (String.length rest < String.length s)%nat.
Proof.
  induction n as [| n IH]; intros s inner rest Hn Hscan.
  - destruct s; [discriminate | cbn in Hn; lia].
  - destruct s as [| c r]; [discriminate |]. cbn in Hn, Hscan |- *.
    destruct (Ascii.eqb c dquote).
    + injection Hscan as <- <-. lia.
    + destruct (Ascii.eqb c backslash).
      * destruct r as [| c' r']; [discriminate |].
        destruct (scanQuoted r') as [[inner' rest'] |] eqn:E; [| discriminate].
        injection Hscan as <- <-.
        cbn in Hn |- *.
        pose proof (IH r' inner' rest' ltac:(lia) E). lia.
      * destruct (scanQuoted r) as [[inner' rest'] |] eqn:E; [| discriminate].
        injection Hscan as <- <-.
        pose proof (IH r inner' rest' ltac:(lia) E). lia.
Qed.

Lemma scanQuoted_length (s inner rest : string) :
  scanQuoted s = Some (inner, rest) ->
  (String.length rest < String.length s)%nat.
Proof. apply (scanQuoted_length_bounded (String.length s)). lia. Qed.

(** With more rounds than characters, [lookupLoop] does not depend on the
    bound: the loop of [Lookup] ends before the bound is reached. *)
Lemma lookupLoop_fuel (key : string) (fuel1 : nat) :
  forall (fuel2 : nat) (tag : string),
    (String.length tag < fuel1)%nat -> (String.length tag < fuel2)%nat ->
    lookupLoop fuel1 tag key = lookupLoop fuel2 tag key.
Proof.
  induction fuel1 as [| fuel1 IH]; intros fuel2 tag H1 H2; [lia |].
  destruct fuel2 as [| fuel2]; [lia |].
  cbn [lookupLoop]. cbn zeta.
  pose proof (skipSpaces_length tag) as Hskip.
  destruct (skipSpaces tag) as [| c0 r0] eqn:Etag; [reflexivity |].
  destruct (scanName (String c0 r0)) as [name rest] eqn:Ename.
  apply scanName_length in Ename.
  destruct name as [| n0 name]; [reflexivity |].
  destruct rest as [| c1 [| c2 afterQuote]]; try reflexivity.
  destruct (Ascii.eqb c1 ":" && Ascii.eqb c2 dquote); [| reflexivity].
  destruct (scanQuoted afterQuote) as [[inner tag'] |] eqn:Equoted; [| reflexivity].
  apply scanQuoted_length in Equoted.
  destruct (String.eqb key (String n0 name)); [reflexivity |].
  cbn [String.length] in *. apply IH; lia.
Qed.



(** *** The loop over the parts of the tag *)










Lemma Lookup_empty (key : string) : Lookup "" key = None.
Proof. reflexivity. Qed.

(** *** The parser *)


(** Without a bson tag, a raw tag that is not empty and holds no colon becomes
    the name as it is, and no flag and no skip is set, whatever the raw tag
    holds. *)
Lemma DefaultStructTagParser_raw (sf : StructField) :
  Lookup (Tag sf) "bson" = None ->
  ContainsColon (Tag sf) = false -> Tag sf <> "" ->
  fst (DefaultStructTagParser sf)
  = {| TagName := Tag sf; OmitEmpty := false; MinSize := false;
       Truncate := false; Inline := false; Skip := false |}.
Proof.
  intros Hlook Hcolon Hne. unfold DefaultStructTagParser.
  rewrite Hlook, Hcolon. destruct (Tag sf); [contradiction | reflexivity].
Qed.

End Parser.

(** *** Running the parser *)

(** [strings.ToLower] on ASCII strings, where it lowers the letters A to Z
    byte by byte. *)
Definition asciiLower (c : ascii) : ascii :=
  let n := nat_of_ascii c in
  if (65 <=? n)%nat && (n <=? 90)%nat then ascii_of_nat (n + 32) else c.

Fixpoint asciiToLower (s : string) : string :=
  match s with
  | EmptyString => EmptyString
  | String c r => String (asciiLower c) (asciiToLower r)
  end.

(** [strconv.Unquote] on a double-quoted string without a backslash, where it
    returns the text between the quotes; this stand-in fails on every other
    input. *)
Fixpoint betweenQuotes (s : string) : option string :=
  match s with
  | EmptyString => None
  | String c r =>
      if Ascii.eqb c backslash then None
      else
        match r with
        | EmptyString => if Ascii.eqb c dquote then Some "" else None
        | String _ _ =>
            match betweenQuotes r with
            | Some inner => Some (String c inner)
            | None => None
            end
        end
  end.

Definition plainUnquote (q : string) : option string :=
  match q with
  | String c r => if Ascii.eqb c dquote then betweenQuotes r else None
  | EmptyString => None
  end.

Definition parse : StructField -> StructTags * option error :=
  DefaultStructTagParser asciiToLower plainUnquote.

(** A field tagged [bson:"foo,omitempty,inline"] next to a json tag. *)
Definition taggedField : StructField :=
  {| Name := "Foo";
     Tag := "json:" ++ quoted "x" ++ " bson:" ++ quoted "foo,omitempty,inline" |}.

Example parse_taggedField :
  parse taggedField
  = ({| TagName := "foo"; OmitEmpty := true; MinSize := false; Truncate := false;
        Inline := true; Skip := false |}, None).
Proof. vm_compute. reflexivity. Qed.

Example parse_skip :
  parse {| Name := "Foo"; Tag := "bson:" ++ quoted "-" |}
  = ({| TagName := "-"; OmitEmpty := false; MinSize := false; Truncate := false;
        Inline := false; Skip := true |}, None).
Proof. vm_compute. reflexivity. Qed.

Example parse_untagged :
  parse {| Name := "FooBar"; Tag := "" |}
  = ({| TagName := "foobar"; OmitEmpty := false; MinSize := false;
        Truncate := false; Inline := false; Skip := false |}, None).
Proof. vm_compute. reflexivity. Qed.



(** The raw tags ["-"] and [bar,omitempty]: neither is skipped or parsed for
    flags. *)
Example parse_raw_dash_and_flags :
  parse {| Name := "Foo"; Tag := "-" |}
  = ({| TagName := "-"; OmitEmpty := false; MinSize := false; Truncate := false;
        Inline := false; Skip := false |}, None) /\
  parse {| Name := "Foo"; Tag := "bar,omitempty" |}
  = ({| TagName := "bar,omitempty"; OmitEmpty := false; MinSize := false;
        Truncate := false; Inline := false; Skip := false |}, None).
Proof. split; vm_compute; reflexivity. Qed.

End structtag.

(** ** bson: the document model and its byte form *)
Module bson.

(** A byte is an integer in [0, 256). *)
Definition byte : Type := Z.

(** The values of a document ([bson.Val]), one constructor per type of the
    data model, and the elements [bson.Elem{Key, Value}] of a document
    ([bson.Doc], a slice of elements).  A double is kept as the 64 bits of
    its IEEE 754 form, an object identifier as its 12 bytes, a decimal128 as
    its 16 bytes. *)
Inductive Val : Type :=
| Double (bits : Z)
| String (s : string)
| Document (d : list Elem)
| Array (a : list Val)
| Binary (subtype : byte) (data : list byte)
| Undefined
| ObjectID (oid : list byte)
| Boolean (b : bool)
| DateTime (ms : Z)
| Null
| Regex (pattern options : string)
| DBPointer (ns : string) (oid : list byte)
| JavaScript (code : string)
| Symbol (s : string)
| CodeWithScope (code : string) (scope : list Elem)
| Int32 (i : Z)
| Timestamp (t i : Z)
| Int64 (i : Z)
| Decimal128 (bytes : list byte)
| MinKey
| MaxKey
with Elem : Type :=
| mkElem (Key : string) (Value : Val).

Definition Doc : Type := list Elem.
Definition Arr : Type := list Val.

Definition Key (e : Elem) : string := match e with mkElem k _ => k end.
Definition Value (e : Elem) : Val := match e with mkElem _ v => v end.

(** *** Primitives of the byte layout *)

(** [n] bytes of [z], little-endian, in two's complement. *)
Fixpoint le (n : nat) (z : Z) : list byte :=
  match n with
  | O => []
  | S n' => z mod 256 :: le n' (z / 256)
  end.

Definition int32le (z : Z) : list byte := le 4 z.
Definition int64le (z : Z) : list byte := le 8 z.

(** The unsigned integer that little-endian bytes stand for. *)
Fixpoint unle (bs : list byte) : Z :=
  match bs with
  | [] => 0
  | b :: tl => b + 256 * unle tl
  end.

Definition bytesOf (s : string) : list byte :=
  map (fun c => Z.of_nat (nat_of_ascii c)) (list_ascii_of_string s).

(** CString: the bytes, terminated by NUL. *)
Definition cstring (s : string) : list byte := bytesOf s ++ [0].

(** A string value: its length with the terminator, then the CString. *)
Definition lstring (s : string) : list byte :=
  int32le (Z.of_nat (length (bytesOf s)) + 1) ++ cstring s.

(** The key of the array element at an index: its decimal form. *)
Definition indexKey (i : nat) : string :=
  NilEmpty.string_of_uint (Nat.to_uint i).

(** Modelled from the spec: the encoder of documents (the [MarshalBSON] of
    the bson package is not among the sources).  "Document = int32 length ||
    element* || 0x00", the length being that of the whole document with the
    prefix and the trailing NUL. *)
Definition frame (body : list byte) : list byte :=
  int32le (4 + Z.of_nat (length body) + 1) ++ body ++ [0].

(** Modelled from the spec: the type byte of an element, which the encoder
    writes before the key.  The fixtures of the spec and of the tests give
    those of double, string, document, array, boolean, null, int32 and int64;
    the others are those of the document format. *)
Definition typeByte (v : Val) : byte :=
  match v with
  | Double _ => 0x01
  | String _ => 0x02
  | Document _ => 0x03
  | Array _ => 0x04
  | Binary _ _ => 0x05
  | Undefined => 0x06
  | ObjectID _ => 0x07
  | Boolean _ => 0x08
  | DateTime _ => 0x09
  | Null => 0x0A
  | Regex _ _ => 0x0B
  | DBPointer _ _ => 0x0C
  | JavaScript _ => 0x0D
  | Symbol _ => 0x0E
  | CodeWithScope _ _ => 0x0F
  | Int32 _ => 0x10
  | Timestamp _ _ => 0x11
  | Int64 _ => 0x12
  | Decimal128 _ => 0x13
  | MinKey => 0xFF
  | MaxKey => 0x7F
  end.

(** Modelled from the spec: the byte form of a value.  "Element = type:uint8
    || cstring key || value"; numeric primitives are little-endian; an array
    is a document whose keys are the decimal indices from "0". *)
Fixpoint encodeValue (v : Val) : list byte :=
  let elements :=
    fix elements (es : list Elem) : list byte :=
      match es with
      | [] => []
      | mkElem k x :: tl => (typeByte x :: cstring k ++ encodeValue x) ++ elements tl
      end in
  let items :=
    fix items (i : nat) (xs : list Val) : list byte :=
      match xs with
      | [] => []
      | x :: tl => (typeByte x :: cstring (indexKey i) ++ encodeValue x) ++ items (S i) tl
      end in
  match v with
  | Double bits => int64le bits
  | String s => lstring s
  | Document d => frame (elements d)
  | Array a => frame (items 0%nat a)
  | Binary subtype data => int32le (Z.of_nat (length data)) ++ subtype :: data
  | Undefined => []
  | ObjectID oid => oid
  | Boolean b => [if b then 1 else 0]
  | DateTime ms => int64le ms
  | Null => []
  | Regex pattern options => cstring pattern ++ cstring options
  | DBPointer ns oid => lstring ns ++ oid
  | JavaScript code => lstring code
  | Symbol s => lstring s
  | CodeWithScope code scope =>
      let body := lstring code ++ frame (elements scope) in
      int32le (4 + Z.of_nat (length body)) ++ body
  | Int32 i => int32le i
  | Timestamp t i => int32le i ++ int32le t
  | Int64 i => int64le i
  | Decimal128 bytes => bytes
  | MinKey => []
  | MaxKey => []
  end.

(** Modelled from the spec: an element, and the elements of a document. *)
Definition encodeElement (e : Elem) : list byte :=
  typeByte (Value e) :: cstring (Key e) ++ encodeValue (Value e).

Definition encodeElements (d : Doc) : list byte :=
  concat (map encodeElement d).

(** Modelled from the spec: [Doc.MarshalBSON], the encoded form of a
    document. *)
Definition MarshalBSON (d : Doc) : list byte := frame (encodeElements d).

(** The length that the first four bytes of an encoding announce. *)
Definition announcedLength (b : list byte) : Z := unle (take 4 b).

(** *** The framing *)

Lemma le_length (n : nat) (z : Z) : length (le n z) = n.
Proof. revert z. induction n as [| n IH]; intros z; cbn; [| rewrite IH]; reflexivity. Qed.

Lemma unle_le (n : nat) :
  forall z, 0 <= z < 256 ^ Z.of_nat n -> unle (le n z) = z.
Proof.
  induction n as [| n IH]; intros z Hz.
  - cbn in *. lia.
  - cbn [le unle]. rewrite Nat2Z.inj_succ, Z.pow_succ_r in Hz by lia.
    rewrite IH.
    + pose proof (Z.div_mod z 256 ltac:(lia)). lia.
    + split; [apply Z.div_pos; lia | apply Z.div_lt_upper_bound; lia].
Qed.

Lemma frame_length (body : list byte) :
  Z.of_nat (length (frame body)) = 4 + Z.of_nat (length body) + 1.
Proof.
  unfold frame, int32le. rewrite !length_app, le_length. cbn [length]. lia.
Qed.

Lemma frame_announced (body : list byte) :
  Z.of_nat (length (frame body)) < 2 ^ 32 ->
  announcedLength (frame body) = Z.of_nat (length (frame body)).
Proof.
  intros Hsize. rewrite frame_length in *. unfold announcedLength, frame, int32le.
  rewrite take_app_length' by (symmetry; apply le_length).
  apply (unle_le 4). change (256 ^ Z.of_nat 4) with (2 ^ 32). lia.
Qed.

Lemma frame_last (body : list byte) : last (frame body) = Some 0.
Proof. unfold frame. rewrite app_assoc. apply last_snoc. Qed.

Lemma MarshalBSON_Document (d : Doc) : MarshalBSON d = encodeValue (Document d).
Proof.
  unfold MarshalBSON. cbn [encodeValue]. f_equal.
  induction d as [| [k x] tl IH]; [reflexivity |].
  unfold encodeElements in *. cbn [map concat]. rewrite IH. reflexivity.
Qed.

(** C1.  The encoding of a document begins with the little-endian int32 of
    its total length (prefix and trailing NUL included) and ends with a NUL
    byte, for every document whose encoding has a length an int32 can hold;
    the empty document encodes to [05 00 00 00 00] and [{"foo": null}] to
    [0A 00 00 00 0A 66 6F 6F 00 00]. *)
Theorem MarshalBSON_framing :
  (forall d : Doc,
     Z.of_nat (length (MarshalBSON d)) < 2 ^ 31 ->
     announcedLength (MarshalBSON d) = Z.of_nat (length (MarshalBSON d)) /\
     take 4 (MarshalBSON d) = int32le (Z.of_nat (length (MarshalBSON d))) /\
     last (MarshalBSON d) = Some 0) /\
  MarshalBSON [] = [0x05; 0x00; 0x00; 0x00; 0x00] /\
  MarshalBSON [mkElem "foo" Null]
  = [0x0A; 0x00; 0x00; 0x00; 0x0A; 0x66; 0x6F; 0x6F; 0x00; 0x00].
Proof.
  split; [| split; reflexivity].
  intros d Hsize. unfold MarshalBSON in *. split; [| split].
  - apply frame_announced. lia.
  - rewrite frame_length. unfold frame, int32le.
    rewrite take_app_length' by (symmetry; apply le_length). reflexivity.
  - apply frame_last.
Qed.

(** Fixtures: [{"hello": "world"}], and [{"a": 1, "b": 2}] with an int32 and
    an int64, whose encoding has 23 bytes. *)
Definition helloWorld : Doc := [mkElem "hello" (String "world")].
Definition a1b2 : Doc := [mkElem "a" (Int32 1); mkElem "b" (Int64 2)].

Example MarshalBSON_helloWorld :
  MarshalBSON helloWorld
  = [0x16; 0; 0; 0; 0x02; 0x68; 0x65; 0x6C; 0x6C; 0x6F; 0; 0x06; 0; 0; 0;
     0x77; 0x6F; 0x72; 0x6C; 0x64; 0; 0].
Proof. reflexivity. Qed.

Example MarshalBSON_a1b2 :
  MarshalBSON a1b2
  = [0x17; 0; 0; 0; 0x10; 0x61; 0; 0x01; 0; 0; 0; 0x12; 0x62; 0;
     0x02; 0; 0; 0; 0; 0; 0; 0; 0].
Proof. vm_compute. reflexivity. Qed.

(** [{ "a": null, "b": false, "c": [ "foo", -2.7 ], "d": { "efg": 4 } }] of
    [Test_ParseObjectToBuilder]. *)
Definition builderDoc : Doc :=
  [mkElem "a" Null; mkElem "b" (Boolean false);
   mkElem "c" (Array [String "foo"; Double 0xC00599999999999A]);
   mkElem "d" (Document [mkElem "efg" (Int64 4)])].

Example MarshalBSON_builderDoc :
  MarshalBSON builderDoc
  = [0x3f; 0; 0; 0;
     0x0a; 0x61; 0;
     0x08; 0x62; 0; 0;
     0x04; 0x63; 0;
       0x1b; 0; 0; 0;
       0x02; 0x30; 0; 0x04; 0; 0; 0; 0x66; 0x6f; 0x6f; 0;
       0x01; 0x31; 0; 0x9a; 0x99; 0x99; 0x99; 0x99; 0x99; 0x05; 0xc0;
       0;
     0x03; 0x64; 0;
       0x12; 0; 0; 0;
       0x12; 0x65; 0x66; 0x67; 0; 0x04; 0; 0; 0; 0; 0; 0; 0;
       0;
     0].
Proof. vm_compute. reflexivity. Qed.

Lemma MarshalBSON_framing_witness :
  Z.of_nat (length (MarshalBSON builderDoc)) < 2 ^ 31 /\
  announcedLength (MarshalBSON builderDoc) = 63 /\
  last (MarshalBSON builderDoc) = Some 0.
Proof.
  split; [vm_compute; reflexivity |].
  destruct MarshalBSON_framing as [Hframe _].
  destruct (Hframe builderDoc) as (Hlen & _ & Hlast); [vm_compute; reflexivity |].
  split; [rewrite Hlen; reflexivity | exact Hlast].
Defined.

End bson.

(** ** core/dispatch/find.go *)
Module dispatch.
Import bson.

(** [description.VersionRange] and the part of [description.Server] that
    [Find] reads; [WireVersion] is a pointer. *)
Record VersionRange : Type := { Min : Z; Max : Z }.
Record Description : Type := { WireVersion : option VersionRange }.

(** [options.CursorType] *)
Inductive CursorType : Type := NonTailable | Tailable | TailableAwait.

(** [time.Millisecond], in nanoseconds, the unit of [time.Duration]. *)
Definition Millisecond : Z := 1000000.

Section Find.
(** The types of the collaborators: selected servers, connections, read
    preferences, sessions, cursors, the values behind [interface{}] options,
    and collations. *)
Context {SelectedServer Connection ReadPref Session Cursor Iface Collation : Type}.

(** [options.FindOptions]: every option is a pointer or an interface value,
    nil when it is not set. *)
Record FindOptions : Type := {
  AllowPartialResults : option bool;
  BatchSize : option Z;
  Collation_ : option Collation;
  Comment : option string;
  CursorType_ : option CursorType;
  Hint : option Iface;
  Limit : option Z;
  Max_ : option Iface;
  MaxAwaitTime : option Z;
  MaxTime : option Z;
  Min_ : option Iface;
  NoCursorTimeout : option bool;
  OplogReplay : option bool;
  Projection : option Iface;
  ReturnKey : option bool;
  ShowRecordID : option bool;
  Skip : option Z;
  Snapshot : option bool;
  Sort : option Iface;
}.

(** The fields of [command.Find] that [Find] reads and writes. *)
Record FindCmd : Type := {
  Filter : Doc;
  ReadPref_ : ReadPref;
  Session_ : option Session;
  Opts : list Elem;
  CursorOpts : list Elem;
}.

(** The calls that leave [Find]; [RoundTrip] is the one that writes the
    command to the wire. *)
Inductive Event : Type :=
| EvSelectServer
| EvConnection
| EvNewClientSession
| EvRoundTrip (cmd : FindCmd)
| EvClose.

(** The functions of other packages that [Find] calls, with the results they
    give. *)
Record Env : Type := {
  SelectServer : result SelectedServer;
  ServerDescription : SelectedServer -> Description;
  ServerConnection : SelectedServer -> result Connection;
  getReadPrefBasedOnTransaction : ReadPref -> option Session -> result ReadPref;
  SupportsSessions : bool;
  NewClientSession : result Session;
  MergeFindOptions : list FindOptions -> FindOptions;
  interfaceToElement : string -> Iface -> result Elem;
  ToDocument : Collation -> Doc;
  RoundTrip : FindCmd -> Description -> SelectedServer -> Connection -> result Cursor;
}.

(** A computation over a state [S]: the state is threaded through, an error
    or a panic ends the computation with the state reached. *)
Definition M (S A : Type) : Type := S -> result A * S.

Definition ret {S A} (a : A) : M S A := fun st => (Ok a, st).

Definition bind {S A B} (m : M S A) (k : A -> M S B) : M S B :=
  fun st =>
    match m st with
    | (Ok a, st') => k a st'
    | (Failed e, st') => (Failed e, st')
    | (Panic, st') => (Panic, st')
    end.

Notation "x <- m ;; k" := (bind m (fun x => k))
  (at level 100, m at next level, right associativity).
Notation "m ;;; k" := (bind m (fun _ => k))
  (at level 100, right associativity).

(** [return nil, err] *)
Definition fail {S A} (e : error) : M S A := fun st => (Failed e, st).

(** The result of a call that does not touch the state. *)
Definition lift {S A} (r : result A) : M S A := fun st => (r, st).

Definition get {S} : M S S := fun st => (Ok st, st).
Definition put {S} (st : S) : M S unit := fun _ => (Ok tt, st).

(** [cmd.Opts = append(cmd.Opts, elems...)] *)
Definition appendOpts (elems : list Elem) : M FindCmd unit :=
  c <- get ;;
  put {| Filter := Filter c; ReadPref_ := ReadPref_ c; Session_ := Session_ c;
         Opts := Opts c ++ elems; CursorOpts := CursorOpts c |}.

(** [cmd.CursorOpts = append(cmd.CursorOpts, elems...)] *)
Definition appendCursorOpts (elems : list Elem) : M FindCmd unit :=
  c <- get ;;
  put {| Filter := Filter c; ReadPref_ := ReadPref_ c; Session_ := Session_ c;
         Opts := Opts c; CursorOpts := CursorOpts c ++ elems |}.

(** [if p != nil { ... }] *)
Definition ifSet {S A} (p : option A) (body : A -> M S unit) : M S unit :=
  match p with
  | Some a => body a
  | None => ret tt
  end.

Variable env : Env.

(** [elem, err := interfaceToElement(key, v, registry); if err != nil
    { return nil, err }; cmd.Opts = append(cmd.Opts, elem)] *)
Definition appendInterface (key : string) (v : Iface) : M FindCmd unit :=
  elem <- lift (interfaceToElement env key v) ;;
  appendOpts [elem].

(** The part of [Find] that turns the merged options [fo] into elements of
    its copy of the command (from [if fo.AllowPartialResults != nil] to
    [if fo.Sort != nil]), in the order of the source. *)
Definition findOptions (desc : Description) (fo : FindOptions) : M FindCmd unit :=
  ifSet (AllowPartialResults fo) (fun b =>
    appendOpts [mkElem "allowPartialResults" (Boolean b)]) ;;;
  ifSet (BatchSize fo) (fun batchSize =>
    let elem := mkElem "batchSize" (Int32 batchSize) in
    appendOpts [elem] ;;;
    appendCursorOpts [elem] ;;;
    match Limit fo with
    | Some limit =>
        if negb (batchSize =? 0) && (limit <=? batchSize)
        then appendOpts [mkElem "singleBatch" (Boolean true)]
        else ret tt
    | None => ret tt
    end) ;;;
  ifSet (Collation_ fo) (fun collation =>
    match WireVersion desc with
    | None => lift Panic
    | Some wv =>
        if Max wv <? 5 then fail ErrCollation
        else appendOpts [mkElem "collation" (Document (ToDocument env collation))]
    end) ;;;
  ifSet (Comment fo) (fun comment =>
    appendOpts [mkElem "comment" (String comment)]) ;;;
  ifSet (CursorType_ fo) (fun cursorType =>
    match cursorType with
    | Tailable => appendOpts [mkElem "tailable" (Boolean true)]
    | TailableAwait =>
        appendOpts [mkElem "tailable" (Boolean true);
                    mkElem "awaitData" (Boolean true)]
    | NonTailable => ret tt
    end) ;;;
  ifSet (Hint fo) (appendInterface "hint") ;;;
  ifSet (Limit fo) (fun limit => appendOpts [mkElem "limit" (Int64 limit)]) ;;;
  ifSet (Max_ fo) (appendInterface "max") ;;;
  ifSet (MaxAwaitTime fo) (fun d =>
    appendCursorOpts [mkElem "maxTimeMS" (Int64 (Z.quot d Millisecond))]) ;;;
  ifSet (MaxTime fo) (fun d =>
    appendOpts [mkElem "maxTimeMS" (Int64 (Z.quot d Millisecond))]) ;;;
  ifSet (Min_ fo) (appendInterface "min") ;;;
  ifSet (NoCursorTimeout fo) (fun b =>
    appendOpts [mkElem "noCursorTimeout" (Boolean b)]) ;;;
  ifSet (OplogReplay fo) (fun b => appendOpts [mkElem "oplogReplay" (Boolean b)]) ;;;
  ifSet (Projection fo) (appendInterface "projection") ;;;
  ifSet (ReturnKey fo) (fun b => appendOpts [mkElem "returnKey" (Boolean b)]) ;;;
  ifSet (ShowRecordID fo) (fun b => appendOpts [mkElem "showRecordId" (Boolean b)]) ;;;
  ifSet (Skip fo) (fun n => appendOpts [mkElem "skip" (Int64 n)]) ;;;
  ifSet (Snapshot fo) (fun b => appendOpts [mkElem "snapshot" (Boolean b)]) ;;;
  ifSet (Sort fo) (appendInterface "sort").

(** The state that [Find] threads: its copy of the command (a value
    parameter) and the calls made so far. *)
Record State : Type := { cmd : FindCmd; log : list Event }.

(** A call that is recorded. *)
Definition call {A} (ev : Event) (r : result A) : M State A :=
  fun st => (r, {| cmd := cmd st; log := log st ++ [ev] |}).

(** [defer f()]: [f] runs when the body is left, however it is left. *)
Definition defer {A} (ev : Event) (body : M State A) : M State A :=
  fun st =>
    let '(r, st') := body st in
    (r, {| cmd := cmd st'; log := log st' ++ [ev] |}).

(** A computation on the command, within [Find]. *)
Definition onCmd {A} (m : M FindCmd A) : M State A :=
  fun st => let '(r, c) := m (cmd st) in (r, {| cmd := c; log := log st |}).

(** [func Find(ctx, cmd, topo, selector, clientID, pool, registry, opts...)
    (command.Cursor, error)] *)
Definition Find (opts : list FindOptions) : M State Cursor :=
  ss <- call EvSelectServer (SelectServer env) ;;
  let desc := ServerDescription env ss in
  conn <- call EvConnection (ServerConnection env ss) ;;
  defer EvClose (
    c <- onCmd get ;;
    rp <- lift (getReadPrefBasedOnTransaction env (ReadPref_ c) (Session_ c)) ;;
    onCmd (put {| Filter := Filter c; ReadPref_ := rp; Session_ := Session_ c;
                  Opts := Opts c; CursorOpts := CursorOpts c |}) ;;;
    (c <- onCmd get ;;
     match Session_ c with
     | None =>
         if SupportsSessions env then
           s <- call EvNewClientSession (NewClientSession env) ;;
           onCmd (put {| Filter := Filter c; ReadPref_ := ReadPref_ c;
                         Session_ := Some s; Opts := Opts c;
                         CursorOpts := CursorOpts c |})
         else ret tt
     | Some _ => ret tt
     end) ;;;
    onCmd (findOptions desc (MergeFindOptions env opts)) ;;;
    c <- onCmd get ;;
    call (EvRoundTrip c) (RoundTrip env c desc ss conn)).

(** [Find] called with the command [c]. *)
Definition runFind (c : FindCmd) (opts : list FindOptions) : result Cursor * State :=
  Find opts {| cmd := c; log := [] |}.

(** The command that [RoundTrip] was called with, if it was called. *)
Fixpoint sentCommand (events : list Event) : option FindCmd :=
  match events with
  | [] => None
  | EvRoundTrip c :: _ => Some c
  | _ :: tl => sentCommand tl
  end.

(** [fo] with [MaxAwaitTime] set to [d]. *)
Definition withMaxAwaitTime (fo : FindOptions) (d : option Z) : FindOptions :=
  {| AllowPartialResults := AllowPartialResults fo; BatchSize := BatchSize fo;
     Collation_ := Collation_ fo; Comment := Comment fo;
     CursorType_ := CursorType_ fo; Hint := Hint fo; Limit := Limit fo;
     Max_ := Max_ fo; MaxAwaitTime := d; MaxTime := MaxTime fo; Min_ := Min_ fo;
     NoCursorTimeout := NoCursorTimeout fo; OplogReplay := OplogReplay fo;
     Projection := Projection fo; ReturnKey := ReturnKey fo;
     ShowRecordID := ShowRecordID fo; Skip := Skip fo; Snapshot := Snapshot fo;
     Sort := Sort fo |}.

(** The elements that [findOptions] appends to [cmd.Opts] before it looks at
    the collation. *)
Definition optsBeforeCollation (fo : FindOptions) : list Elem :=
  match AllowPartialResults fo with
  | Some b => [mkElem "allowPartialResults" (Boolean b)]
  | None => []
  end ++
  match BatchSize fo with
  | Some batchSize =>
      mkElem "batchSize" (Int32 batchSize) ::
      match Limit fo with
      | Some limit =>
          if negb (batchSize =? 0) && (limit <=? batchSize)
          then [mkElem "singleBatch" (Boolean true)]
          else []
      | None => []
      end
  | None => []
  end.

(** What [Find] does before it looks at the options, when all of it
    succeeds: the selected server, the connection, and the state reached. *)
Definition prelude (c : FindCmd) : option (SelectedServer * Connection * State) :=
  match SelectServer env with
  | Ok ss =>
      match ServerConnection env ss with
      | Ok conn =>
          match getReadPrefBasedOnTransaction env (ReadPref_ c) (Session_ c) with
          | Ok rp =>
              let c1 := {| Filter := Filter c; ReadPref_ := rp; Session_ := Session_ c;
                           Opts := Opts c; CursorOpts := CursorOpts c |} in
              match Session_ c with
              | Some _ =>
                  Some (ss, conn, {| cmd := c1; log := [EvSelectServer; EvConnection] |})
              | None =>
                  if SupportsSessions env then
                    match NewClientSession env with
                    | Ok s =>
                        Some (ss, conn,
                              {| cmd := {| Filter := Filter c; ReadPref_ := rp;
                                           Session_ := Some s; Opts := Opts c;
                                           CursorOpts := CursorOpts c |};
                                 log := [EvSelectServer; EvConnection;
                                         EvNewClientSession] |})
                    | _ => None
                    end
                  else
                    Some (ss, conn, {| cmd := c1; log := [EvSelectServer; EvConnection] |})
              end
          | _ => None
          end
      | _ => None
      end
  | _ => None
  end.

(** *** Running [Find] *)

(** When a step before the options fails, [Find] ends the same way whatever
    the options are, and [RoundTrip] is not called. *)
Lemma runFind_prelude_None (c : FindCmd) (opts opts0 : list FindOptions) :
  prelude c = None ->
  runFind c opts = runFind c opts0 /\
  sentCommand (log (snd (runFind c opts))) = None.
Proof.
  unfold prelude, runFind, Find, call, defer, onCmd, lift, get, put, ret, bind.
  cbn [cmd log].
  destruct (SelectServer env) as [ss | e | ]; [| intros _; split; reflexivity ..].
  destruct (ServerConnection env ss) as [conn | e | ];
    [| intros _; split; reflexivity ..].
  destruct (getReadPrefBasedOnTransaction env (ReadPref_ c) (Session_ c))
    as [rp | e | ]; [| intros _; split; reflexivity ..].
  cbn [cmd log Session_].
  destruct (Session_ c) as [s0 |]; [discriminate |].
  destruct (SupportsSessions env); [| discriminate].
  destruct (NewClientSession env) as [s | e | ];
    [discriminate | intros _; split; reflexivity ..].
Qed.

(** When the steps before the options succeed, [Find] runs the options on its
    copy of the command and calls [RoundTrip] with the result, unless the
    options fail. *)
Lemma runFind_prelude_Some (c : FindCmd) (opts : list FindOptions)
  (ss : SelectedServer) (conn : Connection) (st : State) :
  prelude c = Some (ss, conn, st) ->
  Opts (cmd st) = Opts c /\ CursorOpts (cmd st) = CursorOpts c /\
  sentCommand (log st) = None /\
  runFind c opts
  = match findOptions (ServerDescription env ss) (MergeFindOptions env opts) (cmd st) with
    | (Ok _, c') =>
        (RoundTrip env c' (ServerDescription env ss) ss conn,
         {| cmd := c'; log := log st ++ [EvRoundTrip c'; EvClose] |})
    | (Failed e, c') => (Failed e, {| cmd := c'; log := log st ++ [EvClose] |})
    | (Panic, c') => (Panic, {| cmd := c'; log := log st ++ [EvClose] |})
    end.
Proof.
  unfold prelude, runFind, Find, call, defer, onCmd, lift, get, put, ret, bind.
  cbn [cmd log].
  destruct (SelectServer env) as [ss' | e | ]; [| discriminate ..].
  destruct (ServerConnection env ss') as [conn' | e | ]; [| discriminate ..].
  destruct (getReadPrefBasedOnTransaction env (ReadPref_ c) (Session_ c))
    as [rp | e | ]; [| discriminate ..].
  cbn [cmd log Session_].
  destruct (Session_ c) as [s0 |].
  - intros [= <- <- <-]. cbn [cmd log Opts CursorOpts app].
    repeat split.
    destruct (findOptions _ _ _) as [[u | e | ] c']; cbn; rewrite <- ?app_assoc;
      reflexivity.
  - destruct (SupportsSessions env).
    + destruct (NewClientSession env) as [s | e | ]; [| discriminate ..].
      intros [= <- <- <-]. cbn [cmd log Opts CursorOpts app].
      repeat split.
      destruct (findOptions _ _ _) as [[u | e | ] c']; cbn; rewrite <- ?app_assoc;
        reflexivity.
    + intros [= <- <- <-]. cbn [cmd log Opts CursorOpts app].
      repeat split.
      destruct (findOptions _ _ _) as [[u | e | ] c']; cbn; rewrite <- ?app_assoc;
        reflexivity.
Qed.

Lemma sentCommand_app_None (events more : list Event) :
  sentCommand events = None -> sentCommand (events ++ more) = sentCommand more.
Proof.
  induction events as [| ev tl IH]; [reflexivity |].
  destruct ev; cbn; try exact IH. discriminate.
Qed.

(** *** The collation check *)

(** With a collation and a server below wire version 5, the options part
    stops at the collation with [ErrCollation]: only the options before it
    have been appended. *)
Lemma findOptions_ErrCollation (desc : Description) (fo : FindOptions)
  (collation : Collation) (wv : VersionRange) (c : FindCmd) :
  Collation_ fo = Some collation ->
  WireVersion desc = Some wv -> Max wv < 5 ->
  exists c',
    findOptions desc fo c = (Failed ErrCollation, c') /\
    Opts c' = Opts c ++ optsBeforeCollation fo.
Proof.
  intros Hcoll Hwv Hmax. apply Z.ltb_lt in Hmax.
  unfold findOptions, optsBeforeCollation. rewrite Hcoll.
  destruct (AllowPartialResults fo) as [b |];
    destruct (BatchSize fo) as [batchSize |];
    try destruct (Limit fo) as [limit |];
    cbn [ifSet]; rewrite Hwv, Hmax;
    try destruct (negb (batchSize =? 0) && (limit <=? batchSize));
    unfold bind, appendOpts, appendCursorOpts, get, put, ret, fail, bind;
    cbn [Filter ReadPref_ Session_ Opts CursorOpts];
    eexists; (split; [reflexivity |]);
    cbn [Opts]; rewrite <- ?app_assoc, ?app_nil_r; reflexivity.
Qed.

Lemma optsBeforeCollation_keys (fo : FindOptions) :
  Forall (fun e => Key e <> "collation") (optsBeforeCollation fo).
Proof.
  unfold optsBeforeCollation.
  destruct (AllowPartialResults fo); destruct (BatchSize fo) as [batchSize |];
    try destruct (Limit fo) as [limit |];
    try destruct (negb (batchSize =? 0) && (limit <=? batchSize));
    cbn; repeat constructor; cbn; discriminate.
Qed.

(** C9.  When the server is selected, its maximum wire version is below 5,
    the connection is acquired, the read preference is resolved and the
    implicit session (if one is needed) is started, a [Find] whose merged
    options hold a collation returns [ErrCollation]; [RoundTrip] is not
    called, so nothing is written to the wire, and what was appended to the
    options of the command holds no collation element. *)
Theorem Find_ErrCollation (c : FindCmd) (opts : list FindOptions)
  (ss : SelectedServer) (conn : Connection) (rp : ReadPref)
  (collation : Collation) (wv : VersionRange) :
  SelectServer env = Ok ss ->
  WireVersion (ServerDescription env ss) = Some wv -> Max wv < 5 ->
  ServerConnection env ss = Ok conn ->
  getReadPrefBasedOnTransaction env (ReadPref_ c) (Session_ c) = Ok rp ->
  (Session_ c = None -> SupportsSessions env = true ->
   exists s, NewClientSession env = Ok s) ->
  Collation_ (MergeFindOptions env opts) = Some collation ->
  fst (runFind c opts) = Failed ErrCollation /\
  sentCommand (log (snd (runFind c opts))) = None /\
  exists appended,
    Opts (cmd (snd (runFind c opts))) = Opts c ++ appended /\
    Forall (fun e => Key e <> "collation") appended.
Proof.
  intros Hss Hwv Hmax Hconn Hrp Hsess Hcoll.
  assert (Hpre : exists st, prelude c = Some (ss, conn, st)).
  { unfold prelude. rewrite Hss, Hconn, Hrp.
    destruct (Session_ c) as [s0 |]; [eexists; reflexivity |].
    destruct (SupportsSessions env); [| eexists; reflexivity].
    destruct (Hsess eq_refl eq_refl) as [s ->]. eexists; reflexivity. }
  destruct Hpre as [st Hpre].
  destruct (runFind_prelude_Some c opts ss conn st Hpre)
    as (Hopts & _ & Hsent & Hrun).
  destruct (findOptions_ErrCollation (ServerDescription env ss)
              (MergeFindOptions env opts) collation wv (cmd st) Hcoll Hwv Hmax)
    as (c' & Hfail & Hc').
  rewrite Hrun, Hfail. cbn [fst snd cmd log].
  split; [reflexivity |]. split.
  - rewrite sentCommand_app_None by exact Hsent. reflexivity.
  - exists (optsBeforeCollation (MergeFindOptions env opts)).
    rewrite Hc', Hopts. split; [reflexivity | apply optsBeforeCollation_keys].
Qed.

(** *** Two runs that differ in [MaxAwaitTime] *)

















(** *** What the options part appends to the options of the command *)

(** When the computation succeeds from options that satisfy [P], the options
    it leaves satisfy [Q]. *)
Definition ensures (P Q : list Elem -> Prop) (m : M FindCmd unit) : Prop :=
  forall c, P (Opts c) ->
    match m c with
    | (Ok _, c') => Q (Opts c')
    | _ => True
    end.

(** [P] is kept when elements that satisfy [ok] are appended. *)
Definition stable (ok : Elem -> Prop) (P : list Elem -> Prop) : Prop :=
  forall l elems, Forall ok elems -> P l -> P (l ++ elems).

Lemma ensures_bind (P Q R : list Elem -> Prop) (m k : M FindCmd unit) :
  ensures P Q m -> ensures Q R k -> ensures P R (m ;;; k).
Proof.
  intros Hm Hk c HP. unfold bind. specialize (Hm c HP).
  destruct (m c) as [[[] | e | ] c']; [| exact I ..].
  apply Hk. exact Hm.
Qed.

Lemma ensures_ret (P : list Elem -> Prop) : ensures P P (ret tt).
Proof. intros c HP. exact HP. Qed.

Lemma ensures_fail (P Q : list Elem -> Prop) (e : error) : ensures P Q (fail e).
Proof. intros c HP. exact I. Qed.

Lemma ensures_Panic (P Q : list Elem -> Prop) : ensures P Q (lift Panic).
Proof. intros c HP. exact I. Qed.

Lemma ensures_appendCursorOpts (P : list Elem -> Prop) (elems : list Elem) :
  ensures P P (appendCursorOpts elems).
Proof. intros c HP. exact HP. Qed.

Lemma ensures_appendOpts (ok : Elem -> Prop) (P : list Elem -> Prop)
  (elems : list Elem) :
  stable ok P -> Forall ok elems -> ensures P P (appendOpts elems).
Proof. intros Hstable Hok c HP. cbn. apply Hstable; assumption. Qed.

Lemma ensures_appendInterface (ok : Elem -> Prop) (P : list Elem -> Prop)
  (key : string) (v : Iface) :
  stable ok P ->
  (forall e, interfaceToElement env key v = Ok e -> ok e) ->
  ensures P P (appendInterface key v).
Proof.
  intros Hstable Hok c HP. unfold appendInterface, bind, lift.
  destruct (interfaceToElement env key v) as [elem | e | ] eqn:E; [| exact I ..].
  cbn. apply Hstable; [| exact HP]. constructor; [| constructor].
  apply Hok. reflexivity.
Qed.

Lemma ensures_ifSet {A} (P : list Elem -> Prop) (p : option A)
  (body : A -> M FindCmd unit) :
  (forall a, ensures P P (body a)) -> ensures P P (ifSet p body).
Proof. intros Hbody. destruct p; [apply Hbody | apply ensures_ret]. Qed.








Ltac ensures_step side :=
  first
    [ apply ensures_ret | apply ensures_fail | apply ensures_Panic
    | apply ensures_appendCursorOpts
    | eapply ensures_appendOpts; [eassumption | side]
    | eapply ensures_appendInterface; [eassumption | side]
    | apply ensures_ifSet; intros ?
    | eapply ensures_bind
    | match goal with
      | |- ensures _ _ (match ?x with _ => _ end) => destruct x
      | |- ensures _ _ (if ?x then _ else _) => destruct x
      end ].







End Find.

Arguments FindOptions Iface Collation : clear implicits.
Arguments FindCmd ReadPref Session : clear implicits.

(** *** Running [Find] *)

(** A deployment for running [Find]: every collaborator is the unit type but
    the values behind [interface{}], which are bson values, and collations,
    which are documents. *)
Definition noOptions : FindOptions Val Doc :=
  {| AllowPartialResults := None; BatchSize := None; Collation_ := None;
     Comment := None; CursorType_ := None; Hint := None; Limit := None;
     Max_ := None; MaxAwaitTime := None; MaxTime := None; Min_ := None;
     NoCursorTimeout := None; OplogReplay := None; Projection := None;
     ReturnKey := None; ShowRecordID := None; Skip := None; Snapshot := None;
     Sort := None |}.

Definition orElse {A} (later earlier : option A) : option A :=
  match later with
  | Some a => Some a
  | None => earlier
  end.

(** A merge in which the last option list that sets a field wins. *)
Definition mergeTwo (fo opt : FindOptions Val Doc) : FindOptions Val Doc :=
  {| AllowPartialResults := orElse (AllowPartialResults opt) (AllowPartialResults fo);
     BatchSize := orElse (BatchSize opt) (BatchSize fo);
     Collation_ := orElse (Collation_ opt) (Collation_ fo);
     Comment := orElse (Comment opt) (Comment fo);
     CursorType_ := orElse (CursorType_ opt) (CursorType_ fo);
     Hint := orElse (Hint opt) (Hint fo);
     Limit := orElse (Limit opt) (Limit fo);
     Max_ := orElse (Max_ opt) (Max_ fo);
     MaxAwaitTime := orElse (MaxAwaitTime opt) (MaxAwaitTime fo);
     MaxTime := orElse (MaxTime opt) (MaxTime fo);
     Min_ := orElse (Min_ opt) (Min_ fo);
     NoCursorTimeout := orElse (NoCursorTimeout opt) (NoCursorTimeout fo);
     OplogReplay := orElse (OplogReplay opt) (OplogReplay fo);
     Projection := orElse (Projection opt) (Projection fo);
     ReturnKey := orElse (ReturnKey opt) (ReturnKey fo);
     ShowRecordID := orElse (ShowRecordID opt) (ShowRecordID fo);
     Skip := orElse (Skip opt) (Skip fo);
     Snapshot := orElse (Snapshot opt) (Snapshot fo);
     Sort := orElse (Sort opt) (Sort fo) |}.

Definition testEnv (maxWireVersion : Z)
  : @Env unit unit unit unit unit Val Doc :=
  {| SelectServer := Ok tt;
     ServerDescription := fun _ =>
       {| WireVersion := Some {| Min := 0; Max := maxWireVersion |} |};
     ServerConnection := fun _ => Ok tt;
     getReadPrefBasedOnTransaction := fun rp _ => Ok rp;
     SupportsSessions := true;
     NewClientSession := Ok tt;
     MergeFindOptions := fun opts => fold_left mergeTwo opts noOptions;
     interfaceToElement := fun key v => Ok (mkElem key v);
     ToDocument := fun collation => collation;
     RoundTrip := fun _ _ _ _ => Ok tt |}.

Definition findCmd : FindCmd unit unit :=
  {| Filter := [mkElem "_id" (Document [mkElem "$gte" (Int32 1)])];
     ReadPref_ := tt; Session_ := None; Opts := []; CursorOpts := [] |}.

(** The options of a tailable-await cursor with a batch size of 3, and the
    option [MaxAwaitTime] of 250ms. *)
Definition tailableAwaitOptions : FindOptions Val Doc :=
  {| AllowPartialResults := None; BatchSize := Some 3; Collation_ := None;
     Comment := None; CursorType_ := Some TailableAwait; Hint := None;
     Limit := None; Max_ := None; MaxAwaitTime := None; MaxTime := None;
     Min_ := None; NoCursorTimeout := None; OplogReplay := None;
     Projection := None; ReturnKey := None; ShowRecordID := None; Skip := None;
     Snapshot := None; Sort := None |}.

Definition maxAwaitTimeOption : FindOptions Val Doc :=
  withMaxAwaitTime noOptions (Some (250 * Millisecond)).

Definition collationOption : FindOptions Val Doc :=
  {| AllowPartialResults := None; BatchSize := None;
     Collation_ := Some [mkElem "locale" (String "en")];
     Comment := None; CursorType_ := None; Hint := None;
     Limit := None; Max_ := None; MaxAwaitTime := None; MaxTime := None;
     Min_ := None; NoCursorTimeout := None; OplogReplay := None;
     Projection := None; ReturnKey := None; ShowRecordID := None; Skip := None;
     Snapshot := None; Sort := None |}.

Example runFind_tailableAwait :
  sentCommand (log (snd (runFind (testEnv 7) findCmd
                           [tailableAwaitOptions; maxAwaitTimeOption])))
  = Some {| Filter := Filter findCmd; ReadPref_ := tt; Session_ := Some tt;
            Opts := [mkElem "batchSize" (Int32 3);
                     mkElem "tailable" (Boolean true);
                     mkElem "awaitData" (Boolean true)];
            CursorOpts := [mkElem "batchSize" (Int32 3);
                           mkElem "maxTimeMS" (Int64 250)] |}.
Proof. vm_compute. reflexivity. Qed.


Lemma Find_ErrCollation_witness :
  fst (runFind (testEnv 4) findCmd [tailableAwaitOptions; collationOption])
  = Failed ErrCollation.
Proof.
  apply (Find_ErrCollation (testEnv 4) findCmd
           [tailableAwaitOptions; collationOption] tt tt tt
           [mkElem "locale" (String "en")] {| Min := 0; Max := 4 |});
    try reflexivity.
  intros _ _. exists tt. reflexivity.
Defined.

End dispatch.

(** ** core/session: the cluster clock *)
Module session.
Import bson.

(** A timestamp: two unsigned 32-bit words, compared by the first word and
    then by the second. *)
Definition timestamp : Type := (Z * Z)%type.

Definition timestampLt (a b : timestamp) : bool :=
  (fst a <? fst b) || ((fst a =? fst b) && (snd a <? snd b)).

Definition timestampLe (a b : timestamp) : Prop := timestampLt b a = false.

(** [LookupErr]: the value of the first element with the key. *)
Fixpoint Lookup (key : string) (d : Doc) : option Val :=
  match d with
  | [] => None
  | mkElem k v :: tl => if String.eqb k key then Some v else Lookup key tl
  end.

Section Clock.
(** The timestamp that a cluster time document carries. *)
Variable timestampOf : Doc -> timestamp.

(** Modelled from the spec: [MaxClusterTime], which is not among the sources.
    "Take the document with the greater [clusterTime.timestamp]"; the first
    document is kept when the timestamps are equal. *)
Definition MaxClusterTimeBy (ct1 ct2 : Doc) : Doc :=
  if timestampLt (timestampOf ct1) (timestampOf ct2) then ct2 else ct1.

(** [type ClusterClock struct { clusterTime bson.Doc; lock sync.Mutex }]; the
    lock is held for the whole of each method, which the state passing
    models. *)
Record ClusterClock : Type := { clusterTime : Doc }.

(** [func (cc *ClusterClock) GetClusterTime() bson.Doc] *)
Definition GetClusterTime (cc : ClusterClock) : Doc := clusterTime cc.

(** [func (cc *ClusterClock) AdvanceClusterTime(clusterTime bson.Doc)] *)
Definition AdvanceClusterTimeBy (cc : ClusterClock) (ct : Doc) : ClusterClock :=
  {| clusterTime := MaxClusterTimeBy (clusterTime cc) ct |}.

Lemma timestampLe_refl (a : timestamp) : timestampLe a a.
Proof.
  unfold timestampLe, timestampLt. rewrite !Z.ltb_irrefl, andb_false_r. reflexivity.
Qed.

Lemma timestampLt_cases (a b : timestamp) :
  timestampLt a b = true <-> fst a < fst b \/ (fst a = fst b /\ snd a < snd b).
Proof.
  unfold timestampLt. rewrite orb_true_iff, andb_true_iff, !Z.ltb_lt, Z.eqb_eq.
  reflexivity.
Qed.

Lemma timestampLe_cases (a b : timestamp) :
  timestampLe a b <-> fst a < fst b \/ (fst a = fst b /\ snd a <= snd b).
Proof.
  unfold timestampLe. rewrite <- not_true_iff_false, timestampLt_cases. lia.
Qed.

Lemma timestampLe_trans (a b c : timestamp) :
  timestampLe a b -> timestampLe b c -> timestampLe a c.
Proof. rewrite !timestampLe_cases. lia. Qed.

Lemma timestampLe_total (a b : timestamp) :
  timestampLt a b = true -> timestampLe a b.
Proof. rewrite timestampLe_cases, timestampLt_cases. lia. Qed.

(** One step keeps one of the two documents, and its timestamp bounds both. *)
Lemma MaxClusterTimeBy_spec (ct1 ct2 : Doc) :
  (MaxClusterTimeBy ct1 ct2 = ct1 \/ MaxClusterTimeBy ct1 ct2 = ct2) /\
  timestampLe (timestampOf ct1) (timestampOf (MaxClusterTimeBy ct1 ct2)) /\
  timestampLe (timestampOf ct2) (timestampOf (MaxClusterTimeBy ct1 ct2)).
Proof.
  unfold MaxClusterTimeBy.
  destruct (timestampLt (timestampOf ct1) (timestampOf ct2)) eqn:E.
  - split; [right; reflexivity |].
    split; [apply timestampLe_total; exact E | apply timestampLe_refl].
  - split; [left; reflexivity |].
    split; [apply timestampLe_refl | exact E].
Qed.

(** After any sequence of advances the clock holds one of the documents it
    was given or its initial one, and no such document has a greater
    timestamp. *)
Lemma advance_all (docs : list Doc) :
  forall cc : ClusterClock,
    let cc' := fold_left AdvanceClusterTimeBy docs cc in
    In (GetClusterTime cc') (GetClusterTime cc :: docs) /\
    forall d, In d (GetClusterTime cc :: docs) ->
      timestampLe (timestampOf d) (timestampOf (GetClusterTime cc')).
Proof.
  induction docs as [| ct tl IH]; intros cc; cbn [fold_left].
  - split; [left; reflexivity |].
    intros d [<- | []]. apply timestampLe_refl.
  - destruct (IH (AdvanceClusterTimeBy cc ct)) as [Hin Hmax]. cbv zeta.
    destruct (MaxClusterTimeBy_spec (clusterTime cc) ct) as (Hkeep & Hle1 & Hle2).
    unfold GetClusterTime in *. cbn [clusterTime AdvanceClusterTimeBy] in Hin, Hmax.
    split.
    + destruct Hin as [Hin | Hin]; [| right; right; exact Hin].
      rewrite <- Hin. destruct Hkeep as [-> | ->]; [left | right; left]; reflexivity.
    + intros d [<- | [<- | Hd]].
      * eapply timestampLe_trans; [exact Hle1 |]. apply Hmax. left. reflexivity.
      * eapply timestampLe_trans; [exact Hle2 |]. apply Hmax. left. reflexivity.
      * apply Hmax. right. exact Hd.
Qed.

End Clock.

(** Modelled from the spec: the timestamp of a cluster time document
    [{clusterTime: Timestamp(t, i)}] is that of its field [clusterTime]; a
    document without such a field, like the empty document of a new clock,
    counts as the timestamp (0, 0). *)
Definition clusterTimestamp (d : Doc) : timestamp :=
  match Lookup "clusterTime" d with
  | Some (Timestamp t i) => (t, i)
  | _ => (0, 0)
  end.

Definition MaxClusterTime : Doc -> Doc -> Doc := MaxClusterTimeBy clusterTimestamp.

Definition AdvanceClusterTime : ClusterClock -> Doc -> ClusterClock :=
  AdvanceClusterTimeBy clusterTimestamp.

(** The document [{clusterTime: Timestamp(t, i)}]. *)
Definition clusterTimeDoc (t i : Z) : Doc := [mkElem "clusterTime" (Timestamp t i)].

(** A new clock: [clusterTime] is nil. *)
Definition newClock : ClusterClock := {| clusterTime := [] |}.

(** C2.  After any sequence of [AdvanceClusterTime] the clock returns one of
    the documents it was given (or the initial one), and the timestamp of
    that document is the greatest among them; after advancing a new clock
    with Timestamp(5,0), Timestamp(3,0) and Timestamp(7,0) it returns the
    document with Timestamp(7,0). *)
Theorem AdvanceClusterTime_monotone :
  (forall (cc : ClusterClock) (docs : list Doc),
     let cc' := fold_left AdvanceClusterTime docs cc in
     In (GetClusterTime cc') (GetClusterTime cc :: docs) /\
     forall d, In d (GetClusterTime cc :: docs) ->
       timestampLe (clusterTimestamp d) (clusterTimestamp (GetClusterTime cc'))) /\
  GetClusterTime
    (fold_left AdvanceClusterTime
       [clusterTimeDoc 5 0; clusterTimeDoc 3 0; clusterTimeDoc 7 0] newClock)
  = clusterTimeDoc 7 0.
Proof.
  split; [| reflexivity].
  intros cc docs. apply (advance_all clusterTimestamp docs cc).
Qed.

Lemma AdvanceClusterTime_monotone_witness :
  timestampLe (clusterTimestamp (clusterTimeDoc 5 0))
    (clusterTimestamp
       (GetClusterTime
          (fold_left AdvanceClusterTime
             [clusterTimeDoc 5 0; clusterTimeDoc 3 0; clusterTimeDoc 7 0] newClock))).
Proof.
  destruct AdvanceClusterTime_monotone as [Hall _].
  destruct (Hall newClock [clusterTimeDoc 5 0; clusterTimeDoc 3 0; clusterTimeDoc 7 0])
    as [_ Hmax].
  apply Hmax. right. left. reflexivity.
Defined.

End session.

(** ** mongo/collection.go: writes with an unacknowledged write concern *)
Module collection.

Section Collection.
(** The values behind [interface{}] (documents, filters, inserted ids), and
    the types of the collaborators. *)
Context {Iface SelectedServer Namespace WriteConcern Options DeleteResult : Type}.

(** [type InsertOneResult struct { InsertedID interface{} }] *)
Record InsertOneResult : Type := { InsertedID : Iface }.

(** An element of a [bson.D]: a name and a value, here a filter or an
    integer. *)
Inductive DValue : Type :=
| DInterface (v : Iface)
| DInt (n : Z).

(** A call of [ops.Insert] or [ops.Delete], with its arguments. *)
Inductive Op : Type :=
| OpInsert (s : SelectedServer) (ns : Namespace) (wc : WriteConcern)
    (docs : list Iface) (options : Options)
| OpDelete (s : SelectedServer) (ns : Namespace) (wc : WriteConcern)
    (deleteDocs : list (list (string * DValue))) (options : Options).

(** [type Collection struct]: the fields that the writes read. *)
Record Collection : Type := {
  namespace : Namespace;
  writeConcern : WriteConcern;
}.

(** The functions that the writes call, with Go's pairs of a value and an
    error: [ops.Insert] returns the error of the round trip, [ops.Delete]
    also fills the result it is given. *)
Record Env : Type := {
  getOrInsertID : Iface -> Iface * Iface * option error;
  getWriteableServer : Collection -> SelectedServer * option error;
  Acknowledged : WriteConcern -> bool;
  opsInsert : Op -> option error;
  opsDelete : Op -> DeleteResult * option error;
}.

(** What a call of a write method does: the values it returns, the round
    trips it runs itself and waits for ([called]), and those it starts in a
    goroutine whose error is dropped ([spawned]). *)
Record Ran (R : Type) : Type := {
  returned : option R;
  err : option error;
  called : list Op;
  spawned : list Op;
}.
Arguments returned {R} r.
Arguments err {R} r.
Arguments called {R} r.
Arguments spawned {R} r.

Variable env : Env.

(** [func (coll *Collection) InsertOne(ctx, document, options...)], which
    returns a pointer to an [InsertOneResult] and an error. *)
Definition InsertOne (coll : Collection) (document : Iface) (options : Options)
  : Ran InsertOneResult :=
  let '(doc, insertedID, e) := getOrInsertID env document in
  match e with
  | Some e => {| returned := None; err := Some e; called := []; spawned := [] |}
  | None =>
      let '(s, e) := getWriteableServer env coll in
      match e with
      | Some e => {| returned := None; err := Some e; called := []; spawned := [] |}
      | None =>
          let insert :=
            OpInsert s (namespace coll) (writeConcern coll) [doc] options in
          if negb (Acknowledged env (writeConcern coll)) then
            {| returned := None; err := None; called := []; spawned := [insert] |}
          else
            match opsInsert env insert with
            | Some e =>
                {| returned := None; err := Some e; called := [insert]; spawned := [] |}
            | None =>
                {| returned := Some {| InsertedID := insertedID |}; err := None;
                   called := [insert]; spawned := [] |}
            end
      end
  end.

(** [func (coll *Collection) DeleteOne(ctx, filter, options...)], which
    returns a pointer to a [DeleteResult] and an error. *)
Definition DeleteOne (coll : Collection) (filter : Iface) (options : Options)
  : Ran DeleteResult :=
  let deleteDocs := [[("q", DInterface filter); ("limit", DInt 1)]] in
  let '(s, e) := getWriteableServer env coll in
  match e with
  | Some e => {| returned := None; err := Some e; called := []; spawned := [] |}
  | None =>
      let doDelete :=
        OpDelete s (namespace coll) (writeConcern coll) deleteDocs options in
      if negb (Acknowledged env (writeConcern coll)) then
        {| returned := None; err := None; called := []; spawned := [doDelete] |}
      else
        let '(result, e) := opsDelete env doDelete in
        match e with
        | Some e =>
            {| returned := None; err := Some e; called := [doDelete]; spawned := [] |}
        | None =>
            {| returned := Some result; err := None; called := [doDelete];
               spawned := [] |}
        end
  end.

End Collection.

Arguments Env Iface SelectedServer Namespace WriteConcern Options DeleteResult
  : clear implicits.
Arguments returned {Iface SelectedServer Namespace WriteConcern Options R} r.
Arguments err {Iface SelectedServer Namespace WriteConcern Options R} r.
Arguments called {Iface SelectedServer Namespace WriteConcern Options R} r.
Arguments spawned {Iface SelectedServer Namespace WriteConcern Options R} r.

Section Unacknowledged.
Context {Iface SelectedServer Namespace WriteConcern Options DeleteResult : Type}.

(** The environment with other round trips: what [ops.Insert] and
    [ops.Delete] return stands for what the server replies. *)
Definition withRoundTrips
  (env : Env Iface SelectedServer Namespace WriteConcern Options DeleteResult)
  (insert : Op -> option error) (delete : Op -> DeleteResult * option error)
  : Env Iface SelectedServer Namespace WriteConcern Options DeleteResult :=
  {| getOrInsertID := getOrInsertID env;
     getWriteableServer := getWriteableServer env;
     Acknowledged := Acknowledged env;
     opsInsert := insert;
     opsDelete := delete |}.

Variable env : Env Iface SelectedServer Namespace WriteConcern Options DeleteResult.

(** C5.  With an unacknowledged write concern, [InsertOne] and [DeleteOne]
    run no round trip themselves, so they read no reply; they return a nil
    error (and a nil result) once the document is prepared and the server
    selected, the round trip being left to a goroutine; the only errors they
    return are those of these two local steps; and what they return does not
    depend on what the round trips give. *)
Theorem unacknowledged_writes (coll : Collection) (v : Iface) (options : Options) :
  Acknowledged env (writeConcern coll) = false ->
  (called (InsertOne env coll v options) = [] /\
   called (DeleteOne env coll v options) = []) /\
  (snd (getOrInsertID env v) = None ->
   snd (getWriteableServer env coll) = None ->
   err (InsertOne env coll v options) = None /\
   returned (InsertOne env coll v options) = None /\
   length (spawned (InsertOne env coll v options)) = 1%nat) /\
  (snd (getWriteableServer env coll) = None ->
   err (DeleteOne env coll v options) = None /\
   returned (DeleteOne env coll v options) = None /\
   length (spawned (DeleteOne env coll v options)) = 1%nat) /\
  (forall e, err (InsertOne env coll v options) = Some e ->
     snd (getOrInsertID env v) = Some e \/
     snd (getWriteableServer env coll) = Some e) /\
  (forall e, err (DeleteOne env coll v options) = Some e ->
     snd (getWriteableServer env coll) = Some e) /\
  (forall insert delete,
     InsertOne (withRoundTrips env insert delete) coll v options
     = InsertOne env coll v options /\
     DeleteOne (withRoundTrips env insert delete) coll v options
     = DeleteOne env coll v options).
Proof.
  intros Hunack. unfold InsertOne, DeleteOne, withRoundTrips.
  cbn [getOrInsertID getWriteableServer Acknowledged opsInsert opsDelete].
  rewrite Hunack. cbn [negb].
  destruct (getOrInsertID env v) as [[doc insertedID] [e1 |]];
    destruct (getWriteableServer env coll) as [s [e2 |]]; cbn;
    repeat split; try reflexivity; try discriminate; intros; try congruence;
    auto.
Qed.

End Unacknowledged.

(** A deployment for running the writes: documents are numbers, the write
    concern is the number [w], acknowledged unless [w] is 0, and every round
    trip fails with a server error. *)
Definition failingEnv : Env nat unit string Z unit nat :=
  {| getOrInsertID := fun document => (document, 1%nat, None);
     getWriteableServer := fun _ => (tt, None);
     Acknowledged := fun w => negb (w =? 0);
     opsInsert := fun _ => Some (ErrOther "duplicate key");
     opsDelete := fun _ => (0%nat, Some (ErrOther "not master")) |}.

Example InsertOne_acknowledged_fails :
  err (InsertOne failingEnv {| namespace := "db.c"; writeConcern := 1 |} 7%nat tt)
  = Some (ErrOther "duplicate key").
Proof. reflexivity. Qed.

Lemma unacknowledged_writes_witness :
  err (InsertOne failingEnv {| namespace := "db.c"; writeConcern := 0 |} 7%nat tt)
  = None /\
  err (DeleteOne failingEnv {| namespace := "db.c"; writeConcern := 0 |} 7%nat tt)
  = None.
Proof.
  pose proof (unacknowledged_writes failingEnv
                {| namespace := "db.c"; writeConcern := 0 |} 7%nat tt eq_refl)
    as (_ & Hinsert & Hdelete & _).
  split; [apply Hinsert | apply Hdelete]; reflexivity.
Defined.

End collection.

(** ** The OP_MSG form of the write commands *)
Module wiremessage.
Import bson.

(** An encoded document ([bson.Raw]). *)
Definition Raw : Type := list byte.




Record Namespace : Type := { DB : string; Collection : string }.
















End wiremessage.

(** ** The cursor of a tailable-await query *)
Module cursor.
Import bson.

(** The cursor [{id, batch, batchPos, ...}], with the document that [Next]
    made current and the error that [Err] returns. *)
Record Cursor : Type := {
  id : Z;
  batch : list Doc;
  batchPos : nat;
  current : option Doc;
  err : option error;
}.

(** The reply to a getMore: [{cursor: {id, nextBatch}}]. *)
Record Reply : Type := { replyID : Z; nextBatch : list Doc }.

Section Next.
(** The reply of the server to the n-th getMore of the cursor, and whether
    the context of the caller is cancelled when the n-th getMore is due. *)
Variable server : nat -> Reply.
Variable ctxDone : nat -> bool.

(** Modelled from the spec: [Next] of the cursor (core/topology's cursor is
    not among the sources).  "[Next] returns documents from the current
    batch; when the batch is empty and [id ≠ 0], it issues [getMore]; if
    [id == 0] and batch drained, it yields end-of-iteration"; for a
    tailable-await cursor "when the server returns an empty batch with
    [id ≠ 0] ... client retries until the caller's context is cancelled".
    [n] counts the getMores issued so far; [fuel] bounds the getMores of this
    call, and [None] is a call that is still waiting when the bound is
    reached. *)
Fixpoint Next (fuel : nat) (n : nat) (c : Cursor) : option (bool * Cursor * nat) :=
  match nth_error (batch c) (batchPos c) with
  | Some d =>
      Some (true,
            {| id := id c; batch := batch c; batchPos := S (batchPos c);
               current := Some d; err := None |}, n)
  | None =>
      if id c =? 0 then Some (false, c, n)
      else if ctxDone n then
        Some (false,
              {| id := id c; batch := batch c; batchPos := batchPos c;
                 current := current c; err := Some ErrCancelled |}, n)
      else
        match fuel with
        | O => None
        | S fuel' =>
            let r := server n in
            Next fuel' (S n)
              {| id := replyID r; batch := nextBatch r; batchPos := 0;
                 current := current c; err := err c |}
        end
  end.

(** The batch of the cursor is drained. *)
Definition drained (c : Cursor) : Prop := nth_error (batch c) (batchPos c) = None.

(** The replies to the getMores [n], ..., [n + k - 1] are empty batches of a
    live cursor, and the context is not cancelled before any of the getMores
    [n], ..., [n + k]. *)
Definition waits (n k : nat) : Prop :=
  (forall j, (n <= j < n + k)%nat ->
     nextBatch (server j) = [] /\ replyID (server j) <> 0) /\
  (forall j, (n <= j <= n + k)%nat -> ctxDone j = false).

Lemma waits_succ (n k : nat) : waits n (S k) -> waits (S n) k.
Proof.
  intros [Hempty Hctx]. split; intros j Hj; [apply Hempty | apply Hctx]; lia.
Qed.

(** C6.  A call of [Next] on a drained cursor with [id ≠ 0], while the server
    answers [k] getMores with empty batches and a non-zero id, and then one
    with a batch that starts with the document [d], the context not being
    cancelled: with room for more than [k] getMores the call returns true
    after [k + 1] getMores and the current document is [d]; with room for at
    most [k] it is still waiting, and has not reported the end of the
    iteration. *)
Theorem Next_waits_for_document (k : nat) :
  forall (n : nat) (c : Cursor) (d : Doc) (more : list Doc),
    drained c -> id c <> 0 ->
    waits n k ->
    nextBatch (server (n + k)) = d :: more ->
    (forall fuel, (k < fuel)%nat ->
       exists c',
         Next fuel n c = Some (true, c', S (n + k)) /\
         current c' = Some d /\ err c' = None /\
         id c' = replyID (server (n + k))) /\
    (forall fuel, (fuel <= k)%nat -> Next fuel n c = None).
Proof.
  induction k as [| k IH]; intros n c d more Hdrained Hid Hwaits Hbatch.
  - destruct Hwaits as [_ Hctx]. rewrite Nat.add_0_r in *.
    assert (Hn : ctxDone n = false) by (apply Hctx; lia).
    apply Z.eqb_neq in Hid. split.
    + intros [| fuel] Hfuel; [lia |]. unfold drained in Hdrained.
      cbn [Next]. rewrite Hdrained, Hid, Hn. cbn zeta.
      destruct fuel; cbn [Next id batch batchPos current err];
        rewrite Hbatch; cbn [nth_error]; eexists; repeat split.
    + intros fuel Hfuel. assert (fuel = 0%nat) as -> by lia.
      unfold drained in Hdrained. cbn [Next]. rewrite Hdrained, Hid, Hn.
      reflexivity.
  - assert (Hn : ctxDone n = false) by (apply Hwaits; lia).
    assert (Hreply : nextBatch (server n) = [] /\ replyID (server n) <> 0)
      by (apply Hwaits; lia).
    destruct Hreply as [Hempty Hlive].
    set (c1 := {| id := replyID (server n); batch := nextBatch (server n);
                  batchPos := 0; current := current c; err := err c |}).
    assert (Hdrained1 : drained c1) by (unfold drained, c1; cbn; rewrite Hempty; reflexivity).
    replace (n + S k)%nat with (S n + k)%nat in * by lia.
    destruct (IH (S n) c1 d more Hdrained1 Hlive (waits_succ n k Hwaits) Hbatch)
      as [Hgot Hwait].
    apply Z.eqb_neq in Hid. unfold drained in Hdrained. split.
    + intros [| fuel] Hfuel; [lia |].
      cbn [Next]. rewrite Hdrained, Hid, Hn. cbn zeta. fold c1.
      apply Hgot. lia.
    + intros [| fuel] Hfuel; cbn [Next]; rewrite Hdrained, Hid, Hn;
        [reflexivity |].
      cbn zeta. fold c1. apply Hwait. lia.
Qed.

(** While the context is not cancelled and the server keeps answering with
    empty batches of a live cursor, [Next] does not return. *)
Lemma Next_keeps_waiting (fuel : nat) :
  forall (n : nat) (c : Cursor),
    drained c -> id c <> 0 ->
    (forall j, (n <= j)%nat ->
       nextBatch (server j) = [] /\ replyID (server j) <> 0 /\ ctxDone j = false) ->
    Next fuel n c = None.
Proof.
  induction fuel as [| fuel IH]; intros n c Hdrained Hid Hserver;
    destruct (Hserver n (Nat.le_refl n)) as (Hempty & Hlive & Hctx);
    apply Z.eqb_neq in Hid; unfold drained in Hdrained;
    cbn [Next]; rewrite Hdrained, Hid, Hctx; [reflexivity |].
  cbn zeta. apply IH.
  - unfold drained. cbn. rewrite Hempty. reflexivity.
  - exact Hlive.
  - intros j Hj. apply Hserver. lia.
Qed.

(** When the context is cancelled, a waiting [Next] returns false with the
    error of the cancellation, and issues no getMore. *)
Lemma Next_cancelled (fuel n : nat) (c : Cursor) :
  drained c -> id c <> 0 -> ctxDone n = true ->
  exists c',
    Next fuel n c = Some (false, c', n) /\ err c' = Some ErrCancelled.
Proof.
  intros Hdrained Hid Hctx. apply Z.eqb_neq in Hid. unfold drained in Hdrained.
  destruct fuel; cbn [Next]; rewrite Hdrained, Hid, Hctx; eexists;
    split; reflexivity.
Qed.

End Next.

(** The scenario of [TestTailableCursorLoopsUntilDocsAvailable]: the cursor
    has returned its first document; the server answers two getMores with
    empty batches and the third with the document inserted meanwhile. *)
Definition firstDoc : Doc := [mkElem "_id" (Int32 1); mkElem "ts" (Timestamp 5 0)].
Definition secondDoc : Doc := [mkElem "_id" (Int32 2); mkElem "ts" (Timestamp 6 0)].

Definition tailServer (n : nat) : Reply :=
  match n with
  | 0%nat | 1%nat => {| replyID := 42; nextBatch := [] |}
  | _ => {| replyID := 42; nextBatch := [secondDoc] |}
  end.

Definition afterFirst : Cursor :=
  {| id := 42; batch := [firstDoc]; batchPos := 1; current := Some firstDoc;
     err := None |}.

Lemma Next_waits_for_document_witness :
  exists c',
    Next tailServer (fun _ => false) 5 0 afterFirst = Some (true, c', 3%nat) /\
    current c' = Some secondDoc.
Proof.
  destruct (Next_waits_for_document tailServer (fun _ => false) 2 0 afterFirst
              secondDoc []) as [Hgot _].
  - reflexivity.
  - discriminate.
  - split.
    + intros j Hj. assert (j = 0 \/ j = 1)%nat as [-> | ->] by lia;
        split; [reflexivity | discriminate | reflexivity | discriminate].
    + reflexivity.
  - reflexivity.
  - destruct (Hgot 5%nat) as (c' & Hnext & Hcurrent & _); [lia |].
    exists c'. split; [exact Hnext | exact Hcurrent].
Defined.

End cursor.

(** ** mongo/insertopt/insertopt.go: more on the bundles of [One] options *)
Module bundle_props.
Import insertopt.

Lemma append_assoc (s1 s2 s3 : string) :
  ((s1 ++ s2) ++ s3 = s1 ++ (s2 ++ s3))%string.
Proof.
  induction s1 as [| c s1 IH]; [reflexivity |].
  change (String.String c ((s1 ++ s2) ++ s3) = String.String c (s1 ++ (s2 ++ s3)))%string.
  rewrite IH. reflexivity.
Qed.

Lemma append_empty_r (s : string) : (s ++ EmptyString)%string = s.
Proof.
  induction s as [| c s IH]; [reflexivity |].
  change (String.String c (s ++ EmptyString)%string = String.String c s).
  rewrite IH. reflexivity.
Qed.

(** The line feed that ends every line of [String]. *)
Definition newline : string := String.String (ascii_of_nat 10) EmptyString.

Section OneBundles.
Context {WriteConcern : Type}.

Notation OneBundle := (insertopt.OneBundle WriteConcern).
Notation One := (insertopt.One WriteConcern).
Notation InsertOptioner := (insertopt.InsertOptioner WriteConcern).
Notation slot := (@insertopt.slot WriteConcern).

(** [String()] of a converted option, a method of core/option. *)
Variable optionString : InsertOptioner -> string.

(** The loop of [String]: it runs from the head of the chain while
    [head != nil && head.option != nil] and appends to [str]. *)
Fixpoint stringLoop (head : OneBundle) (str : string) {struct head}
  : outcome string :=
  match head with
  | nilOneBundle => Returned str
  | mkOneBundle OneNil _ => Returned str
  | mkOneBundle (OneNested converted) next =>
      obind (stringLoop converted EmptyString)
        (fun nested => stringLoop next (str ++ nested)%string)
  | mkOneBundle o next =>
      obind (ConvertOneOption o)
        (fun c =>
           match c with
           | None => Panicked
           | Some opt => stringLoop next (str ++ (optionString opt ++ newline))%string
           end)
  end.

(** [func (ob *OneBundle) String() string]. *)
Definition String (ob : OneBundle) : outcome string :=
  match ob with
  | nilOneBundle => Returned EmptyString
  | _ => stringLoop ob EmptyString
  end.

(** The lines of a list of options, each ended by a newline. *)
Fixpoint lines (options : list InsertOptioner) : string :=
  match options with
  | [] => EmptyString
  | opt :: tl => ((optionString opt ++ newline) ++ lines tl)%string
  end.

Lemma lines_app (l1 l2 : list InsertOptioner) :
  lines (l1 ++ l2) = (lines l1 ++ lines l2)%string.
Proof.
  induction l1 as [| opt tl IH]; cbn [lines app]; [reflexivity |].
  rewrite IH. symmetry. apply append_assoc.
Qed.

Lemma stringLoop_lines (ob : OneBundle) :
  forall str, stringLoop ob str = Returned (str ++ lines (rev (collected ob)))%string.
Proof.
  induction ob as [| next IH | b next IH | wc next IH | converted next IHc IHn]
    using OneBundle_nested_ind; intros str;
    cbn [stringLoop collected ConvertOneOption obind rev lines];
    rewrite ?append_empty_r; try reflexivity.
  - rewrite IH, rev_app_distr, append_assoc. reflexivity.
  - rewrite IH, rev_app_distr, append_assoc. reflexivity.
  - rewrite IHc. cbn [obind]. rewrite IHn, rev_app_distr, lines_app, append_assoc.
    reflexivity.
Qed.

(** The types of the options that a bundle of [One] options can hold. *)
Definition oneType (x : slot) : Prop :=
  TypeOf x = Some TOptBypassDocumentValidation \/ TypeOf x = Some TOptWriteConcern.

Lemma collected_oneType (ob : OneBundle) :
  Forall oneType (map Some (collected ob)).
Proof.
  induction ob as [| next IH | b next IH | wc next IH | converted next IHc IHn]
    using OneBundle_nested_ind; cbn [collected]; rewrite ?map_app.
  - constructor.
  - constructor.
  - apply Forall_app. split; [exact IH |].
    constructor; [left; reflexivity | constructor].
  - apply Forall_app. split; [exact IH |].
    constructor; [right; reflexivity | constructor].
  - apply Forall_app. split; assumption.
Qed.

Lemma length_by_type (l : list slot) :
  Forall oneType l ->
  length l
  = (length (filter (fun x => TypeOf x = Some TOptBypassDocumentValidation) l)
     + length (filter (fun x => TypeOf x = Some TOptWriteConcern) l))%nat.
Proof.
  induction 1 as [| x l [Hx | Hx] Hl IH]; [reflexivity | |].
  - rewrite (filter_cons_True _ x l) by exact Hx.
    rewrite (filter_cons_False _ x l) by (rewrite Hx; discriminate).
    cbn [length]. lia.
  - rewrite (filter_cons_False _ x l) by (rewrite Hx; discriminate).
    rewrite (filter_cons_True _ x l) by exact Hx.
    cbn [length]. lia.
Qed.

Lemma keepLast_snoc (l : list slot) (x : slot) :
  keepLast (l ++ [x]) = filter (fun y => TypeOf y <> TypeOf x) (keepLast l) ++ [x].
Proof.
  induction l as [| y l IH]; cbn [app keepLast].
  - destruct (decide _) as [Hin | _]; [| reflexivity].
    cbn in Hin. apply elem_of_nil in Hin. contradiction.
  - rewrite IH, fmap_app.
    destruct (decide (TypeOf y ∈ (TypeOf <$> l) ++ (TypeOf <$> [x]))) as [H1 | H1];
      destruct (decide (TypeOf y ∈ TypeOf <$> l)) as [H2 | H2]; try reflexivity.
    + apply elem_of_app in H1 as [H1 | H1]; [contradiction |].
      apply list_elem_of_singleton in H1.
      rewrite filter_cons_False by (intros Hne; apply Hne; exact H1). reflexivity.
    + exfalso. apply H1. apply elem_of_app. left. exact H2.
    + rewrite filter_cons_True; [reflexivity |].
      intros Heq. apply H1. apply elem_of_app. right.
      apply list_elem_of_singleton. exact Heq.
Qed.

Lemma collected_BundleOne_after_nil (after : list One) :
  forall rest1 rest2 : OneBundle,
    collected (fold_left (fun head opt => mkOneBundle opt head) after
                 (mkOneBundle OneNil rest1))
    = collected (fold_left (fun head opt => mkOneBundle opt head) after
                   (mkOneBundle OneNil rest2)).
Proof.
  induction after as [| o after IH] using rev_ind; intros rest1 rest2;
    [reflexivity |].
  rewrite !fold_left_app. cbn [fold_left].
  destruct o as [| b | wc | converted]; cbn [collected];
    rewrite ?(IH rest1 rest2); reflexivity.
Qed.

(** X1.  [Unbundle] returns for every bundle, nil options and nested nil
    bundles included: no slice index leaves its range and the error is nil.
    Without deduplication the slice has [bundleLength] options, with
    deduplication at most as many; no option returned is nil. *)
Theorem Unbundle_returns (ob : OneBundle) (deduplicate : bool) :
  exists options,
    Unbundle ob deduplicate = Returned (options, None) /\
    (if deduplicate then (length options <= bundleLength ob)%nat
     else length options = bundleLength ob) /\
    Forall (fun x => x <> None) options.
Proof.
  assert (Hsome : Forall (fun x : slot => x <> None) (map Some (collected ob)))
    by (apply Forall_forall; intros x Hx; apply list_elem_of_In, in_map_iff in Hx
          as [opt [<- _]]; discriminate).
  destruct deduplicate.
  - exists (keepLast (map Some (collected ob))). rewrite Unbundle_dedup.
    split; [reflexivity |]. split.
    + rewrite bundleLength_collected, <- (length_map Some (collected ob)).
      apply sublist_length, keepLast_sublist.
    + apply Forall_forall. intros x Hx.
      eapply Forall_forall in Hsome; [exact Hsome |].
      eapply sublist_subseteq; [apply keepLast_sublist | exact Hx].
  - exists (map Some (collected ob)). rewrite Unbundle_flat.
    split; [reflexivity |].
    rewrite bundleLength_collected, length_map. auto.
Qed.

(** X2.  For every bundle, [Unbundle(true)] returns a subsequence of what
    [Unbundle(false)] returns that keeps, of the options of each type, exactly
    the last one; a bundle of [One] options holds two types of option, so at
    most two options are returned. *)
Theorem Unbundle_true_last_of_each_type (ob : OneBundle) :
  exists flat kept,
    Unbundle ob false = Returned (flat, None) /\
    Unbundle ob true = Returned (kept, None) /\
    sublist kept flat /\
    (forall ty,
       filter (fun x => TypeOf x = ty) kept
       = option_list (last (filter (fun x => TypeOf x = ty) flat))) /\
    (length kept <= 2)%nat.
Proof.
  exists (map Some (collected ob)), (keepLast (map Some (collected ob))).
  split; [apply Unbundle_flat |]. split; [apply Unbundle_dedup |].
  split; [apply keepLast_sublist |]. split; [intros ty; apply keepLast_last |].
  rewrite length_by_type.
  - rewrite !keepLast_last.
    do 2 destruct (last _); cbn; lia.
  - apply Forall_forall. intros x Hx.
    pose proof (collected_oneType ob) as Hall.
    eapply Forall_forall in Hall; [exact Hall |].
    eapply sublist_subseteq; [apply keepLast_sublist | exact Hx].
Qed.

(** X3.  The methods [BypassDocumentValidation] and [WriteConcern] of a
    bundle add their option at the end of what [Unbundle(false)] returns, and
    with deduplication the new option replaces every earlier option of its
    type: it is the last option returned, after the deduplicated options of
    the other types. *)
Theorem Unbundle_after_method (ob : OneBundle) (b : bool) (wc : WriteConcern) :
  exists flat kept,
    Unbundle ob false = Returned (flat, None) /\
    Unbundle ob true = Returned (kept, None) /\
    Unbundle (BypassDocumentValidation ob b) false
    = Returned (flat ++ [Some (OptBypassDocumentValidation b)], None) /\
    Unbundle (WithWriteConcern ob wc) false
    = Returned (flat ++ [Some (OptWriteConcern wc)], None) /\
    Unbundle (BypassDocumentValidation ob b) true
    = Returned
        (filter (fun y => TypeOf y <> Some TOptBypassDocumentValidation) kept
         ++ [Some (OptBypassDocumentValidation b)], None) /\
    Unbundle (WithWriteConcern ob wc) true
    = Returned
        (filter (fun y => TypeOf y <> Some TOptWriteConcern) kept
         ++ [Some (OptWriteConcern wc)], None).
Proof.
  exists (map Some (collected ob)), (keepLast (map Some (collected ob))).
  rewrite !Unbundle_flat, !Unbundle_dedup.
  unfold BypassDocumentValidation, WithWriteConcern. cbn [collected].
  rewrite !map_app. cbn [map]. rewrite !keepLast_snoc. cbn [TypeOf].
  repeat split; reflexivity.
Qed.

(** X4.  [String] returns for every bundle, and lists the options that
    [Unbundle(false)] returns, one per line, in the reverse order: the option
    added last comes first. *)
Theorem String_reverse_of_Unbundle (ob : OneBundle) :
  String ob = Returned (lines (rev (collected ob))) /\
  Unbundle ob false = Returned (map Some (collected ob), None).
Proof.
  split; [| apply Unbundle_flat].
  transitivity (stringLoop ob EmptyString); [destruct ob; reflexivity |].
  apply (stringLoop_lines ob EmptyString).
Qed.

(** X5.  Every option that is passed to [BundleOne] before a nil option is
    ignored by [Unbundle]: the bundle gives what the bundle of the options
    after the nil option gives. *)
Theorem Unbundle_ignores_before_nil (before after : list One) (deduplicate : bool) :
  Unbundle (BundleOne (before ++ OneNil :: after)) deduplicate
  = Unbundle (BundleOne after) deduplicate.
Proof.
  assert (Hcollected :
    collected (BundleOne (before ++ OneNil :: after)) = collected (BundleOne after)).
  { unfold BundleOne, oneBundle. rewrite fold_left_app. cbn [fold_left].
    apply collected_BundleOne_after_nil. }
  destruct deduplicate.
  - rewrite !Unbundle_dedup, Hcollected. reflexivity.
  - rewrite !Unbundle_flat, Hcollected. reflexivity.
Qed.

(** An option that is neither nil nor a bundle, and what it converts to. *)
Definition isOption (o : One) : Prop :=
  match o with
  | OneBypassDocumentValidation _ | OneWriteConcern _ => True
  | OneNil | OneNested _ => False
  end.

Definition converted (o : One) : slot :=
  match ConvertOneOption o with
  | Returned x => x
  | Panicked => None
  end.

Lemma collected_BundleOne_options (opts : list One) :
  Forall isOption opts ->
  forall head : OneBundle,
    map Some (collected (fold_left (fun head opt => mkOneBundle opt head) opts head))
    = map Some (collected head) ++ map converted opts.
Proof.
  induction 1 as [| o opts Ho Hopts IH]; intros head; cbn [fold_left map].
  - rewrite app_nil_r. reflexivity.
  - rewrite IH. destruct o as [| b | wc | nested]; try contradiction;
      cbn [collected]; rewrite map_app, <- app_assoc; reflexivity.
Qed.

(** X6.  [BundleOne] keeps the order of its arguments and expands a nested
    bundle in place: when the options before and after a nested bundle are
    neither nil nor bundles, [Unbundle(false)] returns what the options
    before it convert to, then what the nested bundle unbundles to, then what
    the options after it convert to. *)
Theorem BundleOne_Unbundle_in_place (before after : list One) (ob : OneBundle) :
  Forall isOption before -> Forall isOption after ->
  exists inner,
    Unbundle ob false = Returned (inner, None) /\
    Unbundle (BundleOne (before ++ OneNested ob :: after)) false
    = Returned (map converted before ++ inner ++ map converted after, None).
Proof.
  intros Hbefore Hafter.
  exists (map Some (collected ob)). rewrite !Unbundle_flat.
  split; [reflexivity |]. do 2 f_equal.
  unfold BundleOne. rewrite fold_left_app. cbn [fold_left].
  rewrite (collected_BundleOne_options after Hafter). cbn [collected].
  rewrite map_app, (collected_BundleOne_options before Hbefore).
  change (collected oneBundle) with (@nil InsertOptioner). cbn [map app].
  rewrite <- app_assoc. reflexivity.
Qed.

End OneBundles.

(** The bundle [nestedBundle1] of the tests: two options, then a bundle of
    one option. *)
Lemma BundleOne_Unbundle_in_place_witness :
  exists inner,
    Unbundle (BundleOne [OneBypassDocumentValidation false]) false
    = Returned (inner, None) /\
    Unbundle nestedBundle1 false
    = Returned ([Some (OptBypassDocumentValidation true);
                 Some (OptBypassDocumentValidation true)] ++ inner ++ [], None).
Proof.
  apply (BundleOne_Unbundle_in_place (WriteConcern := unit)
           [OneBypassDocumentValidation true; OneBypassDocumentValidation true] []
           (BundleOne [OneBypassDocumentValidation false])).
  - repeat constructor.
  - constructor.
Defined.

End bundle_props.

(** ** mongo/insertopt/insertopt.go: [ManyBundle], the bundle of [Many] options *)
Module insertopt_many.
Import insertopt.

Section Bundles.
Context {WriteConcern : Type}.

Notation InsertOptioner := (insertopt.InsertOptioner WriteConcern).
Notation slot := (@insertopt.slot WriteConcern).

(** [type ManyBundle struct { option Many; next *ManyBundle }] and the values
    of the interface [Many]: nil, the three option types
    [OptBypassDocumentValidation], [OptOrdered] and [OptWriteConcern], each of
    which converts to the option of [core/option] of its name, and a nested
    bundle.  [nilManyBundle] is the nil pointer. *)
Inductive ManyBundle : Type :=
| nilManyBundle
| mkManyBundle (option_ : Many) (next : ManyBundle)
with Many : Type :=
| ManyNil
| ManyOption (opt : InsertOptioner)
| ManyNested (mb : ManyBundle).

(** [var manyBundle = new(ManyBundle)] *)
Definition manyBundle : ManyBundle := mkManyBundle ManyNil nilManyBundle.

(** [func BundleMany(opts ...Many) *ManyBundle] *)
Definition BundleMany (opts : list Many) : ManyBundle :=
  fold_left (fun head opt => mkManyBundle opt head) opts manyBundle.

(** [func (mb *ManyBundle) BypassDocumentValidation(b bool) *ManyBundle] *)
Definition BypassDocumentValidation (mb : ManyBundle) (b : bool) : ManyBundle :=
  mkManyBundle (ManyOption (OptBypassDocumentValidation b)) mb.

(** [func (mb *ManyBundle) Ordered(b bool) *ManyBundle] *)
Definition Ordered (mb : ManyBundle) (b : bool) : ManyBundle :=
  mkManyBundle (ManyOption (OptOrdered b)) mb.

(** [func (mb *ManyBundle) WriteConcern(wc) *ManyBundle] *)
Definition WithWriteConcern (mb : ManyBundle) (wc : WriteConcern) : ManyBundle :=
  mkManyBundle (ManyOption (OptWriteConcern wc)) mb.

(** [ConvertManyOption]: a bundle converts to nil; calling the method on a nil
    interface panics. *)
Definition ConvertManyOption (o : Many) : outcome slot :=
  match o with
  | ManyNil => Panicked
  | ManyOption opt => Returned (Some opt)
  | ManyNested _ => Returned None
  end.

(** [func (mb *ManyBundle) bundleLength() int] *)
Fixpoint bundleLength (mb : ManyBundle) : nat :=
  match mb with
  | nilManyBundle => 0
  | mkManyBundle ManyNil _ => 0
  | mkManyBundle (ManyNested converted) next =>
      bundleLength converted + bundleLength next
  | mkManyBundle _ next => 1 + bundleLength next
  end.

(** The loop of [unbundle], from [listHead] on; the call of [unbundle] on a
    nested bundle is written out (nil check, [make], loop). *)
Fixpoint unbundleLoop (listHead : ManyBundle) (options : list slot) (index : Z)
  {struct listHead} : outcome (list slot) :=
  match listHead with
  | nilManyBundle => Returned options
  | mkManyBundle ManyNil _ => Returned options
  | mkManyBundle (ManyNested converted) next =>
      obind
        match converted with
        | nilManyBundle => Returned []
        | mkManyBundle _ _ =>
            let listLen := bundleLength converted in
            unbundleLoop converted (replicate listLen None) (Z.of_nat listLen - 1)
        end
        (fun nestedOptions =>
           let startIndex := index - Z.of_nat (length nestedOptions) + 1 in
           obind (storeAll options startIndex nestedOptions)
             (fun options' =>
                unbundleLoop next options' (index - Z.of_nat (length nestedOptions))))
  | mkManyBundle o next =>
      obind (ConvertManyOption o)
        (fun c =>
           obind (store options index c)
             (fun options' => unbundleLoop next options' (index - 1)))
  end.

(** [func (mb *ManyBundle) unbundle() ([]option.InsertOptioner, error)] *)
Definition unbundle (mb : ManyBundle) : outcome (list slot * option error) :=
  match mb with
  | nilManyBundle => Returned ([], None)
  | mkManyBundle _ _ =>
      let listLen := bundleLength mb in
      obind (unbundleLoop mb (replicate listLen None) (Z.of_nat listLen - 1))
        (fun options => Returned (options, None))
  end.

(** [func (mb *ManyBundle) Unbundle(deduplicate bool)
    ([]option.InsertOptioner, error)]; its deduplicating loop is the one of
    [OneBundle.Unbundle]. *)
Definition Unbundle (mb : ManyBundle) (deduplicate : bool)
  : outcome (list slot * option error) :=
  obind (unbundle mb)
    (fun '(options, err) =>
       match err with
       | Some e => Returned ([], Some e)
       | None =>
           if negb deduplicate then Returned (options, None)
           else
             obind (dedupLoop (length options) options ∅)
               (fun options' => Returned (options', None))
       end).

(** The options that the loops of [bundleLength] and [unbundle] visit, in the
    order of the slice. *)
Fixpoint collected (mb : ManyBundle) : list InsertOptioner :=
  match mb with
  | nilManyBundle => []
  | mkManyBundle ManyNil _ => []
  | mkManyBundle (ManyNested converted) next => collected next ++ collected converted
  | mkManyBundle (ManyOption opt) next => collected next ++ [opt]
  end.

Scheme ManyBundle_mut := Induction for ManyBundle Sort Prop
  with Many_mut := Induction for Many Sort Prop.

Lemma ManyBundle_nested_ind (P : ManyBundle -> Prop) :
  P nilManyBundle ->
  (forall next, P next -> P (mkManyBundle ManyNil next)) ->
  (forall opt next, P next -> P (mkManyBundle (ManyOption opt) next)) ->
  (forall converted next, P converted -> P next ->
     P (mkManyBundle (ManyNested converted) next)) ->
  forall mb, P mb.
Proof.
  intros Hnil HoNil Hopt Hnest.
  apply (ManyBundle_mut P
           (fun o => match o with ManyNested c => P c | _ => True end)); auto.
  intros [| opt | c] Ho next Hnext; auto.
Qed.

Lemma many_bundleLength_collected (mb : ManyBundle) :
  bundleLength mb = length (collected mb).
Proof.
  induction mb using ManyBundle_nested_ind; cbn; try reflexivity;
    rewrite length_app; cbn; lia.
Qed.

Lemma many_unbundleLoop_collected (listHead : ManyBundle) :
  forall pre slots post : list slot,
    length slots = bundleLength listHead ->
    unbundleLoop listHead (pre ++ slots ++ post)
      (Z.of_nat (length pre + length slots) - 1)
    = Returned (pre ++ map Some (collected listHead) ++ post).
Proof.
  induction listHead as [| next IH | opt next IH | converted next IHc IHn]
    using ManyBundle_nested_ind; intros pre slots post Hlen.
  - destruct slots; [reflexivity | discriminate].
  - destruct slots; [reflexivity | discriminate].
  - cbn [bundleLength] in Hlen. cbn [unbundleLoop ConvertManyOption obind collected].
    destruct (exists_last (l := slots)) as [slotsN [old ->]];
      [intros ->; discriminate |].
    rewrite length_app in Hlen |- *. cbn [length] in Hlen |- *.
    replace (Z.of_nat (length pre + (length slotsN + 1)) - 1)
      with (Z.of_nat (length (pre ++ slotsN)))
      by (rewrite length_app; lia).
    replace (pre ++ (slotsN ++ [old]) ++ post)
      with ((pre ++ slotsN) ++ old :: post)
      by (rewrite <- !app_assoc; reflexivity).
    rewrite store_app. cbn [obind].
    replace (Z.of_nat (length (pre ++ slotsN)) - 1)
      with (Z.of_nat (length pre + length slotsN) - 1)
      by (rewrite length_app; lia).
    rewrite <- app_assoc. rewrite IH by lia.
    rewrite map_app, <- !app_assoc. reflexivity.
  - cbn [bundleLength] in Hlen. cbn [unbundleLoop collected].
    assert (Hnested :
      match converted with
      | nilManyBundle => Returned []
      | mkManyBundle _ _ =>
          let listLen := bundleLength converted in
          unbundleLoop converted (replicate listLen None) (Z.of_nat listLen - 1)
      end = Returned (map Some (collected converted))).
    { destruct converted as [| o nx] eqn:E; [reflexivity |].
      rewrite <- E in *. cbn zeta.
      pose proof (IHc [] (replicate (bundleLength converted) None) []) as Hc.
      rewrite !app_nil_r, length_replicate in Hc. cbn [app length] in Hc.
      replace (Z.of_nat (0 + bundleLength converted))
        with (Z.of_nat (bundleLength converted)) in Hc by lia.
      apply Hc. reflexivity. }
    cbn zeta in Hnested. rewrite Hnested. cbn [obind]. rewrite length_map.
    rewrite <- many_bundleLength_collected.
    set (k := bundleLength converted) in *.
    assert (Hsplit : slots = take (bundleLength next) slots
                             ++ drop (bundleLength next) slots)
      by (symmetry; apply take_drop).
    set (slotsN := take (bundleLength next) slots) in *.
    set (slotsC := drop (bundleLength next) slots) in *.
    assert (HlenN : length slotsN = bundleLength next)
      by (subst slotsN; rewrite length_take; lia).
    assert (HlenC : length slotsC = k)
      by (subst slotsC; rewrite length_drop; lia).
    rewrite Hsplit. rewrite length_app.
    replace (Z.of_nat (length pre + (length slotsN + length slotsC)) - 1
             - Z.of_nat k + 1)
      with (Z.of_nat (length (pre ++ slotsN)))
      by (rewrite length_app; lia).
    replace (pre ++ (slotsN ++ slotsC) ++ post)
      with ((pre ++ slotsN) ++ slotsC ++ post)
      by (rewrite <- !app_assoc; reflexivity).
    rewrite storeAll_app
      by (rewrite length_map, <- many_bundleLength_collected; exact HlenC).
    cbn [obind].
    replace (Z.of_nat (length pre + (length slotsN + length slotsC)) - 1
             - Z.of_nat k)
      with (Z.of_nat (length pre + length slotsN) - 1) by lia.
    rewrite <- app_assoc. rewrite IHn by exact HlenN.
    rewrite map_app, <- !app_assoc. reflexivity.
Qed.

Lemma many_unbundle_collected (mb : ManyBundle) :
  unbundle mb = Returned (map Some (collected mb), None).
Proof.
  pose proof (many_unbundleLoop_collected mb [] (replicate (bundleLength mb) None) [])
    as Hloop.
  rewrite !app_nil_r, length_replicate in Hloop. cbn [app length] in Hloop.
  replace (Z.of_nat (0 + bundleLength mb)) with (Z.of_nat (bundleLength mb))
    in Hloop by lia.
  specialize (Hloop eq_refl).
  destruct mb as [| o next]; [reflexivity |].
  unfold unbundle. cbn zeta. rewrite Hloop. reflexivity.
Qed.

Lemma many_Unbundle_flat (mb : ManyBundle) :
  Unbundle mb false = Returned (map Some (collected mb), None).
Proof. unfold Unbundle. rewrite many_unbundle_collected. reflexivity. Qed.

Lemma many_Unbundle_dedup (mb : ManyBundle) :
  Unbundle mb true = Returned (keepLast (map Some (collected mb)), None).
Proof.
  unfold Unbundle. rewrite many_unbundle_collected. cbn [obind negb].
  rewrite dedupLoop_keepLast. reflexivity.
Qed.

Lemma collected_BundleMany_options (opts : list InsertOptioner) (head : ManyBundle) :
  collected (fold_left (fun head opt => mkManyBundle opt head)
               (map ManyOption opts) head)
  = collected head ++ opts.
Proof.
  revert head. induction opts as [| opt opts IH]; intros head; cbn [map fold_left].
  - rewrite app_nil_r. reflexivity.
  - rewrite IH. cbn [collected]. rewrite <- app_assoc. reflexivity.
Qed.

(** A bundle of [Many] options holds options of three types. *)
Lemma length_by_three_types (l : list slot) :
  Forall (fun x => x <> None) l ->
  length l
  = (length (filter (fun x : slot => TypeOf x = Some TOptBypassDocumentValidation) l)
     + length (filter (fun x : slot => TypeOf x = Some TOptOrdered) l)
     + length (filter (fun x : slot => TypeOf x = Some TOptWriteConcern) l))%nat.
Proof.
  induction 1 as [| x l Hx Hl IH]; [reflexivity |].
  cbn [length]. rewrite IH.
  destruct x as [[b | b | wc] |]; [| | | contradiction];
    repeat (first
      [ rewrite filter_cons_True by reflexivity
      | rewrite filter_cons_False by (cbn; discriminate) ]);
    cbn [length]; rewrite ?Nat.add_succ_r; reflexivity.
Qed.

Lemma keepLast_some (l : list InsertOptioner) :
  Forall (fun x : slot => x <> None) (keepLast (map Some l)).
Proof.
  apply Forall_forall. intros x Hx.
  assert (Hin : x ∈ map Some l)
    by (eapply sublist_subseteq; [apply keepLast_sublist | exact Hx]).
  apply list_elem_of_In, in_map_iff in Hin as [opt [<- _]]. discriminate.
Qed.

(** X7.  [BundleMany] keeps the order of its arguments and expands a nested
    bundle in place: [Unbundle(false)] returns the options passed before the
    nested bundle, then what the nested bundle unbundles to, then the options
    passed after it. *)
Theorem BundleMany_Unbundle_in_place
  (before after : list InsertOptioner) (mb : ManyBundle) :
  exists inner,
    Unbundle mb false = Returned (inner, None) /\
    Unbundle
      (BundleMany (map ManyOption before ++ ManyNested mb :: map ManyOption after))
      false
    = Returned (map Some before ++ inner ++ map Some after, None).
Proof.
  exists (map Some (collected mb)). rewrite !many_Unbundle_flat.
  split; [reflexivity |]. do 2 f_equal.
  unfold BundleMany. rewrite fold_left_app. cbn [fold_left].
  rewrite collected_BundleMany_options. cbn [collected].
  rewrite collected_BundleMany_options.
  change (collected manyBundle) with (@nil InsertOptioner). cbn [app].
  rewrite !map_app, <- app_assoc. reflexivity.
Qed.

(** X8.  For every bundle of [Many] options, [Unbundle] returns without an
    error, and [Unbundle(true)] returns a subsequence of what
    [Unbundle(false)] returns that keeps, of the options of each type, exactly
    the last one: at most three options, none of them nil. *)
Theorem ManyBundle_Unbundle_true_last_of_each_type (mb : ManyBundle) :
  exists flat kept,
    Unbundle mb false = Returned (flat, None) /\
    Unbundle mb true = Returned (kept, None) /\
    length flat = bundleLength mb /\
    sublist kept flat /\
    (forall ty,
       filter (fun x => TypeOf x = ty) kept
       = option_list (last (filter (fun x => TypeOf x = ty) flat))) /\
    (length kept <= 3)%nat /\
    Forall (fun x => x <> None) kept.
Proof.
  exists (map Some (collected mb)), (keepLast (map Some (collected mb))).
  split; [apply many_Unbundle_flat |]. split; [apply many_Unbundle_dedup |].
  split; [rewrite length_map; symmetry; apply many_bundleLength_collected |].
  split; [apply keepLast_sublist |]. split; [intros ty; apply keepLast_last |].
  split; [| apply keepLast_some].
  rewrite length_by_three_types by apply keepLast_some.
  rewrite !keepLast_last. do 3 destruct (last _); cbn; lia.
Qed.

Lemma many_Unbundle_snoc (mb : ManyBundle) (opt : InsertOptioner) :
  Unbundle (mkManyBundle (ManyOption opt) mb) false
  = Returned (map Some (collected mb) ++ [Some opt], None) /\
  Unbundle (mkManyBundle (ManyOption opt) mb) true
  = Returned
      (filter (fun y => TypeOf y <> TypeOf (Some opt))
         (keepLast (map Some (collected mb))) ++ [Some opt], None).
Proof.
  rewrite many_Unbundle_flat, many_Unbundle_dedup. cbn [collected].
  rewrite map_app. cbn [map]. split; [reflexivity |].
  f_equal. f_equal.
  apply (bundle_props.keepLast_snoc (map Some (collected mb)) (Some opt)).
Qed.

(** X9.  The methods [BypassDocumentValidation], [Ordered] and
    [WriteConcern] of a bundle of [Many] options add their option at the end
    of what [Unbundle(false)] returns; with deduplication the option added by
    the method is the last one returned and replaces the earlier options of
    its type, the options of the other types staying as they were. *)
Theorem ManyBundle_Unbundle_after_method
  (mb : ManyBundle) (b : bool) (wc : WriteConcern) :
  exists flat kept,
    Unbundle mb false = Returned (flat, None) /\
    Unbundle mb true = Returned (kept, None) /\
    (Unbundle (BypassDocumentValidation mb b) false
     = Returned (flat ++ [Some (OptBypassDocumentValidation b)], None) /\
     Unbundle (BypassDocumentValidation mb b) true
     = Returned
         (filter (fun y => TypeOf y <> Some TOptBypassDocumentValidation) kept
          ++ [Some (OptBypassDocumentValidation b)], None)) /\
    (Unbundle (Ordered mb b) false = Returned (flat ++ [Some (OptOrdered b)], None) /\
     Unbundle (Ordered mb b) true
     = Returned
         (filter (fun y => TypeOf y <> Some TOptOrdered) kept
          ++ [Some (OptOrdered b)], None)) /\
    (Unbundle (WithWriteConcern mb wc) false
     = Returned (flat ++ [Some (OptWriteConcern wc)], None) /\
     Unbundle (WithWriteConcern mb wc) true
     = Returned
         (filter (fun y => TypeOf y <> Some TOptWriteConcern) kept
          ++ [Some (OptWriteConcern wc)], None)).
Proof.
  exists (map Some (collected mb)), (keepLast (map Some (collected mb))).
  split; [apply many_Unbundle_flat |]. split; [apply many_Unbundle_dedup |].
  split; [| split]; apply many_Unbundle_snoc.
Qed.

End Bundles.
End insertopt_many.

(** ** core/dispatch/find.go: more on [Find] *)
Module find_props.
Import bson dispatch.

Section Find.
Context {SelectedServer Connection ReadPref Session Cursor Iface Collation : Type}.

Notation Env :=
  (@dispatch.Env SelectedServer Connection ReadPref Session Cursor Iface Collation).
Notation FindCmd := (dispatch.FindCmd ReadPref Session).
Notation FindOptions := (dispatch.FindOptions Iface Collation).
Notation Event := (@dispatch.Event ReadPref Session).
Notation State := (@dispatch.State ReadPref Session).

Variable env : Env.

Notation "x <- m ;; k" := (bind m (fun x => k))
  (at level 100, m at next level, right associativity).
Notation "m ;;; k" := (bind m (fun _ => k))
  (at level 100, right associativity).

(** *** What the options part leaves of the command *)

(** The command [c'] is [c] with elements appended to its options and to its
    cursor options. *)
Definition extends (c c' : FindCmd) : Prop :=
  Filter c' = Filter c /\ ReadPref_ c' = ReadPref_ c /\ Session_ c' = Session_ c /\
  (exists appended, Opts c' = Opts c ++ appended) /\
  (exists appended, CursorOpts c' = CursorOpts c ++ appended).

(** A computation only appends, however it ends. *)
Definition onlyAppends (m : M FindCmd unit) : Prop :=
  forall c, extends c (snd (m c)).

Lemma extends_refl (c : FindCmd) : extends c c.
Proof.
  unfold extends. repeat split; try (exists []; rewrite app_nil_r); reflexivity.
Qed.

Lemma extends_trans (c1 c2 c3 : FindCmd) :
  extends c1 c2 -> extends c2 c3 -> extends c1 c3.
Proof.
  intros (Hf & Hr & Hs & [os Ho] & [cs Hc]) (Hf' & Hr' & Hs' & [os' Ho'] & [cs' Hc']).
  unfold extends. rewrite Hf', Hr', Hs', Ho', Hc', Ho, Hc, <- !app_assoc.
  repeat split; eauto.
Qed.

Lemma onlyAppends_bind (m k : M FindCmd unit) :
  onlyAppends m -> onlyAppends k -> onlyAppends (m ;;; k).
Proof.
  intros Hm Hk c. unfold bind. specialize (Hm c).
  destruct (m c) as [[[] | e | ] c']; cbn [snd] in *; [| exact Hm ..].
  eapply extends_trans; [exact Hm | apply Hk].
Qed.

Lemma onlyAppends_ret : onlyAppends (ret tt).
Proof. intros c. apply extends_refl. Qed.

Lemma onlyAppends_fail (e : error) : onlyAppends (fail e).
Proof. intros c. apply extends_refl. Qed.

Lemma onlyAppends_lift (r : result unit) : onlyAppends (lift r).
Proof. intros c. apply extends_refl. Qed.

Lemma onlyAppends_appendOpts (elems : list Elem) : onlyAppends (appendOpts elems).
Proof.
  intros c. unfold extends. cbn. repeat split; eauto.
  exists []. rewrite app_nil_r. reflexivity.
Qed.

Lemma onlyAppends_appendCursorOpts (elems : list Elem) :
  onlyAppends (appendCursorOpts elems).
Proof.
  intros c. unfold extends. cbn. repeat split; eauto.
  exists []. rewrite app_nil_r. reflexivity.
Qed.

Lemma onlyAppends_appendInterface (key : string) (v : Iface) :
  onlyAppends (appendInterface env key v).
Proof.
  intros c. unfold appendInterface, bind, lift.
  destruct (interfaceToElement env key v) as [elem | e | ]; cbn [snd];
    [apply onlyAppends_appendOpts | apply extends_refl ..].
Qed.

Lemma onlyAppends_ifSet {A} (p : option A) (body : A -> M FindCmd unit) :
  (forall a, onlyAppends (body a)) -> onlyAppends (ifSet p body).
Proof. intros Hbody. destruct p; [apply Hbody | apply onlyAppends_ret]. Qed.

Ltac onlyAppends_step :=
  first
    [ apply onlyAppends_ret | apply onlyAppends_fail | apply onlyAppends_lift
    | apply onlyAppends_appendOpts | apply onlyAppends_appendCursorOpts
    | apply onlyAppends_appendInterface
    | apply onlyAppends_ifSet; intros ?
    | apply onlyAppends_bind
    | match goal with
      | |- onlyAppends (match ?x with _ => _ end) => destruct x
      | |- onlyAppends (if ?x then _ else _) => destruct x
      end ].

Lemma findOptions_onlyAppends (desc : Description) (fo : FindOptions) :
  onlyAppends (findOptions env desc fo).
Proof. unfold findOptions. repeat onlyAppends_step. Qed.

(** *** The steps before the options *)

(** The events of the body of [Find], between taking the connection and
    closing it. *)
Definition bodyEvent (ev : Event) : Prop :=
  ev = EvNewClientSession \/ exists sent, ev = EvRoundTrip sent.

Lemma prelude_Some_inv (c : FindCmd) (ss : SelectedServer) (conn : Connection)
  (st : State) :
  prelude env c = Some (ss, conn, st) ->
  SelectServer env = Ok ss /\ ServerConnection env ss = Ok conn /\
  Filter (cmd st) = Filter c /\
  ((log st = [EvSelectServer; EvConnection] /\ Session_ (cmd st) = Session_ c /\
    (Session_ c = None -> SupportsSessions env = false)) \/
   (log st = [EvSelectServer; EvConnection; EvNewClientSession] /\
    Session_ c = None /\ SupportsSessions env = true /\
    exists s, NewClientSession env = Ok s /\ Session_ (cmd st) = Some s)).
Proof.
  unfold prelude.
  destruct (SelectServer env) as [ss' | e | ]; [| discriminate ..].
  destruct (ServerConnection env ss') as [conn' | e | ] eqn:Econn; [| discriminate ..].
  destruct (getReadPrefBasedOnTransaction env (ReadPref_ c) (Session_ c))
    as [rp | e | ]; [| discriminate ..].
  destruct (Session_ c) as [s0 |] eqn:Esess.
  - intros [= <- <- <-]. cbn. repeat split; auto. left. repeat split; auto.
    discriminate.
  - destruct (SupportsSessions env).
    + destruct (NewClientSession env) as [s | e | ]; [| discriminate ..].
      intros [= <- <- <-]. cbn. repeat split; auto. right. repeat split; eauto.
    + intros [= <- <- <-]. cbn. repeat split; auto.
Qed.

(** When a step before the options fails, [Find] returns no cursor, and the
    connection, if it was taken, is closed last. *)
Lemma prelude_None_inv (c : FindCmd) (opts : list FindOptions) :
  prelude env c = None ->
  (forall cur, fst (runFind env c opts) <> Ok cur) /\
  match SelectServer env with
  | Ok ss =>
      match ServerConnection env ss with
      | Ok _ =>
          log (snd (runFind env c opts)) = [EvSelectServer; EvConnection; EvClose] \/
          log (snd (runFind env c opts))
          = [EvSelectServer; EvConnection; EvNewClientSession; EvClose]
      | _ => log (snd (runFind env c opts)) = [EvSelectServer; EvConnection]
      end
  | _ => log (snd (runFind env c opts)) = [EvSelectServer]
  end.
Proof.
  unfold prelude, runFind, Find, call, defer, onCmd, lift, get, put, ret, bind.
  cbn [cmd log].
  destruct (SelectServer env) as [ss | e | ];
    [| intros _; split; [discriminate | reflexivity] ..].
  destruct (ServerConnection env ss) as [conn | e | ];
    [| intros _; split; [discriminate | reflexivity] ..].
  destruct (getReadPrefBasedOnTransaction env (ReadPref_ c) (Session_ c))
    as [rp | e | ]; [| intros _; split; [discriminate | left; reflexivity] ..].
  cbn [cmd log Session_].
  destruct (Session_ c) as [s0 |]; [discriminate |].
  destruct (SupportsSessions env); [| discriminate].
  destruct (NewClientSession env) as [s | e | ];
    [discriminate | intros _; split; [discriminate | right; reflexivity] ..].
Qed.

(** When [RoundTrip] is called, the steps before the options succeeded, the
    options part succeeded on the command they left, and [Find] ends with
    that call and the closing of the connection. *)
Lemma sentCommand_inv (c : FindCmd) (opts : list FindOptions) (sent : FindCmd) :
  sentCommand (log (snd (runFind env c opts))) = Some sent ->
  exists ss conn st,
    prelude env c = Some (ss, conn, st) /\
    findOptions env (ServerDescription env ss) (MergeFindOptions env opts) (cmd st)
    = (Ok tt, sent) /\
    runFind env c opts
    = (RoundTrip env sent (ServerDescription env ss) ss conn,
       {| cmd := sent; log := log st ++ [EvRoundTrip sent; EvClose] |}).
Proof.
  intros Hsent.
  destruct (prelude env c) as [[[ss conn] st] |] eqn:Hpre.
  - destruct (runFind_prelude_Some env c opts ss conn st Hpre)
      as (_ & _ & Hnone & Hrun).
    exists ss, conn, st. split; [reflexivity |].
    rewrite Hrun in Hsent |- *.
    destruct (findOptions env _ _ (cmd st)) as [[[] | e | ] c'];
      cbn [snd log] in Hsent; rewrite sentCommand_app_None in Hsent by exact Hnone;
      cbn [sentCommand] in Hsent; [| discriminate ..].
    injection Hsent as <-. split; reflexivity.
  - destruct (runFind_prelude_None env c opts opts Hpre) as [_ Hnone].
    rewrite Hnone in Hsent. discriminate.
Qed.

(** X10.  The connection of [Find] is closed exactly when it was taken, and closing
    it is the last thing [Find] does, whether it returns a cursor, returns an
    error or panics: the calls are [SelectServer], [Connection], then at most
    [NewClientSession] and [RoundTrip], then [Close]; without a connection
    nothing is closed. *)
Theorem Find_closes_connection (c : FindCmd) (opts : list FindOptions) :
  let events := log (snd (runFind env c opts)) in
  match SelectServer env with
  | Ok ss =>
      match ServerConnection env ss with
      | Ok _ =>
          exists body,
            events = [EvSelectServer; EvConnection] ++ body ++ [EvClose] /\
            Forall bodyEvent body
      | _ => events = [EvSelectServer; EvConnection]
      end
  | _ => events = [EvSelectServer]
  end.
Proof.
  cbv zeta.
  destruct (prelude env c) as [[[ss conn] st] |] eqn:Hpre.
  - destruct (runFind_prelude_Some env c opts ss conn st Hpre) as (_ & _ & _ & Hrun).
    destruct (prelude_Some_inv c ss conn st Hpre) as (Hss & Hconn & _ & Hlog).
    rewrite Hss, Hconn, Hrun.
    assert (Hst : exists pre, log st = [EvSelectServer; EvConnection] ++ pre /\
                              Forall bodyEvent pre).
    { destruct Hlog as [(-> & _) | (-> & _)].
      - exists []. split; [reflexivity | constructor].
      - exists [EvNewClientSession]. split; [reflexivity |].
        constructor; [left; reflexivity | constructor]. }
    destruct Hst as (pre & -> & Hbody).
    destruct (findOptions env _ _ (cmd st)) as [[[] | e | ] c']; cbn [snd log].
    + exists (pre ++ [EvRoundTrip c']). rewrite <- !app_assoc.
      split; [reflexivity |]. apply Forall_app. split; [exact Hbody |].
      constructor; [right; exists c'; reflexivity | constructor].
    + exists pre. rewrite <- !app_assoc. split; [reflexivity | exact Hbody].
    + exists pre. rewrite <- !app_assoc. split; [reflexivity | exact Hbody].
  - destruct (prelude_None_inv c opts Hpre) as [_ Hlog].
    destruct (SelectServer env) as [ss | e | ]; [| exact Hlog ..].
    destruct (ServerConnection env ss) as [conn | e | ]; [| exact Hlog ..].
    destruct Hlog as [-> | ->].
    + exists []. split; [reflexivity | constructor].
    + exists [EvNewClientSession]. split; [reflexivity |].
      constructor; [left; reflexivity | constructor].
Qed.

(** X11.  [Find] returns a cursor only when it called [RoundTrip], and then it
    returns what [RoundTrip] returned for the command it sent; that command
    is the command of the caller with the filter untouched and with elements
    appended to its options and cursor options, none removed or reordered. *)
Theorem Find_returns_what_RoundTrip_returns (c : FindCmd) (opts : list FindOptions) :
  match sentCommand (log (snd (runFind env c opts))) with
  | Some sent =>
      exists ss conn,
        SelectServer env = Ok ss /\ ServerConnection env ss = Ok conn /\
        fst (runFind env c opts)
        = RoundTrip env sent (ServerDescription env ss) ss conn /\
        Filter sent = Filter c /\
        (exists appended, Opts sent = Opts c ++ appended) /\
        (exists appended, CursorOpts sent = CursorOpts c ++ appended)
  | None => forall cur, fst (runFind env c opts) <> Ok cur
  end.
Proof.
  destruct (sentCommand (log (snd (runFind env c opts)))) as [sent |] eqn:Hsent.
  - destruct (sentCommand_inv c opts sent Hsent)
      as (ss & conn & st & Hpre & Hopts & Hrun).
    destruct (prelude_Some_inv c ss conn st Hpre) as (Hss & Hconn & Hfilter & _).
    destruct (runFind_prelude_Some env c opts ss conn st Hpre) as (Ho & Hc & _ & _).
    pose proof (findOptions_onlyAppends (ServerDescription env ss)
                  (MergeFindOptions env opts) (cmd st)) as Hext.
    rewrite Hopts in Hext. cbn [snd] in Hext.
    destruct Hext as (Hf & _ & _ & Hos & Hcs).
    exists ss, conn. rewrite Hrun. cbn [fst].
    rewrite Hf, Hfilter, <- Ho, <- Hc. repeat split; auto.
  - intros cur.
    destruct (prelude env c) as [[[ss conn] st] |] eqn:Hpre.
    + destruct (runFind_prelude_Some env c opts ss conn st Hpre)
        as (_ & _ & Hnone & Hrun).
      rewrite Hrun in Hsent |- *.
      destruct (findOptions env _ _ (cmd st)) as [[[] | e | ] c'];
        cbn [fst snd log] in *; [| discriminate ..].
      rewrite sentCommand_app_None in Hsent by exact Hnone. discriminate.
    + apply (prelude_None_inv c opts Hpre).
Qed.

(** X12.  The session of the command that [Find] sends: an explicit session is
    kept and no session is started; without one, the session sent is the one
    that [NewClientSession] returned when the deployment supports sessions,
    and there is none when it does not. *)
Theorem Find_session (c : FindCmd) (opts : list FindOptions) (sent : FindCmd) :
  sentCommand (log (snd (runFind env c opts))) = Some sent ->
  match Session_ c with
  | Some s =>
      Session_ sent = Some s /\
      ~ In EvNewClientSession (log (snd (runFind env c opts)))
  | None =>
      if SupportsSessions env
      then exists s, NewClientSession env = Ok s /\ Session_ sent = Some s
      else Session_ sent = None /\
           ~ In EvNewClientSession (log (snd (runFind env c opts)))
  end.
Proof.
  intros Hsent.
  destruct (sentCommand_inv c opts sent Hsent)
    as (ss & conn & st & Hpre & Hopts & Hrun).
  destruct (prelude_Some_inv c ss conn st Hpre) as (_ & _ & _ & Hlog).
  pose proof (findOptions_onlyAppends (ServerDescription env ss)
                (MergeFindOptions env opts) (cmd st)) as Hext.
  rewrite Hopts in Hext. cbn [snd] in Hext.
  destruct Hext as (_ & _ & Hs & _).
  rewrite Hrun. cbn [snd log].
  assert (Hno : log st = [EvSelectServer; EvConnection] ->
                ~ In EvNewClientSession (log st ++ [EvRoundTrip sent; EvClose])).
  { intros -> Hin. cbn in Hin.
    repeat destruct Hin as [Hin | Hin]; try discriminate Hin. exact Hin. }
  destruct Hlog as [(Hl & Hsame & Hsupp) | (Hl & Hnone & Hsupp & s & Hnew & Hsess)].
  - rewrite Hs, Hsame.
    destruct (Session_ c) as [s0 |]; [auto |].
    rewrite (Hsupp eq_refl). auto.
  - rewrite Hnone, Hsupp. exists s. rewrite Hs. auto.
Qed.

(** *** Single elements of the options sent *)

(** No element has the key [key]. *)
Definition noKey (key : string) (l : list Elem) : Prop :=
  Forall (fun e => Key e <> key) l.

Lemma noKey_stable (key : string) :
  stable (fun e => Key e <> key) (noKey key).
Proof. intros l elems Hok Hl. apply Forall_app. split; assumption. Qed.

Lemma noKey_not_In (key : string) (v : Val) (l : list Elem) :
  noKey key l -> ~ In (mkElem key v) l.
Proof.
  intros Hall Hin. apply Forall_forall with (x := mkElem key v) in Hall.
  - apply Hall. reflexivity.
  - apply list_elem_of_In. exact Hin.
Qed.

(** A property of the elements with the key [key] is kept when elements with
    other keys are appended. *)
Lemma keyed_stable (key : string) (R : Val -> Prop) :
  stable (fun e => Key e <> key)
    (fun l => forall v, In (mkElem key v) l <-> R v).
Proof.
  intros l elems Hok Hl v. rewrite in_app_iff, Hl. split; [| auto].
  intros [HR | Hin]; [exact HR |].
  exfalso. exact (noKey_not_In key v elems Hok Hin).
Qed.

Ltac key_side Hkey :=
  first
    [ repeat constructor; cbn; discriminate
    | let e := fresh "e" in
      let He := fresh "He" in
      intros e He; cbn beta; rewrite (Hkey _ _ _ He); discriminate ].

Ltac ensures_step Hkey :=
  first
    [ apply ensures_ret | apply ensures_fail | apply ensures_Panic
    | apply ensures_appendCursorOpts
    | eapply ensures_appendOpts; [eassumption | key_side Hkey]
    | eapply ensures_appendInterface; [eassumption | key_side Hkey]
    | apply ensures_ifSet; intros ?
    | eapply ensures_bind
    | match goal with
      | |- ensures _ _ (match ?x with _ => _ end) => destruct x
      | |- ensures _ _ (if ?x then _ else _) => destruct x
      end ].

Lemma bind_Ok_inv {S A B} (m : M S A) (k : A -> M S B) (st st' : S) (b : B) :
  bind m k st = (Ok b, st') ->
  exists a st1, m st = (Ok a, st1) /\ k a st1 = (Ok b, st').
Proof.
  unfold bind. destruct (m st) as [[a | e | ] st1]; [eauto | discriminate ..].
Qed.

(** The options part succeeds with a collation only on a server of wire
    version 5 or above. *)
Lemma findOptions_collation_version (desc : Description) (fo : FindOptions)
  (collation : Collation) (c c' : FindCmd) :
  Collation_ fo = Some collation ->
  findOptions env desc fo c = (Ok tt, c') ->
  exists wv, WireVersion desc = Some wv /\ 5 <= Max wv.
Proof.
  intros Hcoll Hok. unfold findOptions in Hok. rewrite Hcoll in Hok.
  apply bind_Ok_inv in Hok as (u1 & c1 & _ & Hok).
  apply bind_Ok_inv in Hok as (u2 & c2 & _ & Hok).
  apply bind_Ok_inv in Hok as (u3 & c3 & Hstep & _).
  cbn [ifSet] in Hstep.
  destruct (WireVersion desc) as [wv |]; [| discriminate Hstep].
  exists wv. split; [reflexivity |].
  destruct (Max wv <? 5) eqn:Emax; [discriminate Hstep |].
  apply Z.ltb_ge in Emax. exact Emax.
Qed.

(** The element [collation] of the options: the document of the collation
    of the merged options. *)
Definition collationOf (fo : FindOptions) (v : Val) : Prop :=
  exists collation,
    Collation_ fo = Some collation /\ v = Document (ToDocument env collation).

Lemma findOptions_collation (desc : Description) (fo : FindOptions) :
  (forall key v e, interfaceToElement env key v = Ok e -> Key e = key) ->
  ensures (noKey "collation")
    (fun l => forall v, In (mkElem "collation" v) l <-> collationOf fo v)
    (findOptions env desc fo).
Proof.
  intros Hkey. pose proof (noKey_stable "collation") as HP.
  pose proof (keyed_stable "collation" (collationOf fo)) as HQ.
  unfold findOptions.
  do 2 (eapply ensures_bind; [repeat ensures_step Hkey |]).
  eapply (ensures_bind _
            (fun l => forall v, In (mkElem "collation" v) l <-> collationOf fo v)).
  - intros c Hno. unfold collationOf.
    assert (Hc : forall v, ~ In (mkElem "collation" v) (Opts c))
      by (intros v; apply noKey_not_In; exact Hno).
    destruct (Collation_ fo) as [collation |]; cbn [ifSet].
    + destruct (WireVersion desc) as [wv |]; [| exact I].
      destruct (Max wv <? 5); [exact I |].
      cbn. intros v. rewrite in_app_iff. cbn. split.
      * intros [Hin | [Heq | Hf]]; try contradiction.
        -- exfalso. exact (Hc v Hin).
        -- injection Heq as <-. exists collation. auto.
      * intros (collation' & Hcoll & ->). injection Hcoll as <-. auto.
    + cbn. intros v. split.
      * intros Hin. exfalso. exact (Hc v Hin).
      * intros (collation' & Hcoll & _). discriminate Hcoll.
  - repeat ensures_step Hkey.
Qed.

(** The rule of [singleBatch]: a batch size other than 0 and a limit that
    one batch holds. *)
Definition oneBatch (fo : FindOptions) : Prop :=
  exists batchSize limit,
    BatchSize fo = Some batchSize /\ Limit fo = Some limit /\
    batchSize <> 0 /\ limit <= batchSize.

Lemma findOptions_singleBatch (desc : Description) (fo : FindOptions) :
  (forall key v e, interfaceToElement env key v = Ok e -> Key e = key) ->
  ensures (noKey "singleBatch")
    (fun l => forall v, In (mkElem "singleBatch" v) l <-> v = Boolean true /\ oneBatch fo)
    (findOptions env desc fo).
Proof.
  intros Hkey. pose proof (noKey_stable "singleBatch") as HP.
  pose proof (keyed_stable "singleBatch"
                (fun v => v = Boolean true /\ oneBatch fo)) as HQ.
  unfold findOptions.
  eapply ensures_bind; [repeat ensures_step Hkey |].
  eapply (ensures_bind _
            (fun l => forall v, In (mkElem "singleBatch" v) l
                                <-> v = Boolean true /\ oneBatch fo)).
  - intros c Hno. unfold oneBatch.
    assert (Hc : forall v, ~ In (mkElem "singleBatch" v) (Opts c))
      by (intros v; apply noKey_not_In; exact Hno).
    destruct (BatchSize fo) as [batchSize |]; cbn [ifSet].
    + destruct (Limit fo) as [limit |].
      * destruct (negb (batchSize =? 0) && (limit <=? batchSize)) eqn:Erule;
          cbn; intros v; rewrite !in_app_iff; cbn.
        -- apply andb_prop in Erule as [Hnz Hle].
           apply negb_true_iff, Z.eqb_neq in Hnz. apply Z.leb_le in Hle.
           split.
           ++ intros [[Hin | [Heq | Hf]] | [Heq | Hf]]; try contradiction.
              ** exfalso. exact (Hc v Hin).
              ** discriminate Heq.
              ** injection Heq as <-. split; [reflexivity |].
                 exists batchSize, limit. auto.
           ++ intros [-> _]. auto.
        -- split.
           ++ intros [Hin | [Heq | Hf]]; try contradiction.
              ** exfalso. exact (Hc v Hin).
              ** discriminate Heq.
           ++ intros [_ (b & l & Hb & Hl & Hnz & Hle)].
              injection Hb as <-. injection Hl as <-.
              exfalso. apply andb_false_iff in Erule as [Hz | Hgt].
              ** apply negb_false_iff, Z.eqb_eq in Hz. contradiction.
              ** apply Z.leb_gt in Hgt. lia.
      * cbn. intros v. rewrite !in_app_iff. cbn. split.
        -- intros [Hin | [Heq | Hf]]; try contradiction.
           ++ exfalso. exact (Hc v Hin).
           ++ discriminate Heq.
        -- intros [_ (b & l & _ & Hl & _)]. discriminate Hl.
    + cbn. intros v. split.
      * intros Hin. exfalso. exact (Hc v Hin).
      * intros [_ (b & l & Hb & _)]. discriminate Hb.
  - repeat ensures_step Hkey.
Qed.

(** The element [maxTimeMS] of the options: the time limit in whole
    milliseconds, rounded toward zero. *)
Definition timeLimit (fo : FindOptions) (v : Val) : Prop :=
  exists d, MaxTime fo = Some d /\ v = Int64 (Z.quot d Millisecond).

Lemma findOptions_maxTimeMS (desc : Description) (fo : FindOptions) :
  (forall key v e, interfaceToElement env key v = Ok e -> Key e = key) ->
  ensures (noKey "maxTimeMS")
    (fun l => forall v, In (mkElem "maxTimeMS" v) l <-> timeLimit fo v)
    (findOptions env desc fo).
Proof.
  intros Hkey. pose proof (noKey_stable "maxTimeMS") as HP.
  pose proof (keyed_stable "maxTimeMS" (timeLimit fo)) as HQ.
  unfold findOptions.
  do 9 (eapply ensures_bind; [repeat ensures_step Hkey |]).
  eapply (ensures_bind _
            (fun l => forall v, In (mkElem "maxTimeMS" v) l <-> timeLimit fo v)).
  - intros c Hno. unfold timeLimit.
    assert (Hc : forall v, ~ In (mkElem "maxTimeMS" v) (Opts c))
      by (intros v; apply noKey_not_In; exact Hno).
    destruct (MaxTime fo) as [d |]; cbn; intros v.
    + rewrite in_app_iff. cbn. split.
      * intros [Hin | [Heq | Hf]]; try contradiction.
        -- exfalso. exact (Hc v Hin).
        -- injection Heq as <-. exists d. auto.
      * intros (d' & Hd & ->). injection Hd as <-. auto.
    + split.
      * intros Hin. exfalso. exact (Hc v Hin).
      * intros (d' & Hd & _). discriminate Hd.
  - repeat ensures_step Hkey.
Qed.

(** The options of the command sent are what the options part leaves of the
    options of the caller's command. *)
Lemma sent_ensures (P Q : list Elem -> Prop) (c : FindCmd) (opts : list FindOptions)
  (sent : FindCmd) :
  (forall desc, ensures P Q (findOptions env desc (MergeFindOptions env opts))) ->
  P (Opts c) ->
  sentCommand (log (snd (runFind env c opts))) = Some sent ->
  Q (Opts sent).
Proof.
  intros Hensures HP Hsent.
  destruct (sentCommand_inv c opts sent Hsent)
    as (ss & conn & st & Hpre & Hopts & _).
  destruct (runFind_prelude_Some env c opts ss conn st Hpre) as (Ho & _).
  specialize (Hensures (ServerDescription env ss) (cmd st)).
  rewrite Ho, Hopts in Hensures. exact (Hensures HP).
Qed.

(** X13.  A collation reaches only a server of wire version 5 or above: when
    [Find] sends a command and the merged options hold a collation, the
    maximum wire version of the selected server is at least 5; and (when
    [interfaceToElement] gives the element the key it was asked for and the
    command of the caller holds no [collation] option) the options sent hold
    [collation] exactly when the merged options hold one, with its
    document. *)
Theorem Find_collation_needs_wire_version_5 (c : FindCmd) (opts : list FindOptions)
  (sent : FindCmd) :
  sentCommand (log (snd (runFind env c opts))) = Some sent ->
  (forall collation,
     Collation_ (MergeFindOptions env opts) = Some collation ->
     exists ss wv,
       SelectServer env = Ok ss /\
       WireVersion (ServerDescription env ss) = Some wv /\ 5 <= Max wv) /\
  ((forall key v e, interfaceToElement env key v = Ok e -> Key e = key) ->
   noKey "collation" (Opts c) ->
   forall v,
     In (mkElem "collation" v) (Opts sent)
     <-> exists collation,
           Collation_ (MergeFindOptions env opts) = Some collation /\
           v = Document (ToDocument env collation)).
Proof.
  intros Hsent. split.
  - intros collation Hcoll.
    destruct (sentCommand_inv c opts sent Hsent)
      as (ss & conn & st & Hpre & Hopts & _).
    destruct (prelude_Some_inv c ss conn st Hpre) as (Hss & _).
    destruct (findOptions_collation_version _ _ collation _ _ Hcoll Hopts)
      as (wv & Hwv & Hmax).
    exists ss, wv. auto.
  - intros Hkey Hno.
    apply (sent_ensures (noKey "collation")
             (fun l => forall v, In (mkElem "collation" v) l
                                 <-> collationOf (MergeFindOptions env opts) v)
             c opts sent); try assumption.
    intros desc. apply findOptions_collation. exact Hkey.
Qed.

(** X14.  When [interfaceToElement] gives the element the key it was asked for and
    the command of the caller holds no [singleBatch] option, the command that
    [Find] sends holds [singleBatch] exactly when the merged options set a
    batch size other than 0 and a limit that is at most the batch size (a
    negative limit included), and its value is then true. *)
Theorem Find_singleBatch (c : FindCmd) (opts : list FindOptions) (sent : FindCmd) :
  (forall key v e, interfaceToElement env key v = Ok e -> Key e = key) ->
  noKey "singleBatch" (Opts c) ->
  sentCommand (log (snd (runFind env c opts))) = Some sent ->
  forall v,
    In (mkElem "singleBatch" v) (Opts sent)
    <-> v = Boolean true /\ oneBatch (MergeFindOptions env opts).
Proof.
  intros Hkey Hno Hsent.
  apply (sent_ensures (noKey "singleBatch")
           (fun l => forall v, In (mkElem "singleBatch" v) l
                               <-> v = Boolean true
                                   /\ oneBatch (MergeFindOptions env opts))
           c opts sent); try assumption.
  intros desc. apply findOptions_singleBatch. exact Hkey.
Qed.

(** X15.  When [interfaceToElement] gives the element the key it was asked for and
    the command of the caller holds no [maxTimeMS] option, the options of the
    command that [Find] sends hold [maxTimeMS] exactly when the merged
    options set [MaxTime], with the duration in whole milliseconds rounded
    toward zero; so a [MaxTime] under one millisecond is sent as 0, and
    [MaxAwaitTime] adds nothing to the options. *)
Theorem Find_MaxTime (c : FindCmd) (opts : list FindOptions) (sent : FindCmd) :
  (forall key v e, interfaceToElement env key v = Ok e -> Key e = key) ->
  noKey "maxTimeMS" (Opts c) ->
  sentCommand (log (snd (runFind env c opts))) = Some sent ->
  (forall v,
     In (mkElem "maxTimeMS" v) (Opts sent)
     <-> exists d, MaxTime (MergeFindOptions env opts) = Some d /\
                   v = Int64 (Z.quot d Millisecond)) /\
  (forall d, MaxTime (MergeFindOptions env opts) = Some d ->
     - Millisecond < d < Millisecond ->
     In (mkElem "maxTimeMS" (Int64 0)) (Opts sent)).
Proof.
  intros Hkey Hno Hsent.
  assert (Hsent' : forall v, In (mkElem "maxTimeMS" v) (Opts sent)
                             <-> timeLimit (MergeFindOptions env opts) v).
  { apply (sent_ensures (noKey "maxTimeMS")
             (fun l => forall v, In (mkElem "maxTimeMS" v) l
                                 <-> timeLimit (MergeFindOptions env opts) v)
             c opts sent); try assumption.
    intros desc. apply findOptions_maxTimeMS. exact Hkey. }
  split; [exact Hsent' |].
  intros d Hd Hsmall. apply Hsent'. exists d. split; [exact Hd |].
  f_equal. symmetry. apply Z.quot_small_iff; [discriminate |].
  unfold Millisecond in *. lia.
Qed.

End Find.

(** *** Running [Find] *)

(** A limit of 2 with a batch size of 3, and a time limit of half a
    millisecond. *)
Definition limitedOptions : FindOptions Val Doc :=
  {| AllowPartialResults := None; BatchSize := Some 3; Collation_ := None;
     Comment := None; CursorType_ := None; Hint := None;
     Limit := Some 2; Max_ := None; MaxAwaitTime := None;
     MaxTime := Some 500000; Min_ := None; NoCursorTimeout := None;
     OplogReplay := None; Projection := None; ReturnKey := None;
     ShowRecordID := None; Skip := None; Snapshot := None; Sort := None |}.

(** The command that [Find] sends for [findCmd] with options [opts] on the
    deployment [testEnv 7]. *)
Definition sentBy (opts : list (FindOptions Val Doc)) : FindCmd unit unit :=
  match sentCommand (log (snd (runFind (testEnv 7) findCmd opts))) with
  | Some sent => sent
  | None => findCmd
  end.

Example sentBy_limitedOptions :
  sentBy [limitedOptions]
  = {| Filter := Filter findCmd; ReadPref_ := tt; Session_ := Some tt;
       Opts := [mkElem "batchSize" (Int32 3); mkElem "singleBatch" (Boolean true);
                mkElem "limit" (Int64 2); mkElem "maxTimeMS" (Int64 0)];
       CursorOpts := [mkElem "batchSize" (Int32 3)] |}.
Proof. vm_compute. reflexivity. Qed.

Lemma Find_session_witness :
  exists s, NewClientSession (testEnv 7) = Ok s /\
            Session_ (sentBy [limitedOptions]) = Some s.
Proof.
  exact (Find_session (testEnv 7) findCmd [limitedOptions]
           (sentBy [limitedOptions]) eq_refl).
Defined.

Lemma Find_collation_needs_wire_version_5_witness :
  exists ss wv,
    SelectServer (testEnv 7) = Ok ss /\
    WireVersion (ServerDescription (testEnv 7) ss) = Some wv /\ 5 <= Max wv.
Proof.
  apply (proj1 (Find_collation_needs_wire_version_5 (testEnv 7) findCmd
                  [limitedOptions; collationOption]
                  (sentBy [limitedOptions; collationOption]) eq_refl)
           [mkElem "locale" (bson.String "en")]).
  reflexivity.
Defined.

Lemma Find_singleBatch_witness :
  In (mkElem "singleBatch" (Boolean true)) (Opts (sentBy [limitedOptions])).
Proof.
  apply (Find_singleBatch (testEnv 7) findCmd [limitedOptions]
           (sentBy [limitedOptions])).
  - intros key v e [= <-]. reflexivity.
  - constructor.
  - reflexivity.
  - split; [reflexivity |]. exists 3, 2. repeat split; [discriminate | lia].
Defined.

Lemma Find_MaxTime_witness :
  In (mkElem "maxTimeMS" (Int64 0)) (Opts (sentBy [limitedOptions])).
Proof.
  apply (Find_MaxTime (testEnv 7) findCmd [limitedOptions]
           (sentBy [limitedOptions])) with (d := 500000).
  - intros key v e [= <-]. reflexivity.
  - constructor.
  - reflexivity.
  - reflexivity.
  - unfold Millisecond. lia.
Defined.

End find_props.

(** ** core/dispatch: [DropIndexes] *)
Module dropindexes.
Import bson.

Section DropIndexes.
(** The types of the collaborators: selected servers, connections, sessions,
    namespaces, and the reply of the server. *)
Context {SelectedServer Connection Session Namespace Raw : Type}.

Notation M := dispatch.M.
Notation ret := dispatch.ret.
Notation bind := dispatch.bind.
Notation lift := dispatch.lift.
Notation get := dispatch.get.
Notation put := dispatch.put.
Notation Description := dispatch.Description.
Notation Millisecond := dispatch.Millisecond.

Notation "x <- m ;; k" := (bind m (fun x => k))
  (at level 100, m at next level, right associativity).
Notation "m ;;; k" := (bind m (fun _ => k))
  (at level 100, right associativity).

(** [options.DropIndexesOptions] *)
Record DropIndexesOptions : Type := { MaxTime : option Z }.

(** The fields of [command.DropIndexes]; [DropIndexes] reads and writes the
    options and the session. *)
Record DropIndexesCmd : Type := {
  NS : Namespace;
  Index : string;
  Opts : list Elem;
  Session_ : option Session;
}.

(** The calls that leave [DropIndexes]. *)
Inductive Event : Type :=
| EvSelectServer
| EvConnection
| EvNewClientSession
| EvRoundTrip (cmd : DropIndexesCmd)
| EvEndSession (s : Session)
| EvClose.

(** The functions of other packages that [DropIndexes] calls. *)
Record Env : Type := {
  SelectServer : result SelectedServer;
  ServerDescription : SelectedServer -> Description;
  ServerConnection : SelectedServer -> result Connection;
  MergeDropIndexesOptions : list DropIndexesOptions -> DropIndexesOptions;
  SupportsSessions : bool;
  NewClientSession : result Session;
  RoundTrip : DropIndexesCmd -> Description -> Connection -> result Raw;
}.

(** The state that [DropIndexes] threads: its copy of the command (a value
    parameter) and the calls made so far. *)
Record State : Type := { cmd : DropIndexesCmd; log : list Event }.

(** A call that is recorded. *)
Definition call {A} (ev : Event) (r : result A) : M State A :=
  fun st => (r, {| cmd := cmd st; log := log st ++ [ev] |}).

(** [defer f()]: [f] runs when the function is left, however it is left, the
    calls deferred later first. *)
Definition defer {A} (ev : Event) (body : M State A) : M State A :=
  fun st =>
    let '(r, st') := body st in
    (r, {| cmd := cmd st'; log := log st' ++ [ev] |}).

(** [cmd.Opts = append(cmd.Opts, elems...)] *)
Definition appendOpts (elems : list Elem) : M State unit :=
  fun st =>
    (Ok tt,
     {| cmd := {| NS := NS (cmd st); Index := Index (cmd st);
                  Opts := Opts (cmd st) ++ elems; Session_ := Session_ (cmd st) |};
        log := log st |}).

(** [cmd.Session = s] *)
Definition setSession (s : Session) : M State unit :=
  fun st =>
    (Ok tt,
     {| cmd := {| NS := NS (cmd st); Index := Index (cmd st);
                  Opts := Opts (cmd st); Session_ := Some s |};
        log := log st |}).

Variable env : Env.

(** [return cmd.RoundTrip(ctx, ss.Description(), conn)] *)
Definition roundTrip (ss : SelectedServer) (conn : Connection) : M State Raw :=
  st <- get ;;
  call (EvRoundTrip (cmd st))
    (RoundTrip env (cmd st) (ServerDescription env ss) conn).

(** [func DropIndexes(ctx, cmd, topo, selector, clientID, pool, opts...)
    (bson.Raw, error)].  The session is deferred to be ended inside the
    branch that starts it, with the session just started as the receiver. *)
Definition DropIndexes (opts : list DropIndexesOptions) : M State Raw :=
  ss <- call EvSelectServer (SelectServer env) ;;
  conn <- call EvConnection (ServerConnection env ss) ;;
  defer EvClose (
    let dio := MergeDropIndexesOptions env opts in
    match MaxTime dio with
    | Some d => appendOpts [mkElem "maxTimeMS" (Int64 (Z.quot d Millisecond))]
    | None => ret tt
    end ;;;
    st <- get ;;
    match Session_ (cmd st) with
    | None =>
        if SupportsSessions env then
          s <- call EvNewClientSession (NewClientSession env) ;;
          setSession s ;;;
          defer (EvEndSession s) (roundTrip ss conn)
        else roundTrip ss conn
    | Some _ => roundTrip ss conn
    end).

(** [DropIndexes] called with the command [c]. *)
Definition runDropIndexes (c : DropIndexesCmd) (opts : list DropIndexesOptions)
  : result Raw * State :=
  DropIndexes opts {| cmd := c; log := [] |}.

(** The command with the element of [MaxTime] appended and, when one was
    started, the implicit session. *)
Definition prepared (c : DropIndexesCmd) (opts : list DropIndexesOptions)
  (s : option Session) : DropIndexesCmd :=
  {| NS := NS c; Index := Index c;
     Opts := Opts c ++
             match MaxTime (MergeDropIndexesOptions env opts) with
             | Some d => [mkElem "maxTimeMS" (Int64 (Z.quot d Millisecond))]
             | None => []
             end;
     Session_ := match s with Some s => Some s | None => Session_ c end |}.

(** Every way [DropIndexes] runs: what it returns and the calls it makes, in
    order. *)
Lemma runDropIndexes_cases (c : DropIndexesCmd) (opts : list DropIndexesOptions) :
  let '(r, st) := runDropIndexes c opts in
  match SelectServer env with
  | Ok ss =>
      match ServerConnection env ss with
      | Ok conn =>
          match Session_ c, SupportsSessions env with
          | None, true =>
              match NewClientSession env with
              | Ok s =>
                  let sent := prepared c opts (Some s) in
                  r = RoundTrip env sent (ServerDescription env ss) conn /\
                  log st = [EvSelectServer; EvConnection; EvNewClientSession;
                            EvRoundTrip sent; EvEndSession s; EvClose]
              | Failed e =>
                  r = Failed e /\
                  log st = [EvSelectServer; EvConnection; EvNewClientSession; EvClose]
              | Panic =>
                  r = Panic /\
                  log st = [EvSelectServer; EvConnection; EvNewClientSession; EvClose]
              end
          | _, _ =>
              let sent := prepared c opts None in
              r = RoundTrip env sent (ServerDescription env ss) conn /\
              log st = [EvSelectServer; EvConnection; EvRoundTrip sent; EvClose]
          end
      | Failed e => r = Failed e /\ log st = [EvSelectServer; EvConnection]
      | Panic => r = Panic /\ log st = [EvSelectServer; EvConnection]
      end
  | Failed e => r = Failed e /\ log st = [EvSelectServer]
  | Panic => r = Panic /\ log st = [EvSelectServer]
  end.
Proof.
  unfold runDropIndexes, DropIndexes, roundTrip, prepared, call, defer, appendOpts,
    setSession, dispatch.bind, dispatch.get, dispatch.ret.
  destruct c as [ns index options session]. cbn [cmd log].
  destruct (SelectServer env) as [ss | e | ]; [| split; reflexivity ..].
  destruct (ServerConnection env ss) as [conn | e | ]; [| split; reflexivity ..].
  destruct (MaxTime (MergeDropIndexesOptions env opts)) as [d |];
    cbn [cmd log Session_ Opts NS Index]; rewrite ?app_nil_r;
    (destruct session as [s0 |]; [split; reflexivity |]);
    (destruct (SupportsSessions env); [| split; reflexivity]);
    destruct (NewClientSession env) as [s | e | ]; cbn; split; reflexivity.
Qed.

Ltac in_events H :=
  cbn in H; repeat destruct H as [H | H]; try discriminate H; try contradiction.

Ltac no_round_trip :=
  split; [intros sent Hin; in_events Hin | discriminate].

Ltac round_trip Hr Econn :=
  split;
  [ intros sent Hin; in_events Hin; injection Hin as <-;
    eexists _, _; repeat split; [exact Econn | exact Hr]
  | intros Hnone; exfalso; eapply Hnone; cbn; eauto 10 ].

Ltac no_events :=
  repeat (first [ split | intro ]); try discriminate;
  first
    [ match goal with
      | H : In _ _ |- _ => in_events H
      | H : _ = _ |- _ => discriminate H
      end
    | congruence ].

(** X16.  [DropIndexes] releases what it takes.  A connection that was acquired is
    closed by the last call.  An implicit session that was started is ended
    once, after the round trip and before the connection is closed, also
    when the round trip fails or panics, and the command sent carries it.
    With an explicit session no session is started and none is ended.  No
    session is ended but the implicit one. *)
Theorem DropIndexes_releases (c : DropIndexesCmd) (opts : list DropIndexesOptions) :
  let events := log (snd (runDropIndexes c opts)) in
  (forall ss conn,
     SelectServer env = Ok ss -> ServerConnection env ss = Ok conn ->
     last events = Some EvClose) /\
  (forall s,
     NewClientSession env = Ok s -> In EvNewClientSession events ->
     exists sent,
       Session_ sent = Some s /\
       events = [EvSelectServer; EvConnection; EvNewClientSession;
                 EvRoundTrip sent; EvEndSession s; EvClose]) /\
  (forall s0,
     Session_ c = Some s0 ->
     ~ In EvNewClientSession events /\ forall s, ~ In (EvEndSession s) events) /\
  (forall s,
     In (EvEndSession s) events ->
     Session_ c = None /\ SupportsSessions env = true /\
     NewClientSession env = Ok s).
Proof.
  cbv zeta. pose proof (runDropIndexes_cases c opts) as Hcases.
  destruct (runDropIndexes c opts) as [r st]. cbn [snd].
  destruct (SelectServer env) as [ss | e | ]; cycle 1.
  { destruct Hcases as [_ ->]. no_events. }
  { destruct Hcases as [_ ->]. no_events. }
  destruct (ServerConnection env ss) as [conn | e | ] eqn:Econn; cycle 1.
  { destruct Hcases as [_ ->]. no_events. }
  { destruct Hcases as [_ ->]. no_events. }
  destruct (Session_ c) as [s0 |] eqn:Esess.
  - destruct Hcases as [_ ->]. split; [reflexivity |].
    split; [intros s _ Hin; in_events Hin |].
    split; [| intros s Hin; in_events Hin].
    intros s1 _. split; [intros Hin; in_events Hin |].
    intros s Hin; in_events Hin.
  - destruct (SupportsSessions env).
    + destruct (NewClientSession env) as [s | e | ].
      * cbv zeta in Hcases. destruct Hcases as [_ ->].
        split; [reflexivity |]. split.
        { intros s' [= <-] _. eexists. split; [| reflexivity]. reflexivity. }
        split; [discriminate |].
        intros s' Hin. in_events Hin. injection Hin as <-. auto.
      * destruct Hcases as [_ ->]. split; [reflexivity |].
        split; [discriminate |]. split; [discriminate |].
        intros s' Hin. in_events Hin.
      * destruct Hcases as [_ ->]. split; [reflexivity |].
        split; [discriminate |]. split; [discriminate |].
        intros s' Hin. in_events Hin.
    + destruct Hcases as [_ ->]. split; [reflexivity |].
      split; [intros s _ Hin; in_events Hin |]. split; [discriminate |].
      intros s' Hin. in_events Hin.
Qed.

(** X17.  [DropIndexes] returns a reply only when it called [RoundTrip], and then
    it returns what [RoundTrip] returned for the command it sent: the command
    of the caller, its options followed by [maxTimeMS] when the merged
    options set [MaxTime] (in whole milliseconds, rounded toward zero) and by
    nothing else. *)
Theorem DropIndexes_returns_what_RoundTrip_returns
  (c : DropIndexesCmd) (opts : list DropIndexesOptions) :
  let run := runDropIndexes c opts in
  (forall sent,
     In (EvRoundTrip sent) (log (snd run)) ->
     exists ss conn,
       SelectServer env = Ok ss /\ ServerConnection env ss = Ok conn /\
       fst run = RoundTrip env sent (ServerDescription env ss) conn /\
       NS sent = NS c /\ Index sent = Index c /\
       Opts sent
       = Opts c ++
         match MaxTime (MergeDropIndexesOptions env opts) with
         | Some d => [mkElem "maxTimeMS" (Int64 (Z.quot d Millisecond))]
         | None => []
         end) /\
  ((forall sent, ~ In (EvRoundTrip sent) (log (snd run))) ->
   forall raw, fst run <> Ok raw).
Proof.
  cbv zeta. pose proof (runDropIndexes_cases c opts) as Hcases.
  destruct (runDropIndexes c opts) as [r st]. cbn [fst snd].
  destruct (SelectServer env) as [ss | e | ]; cycle 1.
  { destruct Hcases as [-> ->]. no_round_trip. }
  { destruct Hcases as [-> ->]. no_round_trip. }
  destruct (ServerConnection env ss) as [conn | e | ] eqn:Econn; cycle 1.
  { destruct Hcases as [-> ->]. no_round_trip. }
  { destruct Hcases as [-> ->]. no_round_trip. }
  destruct (Session_ c) as [s0 |] eqn:Esess;
    [| destruct (SupportsSessions env);
       [destruct (NewClientSession env) as [s | e | ] |]];
    cbv zeta in Hcases; destruct Hcases as [Hr Hlog]; rewrite Hlog.
  - round_trip Hr Econn.
  - round_trip Hr Econn.
  - subst r. no_round_trip.
  - subst r. no_round_trip.
  - round_trip Hr Econn.
Qed.

End DropIndexes.

(** *** Running [DropIndexes] *)

(** A deployment that supports sessions; sessions are numbers, the implicit
    session is number 7, and the server replies with the number of options
    it was sent. *)
Definition testEnv : @Env unit unit nat string nat :=
  {| SelectServer := Ok tt;
     ServerDescription := fun _ => {| dispatch.WireVersion := None |};
     ServerConnection := fun _ => Ok tt;
     MergeDropIndexesOptions := fun opts =>
       fold_left (fun dio opt =>
                    match MaxTime opt with
                    | Some d => {| MaxTime := Some d |}
                    | None => dio
                    end) opts {| MaxTime := None |};
     SupportsSessions := true;
     NewClientSession := Ok 7%nat;
     RoundTrip := fun c _ _ => Ok (length (Opts c)) |}.

Definition dropName : @DropIndexesCmd nat string :=
  {| NS := "db.coll"; Index := "name_1"; Opts := []; Session_ := None |}.

Example runDropIndexes_implicit_session :
  runDropIndexes testEnv dropName [{| MaxTime := Some 1500000 |}]
  = (Ok 1%nat,
     let sent := {| NS := "db.coll"; Index := "name_1";
                    Opts := [mkElem "maxTimeMS" (Int64 1)];
                    Session_ := Some 7%nat |} in
     {| cmd := sent;
        log := [EvSelectServer; EvConnection; EvNewClientSession;
                EvRoundTrip sent; EvEndSession 7%nat; EvClose] |}).
Proof. vm_compute. reflexivity. Qed.

Lemma DropIndexes_releases_witness :
  last (log (snd (runDropIndexes testEnv dropName []))) = Some EvClose.
Proof.
  exact (proj1 (DropIndexes_releases testEnv dropName []) tt tt eq_refl eq_refl).
Defined.

Lemma DropIndexes_returns_what_RoundTrip_returns_witness :
  exists ss conn,
    SelectServer testEnv = Ok ss /\ ServerConnection testEnv ss = Ok conn /\
    fst (runDropIndexes testEnv dropName []) = Ok 0%nat.
Proof.
  destruct (proj1 (DropIndexes_returns_what_RoundTrip_returns testEnv dropName [])
              {| NS := "db.coll"; Index := "name_1"; Opts := [];
                 Session_ := Some 7%nat |})
    as (ss & conn & Hss & Hconn & Hrun & _).
  - vm_compute. auto.
  - exists ss, conn. repeat split; assumption.
Defined.

End dropindexes.

(** ** mongo: the helpers that prepare documents and pipelines *)
Module mongo_helpers.
Import bson.

Section Helpers.
(** [bsoncodec.Registry], [bson.D] and the values of the other types that a
    caller can pass as [interface{}]. *)
Context {Registry D Other : Type}.

(** The values behind [interface{}] that the helpers tell apart by type: nil,
    [bson.Doc], a byte slice, [bson.Raw], [mongo.Pipeline] (a slice of
    [bson.D]), [bson.Arr], a slice of [bson.Doc], a slice of [interface{}],
    [bson.D], and the rest. *)
Inductive Iface : Type :=
| INil
| IDoc (doc : Doc)
| IBytes (bs : list byte)
| IRaw (bs : list byte)
| IPipeline (t : list D)
| IArr (t : Arr)
| IDocs (t : list Doc)
| ISlice (t : list Iface)
| ID (d : D)
| IOther (o : Other).

(** The errors of the helpers: [MarshalError{Value, Err}], and the errors of
    other packages. *)
Inductive Error : Type :=
| MarshalError (Value : Iface) (Err : error)
| Plain (e : error).

(** What the helpers call: [bson.NewRegistryBuilder().Build()],
    [bson.MarshalAppendWithRegistry] and [bson.ReadDoc]. *)
Variable newRegistry : Registry.
Variable MarshalAppendWithRegistry :
  Registry -> list byte -> Iface -> list byte * option error.
Variable ReadDoc : list byte -> Doc * option error.

(** [func transformDocument(registry *bsoncodec.Registry, val interface{})
    (bson.Doc, error)]; a nil document is the empty list, and [doc.Copy()]
    is the document. *)
Definition transformDocument (registry : option Registry) (val : Iface)
  : Doc * option Error :=
  let registry := match registry with Some r => r | None => newRegistry end in
  match val with
  | INil => ([], None)
  | IDoc doc => (doc, None)
  | _ =>
      let val := match val with IBytes bs => IRaw bs | _ => val end in
      let '(b, err) := MarshalAppendWithRegistry registry [] val in
      match err with
      | Some err => ([], Some (MarshalError val err))
      | None =>
          let '(doc, err) := ReadDoc b in
          (doc, option_map Plain err)
      end
  end.

(** The loop [for _, val := range t] of [transformAggregatePipeline] over
    values that go through [transformDocument], with the array built so
    far. *)
Fixpoint transformEach (registry : option Registry) (t : list Iface)
  (pipelineArr : Arr) : Arr * option Error :=
  match t with
  | [] => (pipelineArr, None)
  | val :: tl =>
      let '(doc, err) := transformDocument registry val in
      match err with
      | Some err => ([], Some err)
      | None => transformEach registry tl (pipelineArr ++ [Document doc])
      end
  end.

(** [func transformAggregatePipeline(registry *bsoncodec.Registry,
    pipeline interface{}) (bson.Arr, error)] *)
Definition transformAggregatePipeline (registry : option Registry)
  (pipeline : Iface) : Arr * option Error :=
  match pipeline with
  | IPipeline t => transformEach registry (map ID t) []
  | IArr t => (t, None)
  | IDocs t => (fold_left (fun pipelineArr doc => pipelineArr ++ [Document doc]) t [],
                None)
  | ISlice t => transformEach registry t []
  | _ =>
      let '(p, err) := transformDocument registry pipeline in
      match err with
      | Some err => ([], Some err)
      | None =>
          (fold_left (fun pipelineArr elem => pipelineArr ++ [Value elem]) p [], None)
      end
  end.

(** [options.CountOptions]: the fields that the pipeline reads. *)
Record CountOptions : Type := { Skip : option Z; Limit : option Z }.

(** [func countDocumentsAggregatePipeline(registry, filter, opts)
    (bson.Arr, error)] *)
Definition countDocumentsAggregatePipeline (registry : option Registry)
  (filter : Iface) (opts : option CountOptions) : Arr * option Error :=
  let pipeline : Arr := [] in
  let '(filterDoc, err) := transformDocument registry filter in
  match err with
  | Some err => ([], Some err)
  | None =>
      let pipeline :=
        pipeline ++ [Document [mkElem "$match" (Document filterDoc)]] in
      let pipeline :=
        match opts with
        | Some opts =>
            let pipeline :=
              match Skip opts with
              | Some skip => pipeline ++ [Document [mkElem "$skip" (Int64 skip)]]
              | None => pipeline
              end in
            match Limit opts with
            | Some limit => pipeline ++ [Document [mkElem "$limit" (Int64 limit)]]
            | None => pipeline
            end
        | None => pipeline
        end in
      (pipeline ++
       [Document
          [mkElem "$group"
             (Document [mkElem "_id" Null;
                        mkElem "n" (Document [mkElem "$sum" (Int32 1)])])]],
       None)
  end.

(** [func ensureDollarKey(doc bson.Doc) error] *)
Definition ensureDollarKey (doc : Doc) : option error :=
  match doc with
  | e :: _ =>
      if negb (String.prefix "$" (Key e))
      then Some (ErrOther "update document must contain key beginning with '$'")
      else None
  | [] => None
  end.

(** What [ensureID] returns as the id: the element found, or the object id
    it made. *)
Inductive ID_ : Type :=
| IDElem (elem : Elem)
| IDObjectID (oid : list byte).

(** [bson.Doc.LookupElementErr(key)]: the element and a nil error, or a zero
    element and an error. *)
Variable LookupElementErr : Doc -> string -> Elem * option error.

(** [func ensureID(d bson.Doc) (bson.Doc, interface{})]; [oid] is what
    [objectid.New()] returns when it is called. *)
Definition ensureID (d : Doc) (oid : list byte) : Doc * ID_ :=
  let '(elem, err) := LookupElementErr d "_id" in
  match err with
  | None => (d, IDElem elem)
  | Some _ => (d ++ [mkElem "_id" (ObjectID oid)], IDObjectID oid)
  end.

(** *** [transformAggregatePipeline] *)

Lemma transformEach_ok (registry : option Registry) (t : list Iface) :
  forall pipelineArr : Arr,
    Forall (fun val => snd (transformDocument registry val) = None) t ->
    transformEach registry t pipelineArr
    = (pipelineArr
       ++ map (fun val => Document (fst (transformDocument registry val))) t,
       None).
Proof.
  induction t as [| val tl IH]; intros pipelineArr Hall; cbn [transformEach map].
  - rewrite app_nil_r. reflexivity.
  - apply Forall_cons in Hall as [Hval Htl].
    destruct (transformDocument registry val) as [doc err]. cbn [fst snd] in *.
    subst err. rewrite IH by exact Htl. rewrite <- app_assoc. reflexivity.
Qed.

Lemma transformEach_fail (registry : option Registry) (pre : list Iface) :
  forall (pipelineArr : Arr) (val : Iface) (post : list Iface) (err : Error),
    Forall (fun val => snd (transformDocument registry val) = None) pre ->
    snd (transformDocument registry val) = Some err ->
    transformEach registry (pre ++ val :: post) pipelineArr = ([], Some err).
Proof.
  induction pre as [| v pre IH]; intros pipelineArr val post err Hall Hval;
    cbn [transformEach app].
  - destruct (transformDocument registry val) as [doc e]. cbn [snd] in Hval.
    subst e. reflexivity.
  - apply Forall_cons in Hall as [Hv Hpre].
    destruct (transformDocument registry v) as [doc e]. cbn [snd] in Hv. subst e.
    apply IH; assumption.
Qed.

Lemma fold_left_snoc {A B} (f : A -> B) (l : list A) :
  forall acc : list B,
    fold_left (fun acc a => acc ++ [f a]) l acc = acc ++ map f l.
Proof.
  induction l as [| a l IH]; intros acc; cbn [fold_left map].
  - rewrite app_nil_r. reflexivity.
  - rewrite IH, <- app_assoc. reflexivity.
Qed.

(** X18.  The stages of a pipeline given as a slice of [interface{}] or as a
    [Pipeline]: every stage goes through [transformDocument], and the array
    holds the documents in the order of the stages, none skipped; the first
    stage that fails gives the error, and then no array is returned.  A
    pipeline given as a [bson.Arr] or as a slice of [bson.Doc] is taken as it
    is, without an error.  A pipeline given as one [bson.Doc] becomes the
    array of the values of its elements, without their keys, and a nil
    pipeline the empty array. *)
Theorem transformAggregatePipeline_stages (registry : option Registry) :
  let ok := fun val => snd (transformDocument registry val) = None in
  let stage := fun val => Document (fst (transformDocument registry val)) in
  (forall t,
     Forall ok t ->
     transformAggregatePipeline registry (ISlice t) = (map stage t, None)) /\
  (forall t,
     Forall ok (map ID t) ->
     transformAggregatePipeline registry (IPipeline t)
     = (map stage (map ID t), None)) /\
  (forall pre val post err,
     Forall ok pre -> snd (transformDocument registry val) = Some err ->
     transformAggregatePipeline registry (ISlice (pre ++ val :: post))
     = ([], Some err)) /\
  (forall pre d post err,
     Forall ok (map ID pre) -> snd (transformDocument registry (ID d)) = Some err ->
     transformAggregatePipeline registry (IPipeline (pre ++ d :: post))
     = ([], Some err)) /\
  (forall t, transformAggregatePipeline registry (IArr t) = (t, None)) /\
  (forall t, transformAggregatePipeline registry (IDocs t) = (map Document t, None)) /\
  (forall doc, transformAggregatePipeline registry (IDoc doc) = (map Value doc, None)) /\
  transformAggregatePipeline registry INil = ([], None).
Proof.
  cbv zeta. repeat split.
  - intros t Hall. cbn [transformAggregatePipeline].
    rewrite transformEach_ok by exact Hall. reflexivity.
  - intros t Hall. cbn [transformAggregatePipeline].
    rewrite transformEach_ok by exact Hall. reflexivity.
  - intros pre val post err Hall Hval. cbn [transformAggregatePipeline].
    apply transformEach_fail; assumption.
  - intros pre d post err Hall Hval. cbn [transformAggregatePipeline].
    rewrite map_app. cbn [map]. apply transformEach_fail; assumption.
  - intros t. cbn [transformAggregatePipeline]. rewrite fold_left_snoc. reflexivity.
  - intros doc. cbn [transformAggregatePipeline transformDocument].
    rewrite fold_left_snoc. reflexivity.
Qed.

(** *** [countDocumentsAggregatePipeline] *)

(** The stage [{key: n}] when [n] is set. *)
Definition stageOf (key : string) (n : option Z) : Arr :=
  match n with
  | Some n => [Document [mkElem key (Int64 n)]]
  | None => []
  end.

(** X19.  The pipeline of [CountDocuments] fails exactly when the filter cannot be
    transformed, with that error.  Otherwise it starts with the stage
    [$match] of the transformed filter, ends with the stage [$group] that
    sums 1 under the null id, and holds between them the stage [$skip] when
    a skip is set and then the stage [$limit] when a limit is set, the skip
    before the limit; nil options are options that set nothing. *)
Theorem countDocumentsAggregatePipeline_stages
  (registry : option Registry) (filter : Iface) (opts : option CountOptions) :
  let skip := match opts with Some opts => Skip opts | None => None end in
  let limit := match opts with Some opts => Limit opts | None => None end in
  match transformDocument registry filter with
  | (filterDoc, None) =>
      countDocumentsAggregatePipeline registry filter opts
      = ([Document [mkElem "$match" (Document filterDoc)]]
         ++ stageOf "$skip" skip ++ stageOf "$limit" limit
         ++ [Document
               [mkElem "$group"
                  (Document [mkElem "_id" Null;
                             mkElem "n" (Document [mkElem "$sum" (Int32 1)])])]],
         None) /\
      (2 <= length (fst (countDocumentsAggregatePipeline registry filter opts)) <= 4)%nat
  | (_, Some err) =>
      countDocumentsAggregatePipeline registry filter opts = ([], Some err)
  end.
Proof.
  cbv zeta. unfold countDocumentsAggregatePipeline.
  destruct (transformDocument registry filter) as [filterDoc [err |]];
    [reflexivity |].
  destruct opts as [[[skip |] [limit |]] |]; cbn; split; try reflexivity; lia.
Qed.

(** *** [ensureDollarKey] *)

(** X20.  An update document is accepted when it is empty, and otherwise exactly
    when its first key begins with a dollar sign: the keys after the first
    are not looked at. *)
Theorem ensureDollarKey_first_key (e : Elem) (rest : Doc) :
  ensureDollarKey [] = None /\
  ensureDollarKey (e :: rest) = ensureDollarKey [e] /\
  (ensureDollarKey (e :: rest) = None <-> exists tl, Key e = String.String "$" tl).
Proof.
  split; [reflexivity |]. split; [reflexivity |].
  cbn [ensureDollarKey]. destruct (Key e) as [| ch tl].
  - cbn. split; [intros H; discriminate H | intros [tl' Htl]; discriminate Htl].
  - change (String.prefix "$" (String.String ch tl))
      with (if Ascii.ascii_dec "$" ch then String.prefix EmptyString tl else false).
    destruct (Ascii.ascii_dec "$" ch) as [<- | Hne].
    + replace (String.prefix EmptyString tl) with true
        by (destruct tl; reflexivity).
      cbn. split; [intros _; eexists; reflexivity | reflexivity].
    + cbn. split; [intros H; discriminate H |].
      intros [tl' Htl]. injection Htl as Hch _. congruence.
Qed.

(** *** [ensureID] *)

(** The document holds an element with the key [_id]. *)
Definition hasID (d : Doc) : Prop := exists e, In e d /\ Key e = "_id".

Section Lookup.
(** [LookupElementErr] finds an element of the document with the key it is
    asked for, and fails only when the document holds none. *)
Hypothesis LookupElementErr_found :
  forall d key e, LookupElementErr d key = (e, None) -> In e d /\ Key e = key.
Hypothesis LookupElementErr_missing :
  forall d key e err,
    LookupElementErr d key = (e, Some err) -> Forall (fun e => Key e <> key) d.

(** X21.  When [LookupElementErr] finds an element exactly when the document holds
    one with the key, the document that [ensureID] returns holds an [_id]:
    it is the document given when that holds one, and the id returned is then
    the whole element found (key and value); otherwise it is the document
    given followed by one element [_id] with the new object id, which is the
    id returned.  Calling [ensureID] on its result changes nothing. *)
Theorem ensureID_has_id (d : Doc) (oid oid' : list byte) :
  let d' := fst (ensureID d oid) in
  hasID d' /\
  (hasID d -> d' = d /\ exists e, snd (ensureID d oid) = IDElem e /\
                                  In e d /\ Key e = "_id") /\
  (~ hasID d -> d' = d ++ [mkElem "_id" (ObjectID oid)] /\
                snd (ensureID d oid) = IDObjectID oid) /\
  ensureID d' oid' = (d', snd (ensureID d' oid')) /\
  fst (ensureID d' oid') = d'.
Proof.
  cbv zeta. unfold ensureID.
  destruct (LookupElementErr d "_id") as [elem [err |]] eqn:Elook; cbn [fst snd].
  - pose proof (LookupElementErr_missing _ _ _ _ Elook) as Hnone.
    assert (Hno : ~ hasID d).
    { intros (e & Hin & Hkey). apply Forall_forall with (x := e) in Hnone.
      - contradiction.
      - apply list_elem_of_In. exact Hin. }
    assert (Hhas : hasID (d ++ [mkElem "_id" (ObjectID oid)])).
    { exists (mkElem "_id" (ObjectID oid)). split; [| reflexivity].
      apply in_or_app. right. left. reflexivity. }
    split; [exact Hhas |]. split; [intros Hd; contradiction |].
    split; [auto |].
    destruct (LookupElementErr (d ++ [mkElem "_id" (ObjectID oid)]) "_id")
      as [elem' [err' |]] eqn:Elook'; cbn [fst snd]; [| auto].
    exfalso. pose proof (LookupElementErr_missing _ _ _ _ Elook') as Hnone'.
    destruct Hhas as (e & Hin & Hkey).
    apply Forall_forall with (x := e) in Hnone'; [contradiction |].
    apply list_elem_of_In. exact Hin.
  - destruct (LookupElementErr_found _ _ _ Elook) as [Hin Hkey].
    assert (Hhas : hasID d) by (exists elem; auto).
    split; [exact Hhas |]. split; [intros _; split; [reflexivity | eauto] |].
    split; [intros Hno; contradiction |].
    rewrite Elook. cbn [fst snd]. auto.
Qed.

End Lookup.

End Helpers.

Arguments Iface D Other : clear implicits.

(** *** Running the helpers *)

(** A lookup that returns the first element with the key. *)
Fixpoint lookupFirst (d : Doc) (key : string) : Elem * option error :=
  match d with
  | [] => (mkElem "" Null, Some (ErrOther "key not found"))
  | e :: tl => if String.eqb (Key e) key then (e, None) else lookupFirst tl key
  end.

Lemma lookupFirst_found (d : Doc) (key : string) (e : Elem) :
  lookupFirst d key = (e, None) -> In e d /\ Key e = key.
Proof.
  induction d as [| e0 tl IH]; cbn [lookupFirst]; [discriminate |].
  destruct (String.eqb (Key e0) key) eqn:Ekey.
  - intros [= <-]. apply String.eqb_eq in Ekey. split; [left; reflexivity | exact Ekey].
  - intros Hlook. destruct (IH Hlook) as [Hin Hkey]. split; [right; exact Hin | exact Hkey].
Qed.

Lemma lookupFirst_missing (d : Doc) (key : string) (e : Elem) (err : error) :
  lookupFirst d key = (e, Some err) -> Forall (fun e => Key e <> key) d.
Proof.
  induction d as [| e0 tl IH]; cbn [lookupFirst]; [constructor |].
  destruct (String.eqb (Key e0) key) eqn:Ekey; [discriminate |].
  intros Hlook. constructor; [| exact (IH Hlook)].
  apply String.eqb_neq. exact Ekey.
Qed.

(** A document without an [_id], and one with an [_id] in second place. *)
Definition plainDoc : Doc := [mkElem "x" (Int32 1)].
Definition docWithID : Doc := [mkElem "x" (Int32 1); mkElem "_id" (Int32 7)].

Example ensureID_plainDoc :
  ensureID lookupFirst plainDoc [1; 2; 3]
  = ([mkElem "x" (Int32 1); mkElem "_id" (ObjectID [1; 2; 3])], IDObjectID [1; 2; 3]).
Proof. reflexivity. Qed.

Lemma ensureID_has_id_witness :
  hasID (fst (ensureID lookupFirst plainDoc [1; 2; 3])) /\
  fst (ensureID lookupFirst docWithID [1; 2; 3]) = docWithID.
Proof.
  split.
  - apply (ensureID_has_id lookupFirst lookupFirst_found lookupFirst_missing
             plainDoc [1; 2; 3] [4; 5; 6]).
  - apply (ensureID_has_id lookupFirst lookupFirst_found lookupFirst_missing
             docWithID [1; 2; 3] [4; 5; 6]).
Defined.

(** A codec that knows no type: only nil and [bson.Doc] are transformed. *)
Definition noCodec : unit -> list byte -> Iface Doc unit -> list byte * option error :=
  fun _ _ _ => ([], Some (ErrOther "no encoder found")).

Definition readNothing : list byte -> Doc * option error := fun _ => ([], None).

Lemma transformAggregatePipeline_stages_witness :
  transformAggregatePipeline tt noCodec readNothing None
    (ISlice [INil; IDoc plainDoc])
  = ([Document []; Document plainDoc], None) /\
  transformAggregatePipeline tt noCodec readNothing None
    (ISlice [IDoc plainDoc; IOther tt; INil])
  = ([], Some (MarshalError (IOther tt) (ErrOther "no encoder found"))).
Proof.
  pose proof (transformAggregatePipeline_stages tt noCodec readNothing None)
    as Hstages.
  cbv zeta in Hstages. destruct Hstages as (Hok & _ & Hfail & _).
  split.
  - apply (Hok [INil; IDoc plainDoc]). repeat constructor.
  - apply (Hfail [IDoc plainDoc] (IOther tt) [INil]); [repeat constructor | reflexivity].
Defined.

End mongo_helpers.

(** ** mongo/collection.go: [InsertMany] *)
Module collection_many.
Import collection.

Section InsertMany.
Context {Iface SelectedServer Namespace WriteConcern Options DeleteResult : Type}.

Notation Env :=
  (collection.Env Iface SelectedServer Namespace WriteConcern Options DeleteResult).
Notation Collection := (@collection.Collection Namespace WriteConcern).
Notation Op := (@collection.Op Iface SelectedServer Namespace WriteConcern Options).
Notation Ran := (@collection.Ran Iface SelectedServer Namespace WriteConcern Options).

(** [type InsertManyResult struct { InsertedIDs []interface{} }]; an element
    that was not set is the nil interface. *)
Record InsertManyResult : Type := { InsertedIDs : list (option Iface) }.

Variable env : Env.

(** The loop [for i, doc := range documents] of [InsertMany], with [n]
    rounds left: it reads and writes the slice of the caller, and fills
    [result]. *)
Fixpoint insertManyLoop (n i : nat) (documents : list Iface)
  (result : list (option Iface))
  : list Iface * list (option Iface) * option error :=
  match n with
  | O => (documents, result, None)
  | S n' =>
      match documents !! i with
      | None => (documents, result, None)
      | Some doc =>
          let '(docWithID, insertedID, e) := getOrInsertID env doc in
          match e with
          | Some e => (documents, result, Some e)
          | None =>
              insertManyLoop n' (S i) (<[i := docWithID]> documents)
                (<[i := Some insertedID]> result)
          end
      end
  end.

(** [func (coll *Collection) InsertMany(ctx, documents, options...)], which
    returns a pointer to an [InsertManyResult] and an error; the second
    component is the slice of the caller as the call leaves it. *)
Definition InsertMany (coll : Collection) (documents : list Iface) (options : Options)
  : Ran InsertManyResult * list Iface :=
  let result := replicate (length documents) None in
  let '(documents, result, e) :=
    insertManyLoop (length documents) 0 documents result in
  match e with
  | Some e =>
      ({| returned := None; err := Some e; called := []; spawned := [] |}, documents)
  | None =>
      let '(s, e) := getWriteableServer env coll in
      match e with
      | Some e =>
          ({| returned := None; err := Some e; called := []; spawned := [] |},
           documents)
      | None =>
          let insert :=
            OpInsert s (namespace coll) (writeConcern coll) documents options in
          if negb (Acknowledged env (writeConcern coll)) then
            ({| returned := None; err := None; called := []; spawned := [insert] |},
             documents)
          else
            match opsInsert env insert with
            | Some e =>
                ({| returned := None; err := Some e; called := [insert];
                    spawned := [] |}, documents)
            | None =>
                ({| returned := Some {| InsertedIDs := result |}; err := None;
                    called := [insert]; spawned := [] |}, documents)
            end
      end
  end.

(** What [getOrInsertID] makes of a document. *)
Definition withID (doc : Iface) : Iface := fst (fst (getOrInsertID env doc)).
Definition idOf (doc : Iface) : Iface := snd (fst (getOrInsertID env doc)).
Definition prepares (doc : Iface) : Prop := snd (getOrInsertID env doc) = None.

Lemma insertManyLoop_ok (rest : list Iface) :
  forall (done : list Iface) (ids : list (option Iface)),
    length ids = length done ->
    Forall prepares rest ->
    insertManyLoop (length rest) (length done) (done ++ rest)
      (ids ++ replicate (length rest) None)
    = (done ++ map withID rest, ids ++ map (fun doc => Some (idOf doc)) rest, None).
Proof.
  induction rest as [| doc rest IH]; intros done ids Hlen Hall; [reflexivity |].
  apply Forall_cons in Hall as [Hdoc Hrest].
  cbn [length insertManyLoop replicate map].
  rewrite lookup_app_r, Nat.sub_diag by lia. cbn [lookup list_lookup].
  unfold prepares, withID, idOf in *.
  destruct (getOrInsertID env doc) as [[docWithID insertedID] e] eqn:Eget.
  cbn [fst snd] in *. subst e.
  rewrite insert_app_r_alt, Nat.sub_diag by lia.
  rewrite (insert_app_r_alt ids) by lia.
  rewrite Hlen, Nat.sub_diag. cbn [insert list_insert].
  specialize (IH (done ++ [docWithID]) (ids ++ [Some insertedID])).
  rewrite !length_app in IH. cbn [length] in IH.
  rewrite <- !app_assoc in IH. cbn [app] in IH.
  replace (S (length done)) with (length done + 1)%nat by lia.
  rewrite IH by (try lia; exact Hrest).
  reflexivity.
Qed.

Lemma insertManyLoop_fail (pre : list Iface) :
  forall (done : list Iface) (ids : list (option Iface)) (bad : Iface)
    (post : list Iface) (e : error),
    length ids = length done ->
    Forall prepares pre ->
    snd (getOrInsertID env bad) = Some e ->
    insertManyLoop (length (pre ++ bad :: post)) (length done)
      (done ++ pre ++ bad :: post)
      (ids ++ replicate (length (pre ++ bad :: post)) None)
    = (done ++ map withID pre ++ bad :: post,
       ids ++ map (fun doc => Some (idOf doc)) pre
       ++ replicate (S (length post)) None,
       Some e).
Proof.
  induction pre as [| doc pre IH]; intros done ids bad post e Hlen Hall Hbad.
  - cbn [app length insertManyLoop replicate map].
    rewrite lookup_app_r, Nat.sub_diag by lia. cbn [lookup list_lookup].
    destruct (getOrInsertID env bad) as [[docWithID insertedID] e'].
    cbn [snd] in Hbad. subst e'. reflexivity.
  - apply Forall_cons in Hall as [Hdoc Hpre].
    cbn [app length insertManyLoop replicate map].
    rewrite lookup_app_r, Nat.sub_diag by lia. cbn [lookup list_lookup].
    unfold prepares, withID, idOf in *.
    destruct (getOrInsertID env doc) as [[docWithID insertedID] e'] eqn:Eget.
    cbn [fst snd] in *. subst e'.
    rewrite insert_app_r_alt, Nat.sub_diag by lia.
    rewrite (insert_app_r_alt ids) by lia.
    rewrite Hlen, Nat.sub_diag. cbn [insert list_insert].
    specialize (IH (done ++ [docWithID]) (ids ++ [Some insertedID]) bad post e).
    rewrite (length_app done), (length_app ids) in IH. cbn [length] in IH.
    rewrite <- !app_assoc in IH. cbn [app] in IH.
    replace (S (length done)) with (length done + 1)%nat by lia.
    rewrite IH by (try lia; assumption).
    reflexivity.
Qed.

(** X22.  When every document gets its id, the server is selected and the write
    concern is acknowledged, [InsertMany] runs one round trip that carries
    all the documents with their ids, in the order given, however many they
    are (none included); the slice of the caller holds the documents with
    their ids afterwards, whether the round trip succeeds or not; and on
    success the result holds one id per document, in the order of the
    documents. *)
Theorem InsertMany_acknowledged (coll : Collection) (documents : list Iface)
  (options : Options) (s : SelectedServer) :
  Forall prepares documents ->
  getWriteableServer env coll = (s, None) ->
  Acknowledged env (writeConcern coll) = true ->
  let insert :=
    OpInsert s (namespace coll) (writeConcern coll) (map withID documents) options in
  let ran := fst (InsertMany coll documents options) in
  called ran = [insert] /\ spawned ran = [] /\
  snd (InsertMany coll documents options) = map withID documents /\
  match opsInsert env insert with
  | None =>
      err ran = None /\
      returned ran
      = Some {| InsertedIDs := map (fun doc => Some (idOf doc)) documents |}
  | Some e => err ran = Some e /\ returned ran = None
  end.
Proof.
  intros Hall Hserver Hack. cbv zeta. unfold InsertMany.
  pose proof (insertManyLoop_ok documents [] [] eq_refl Hall) as Hloop.
  cbn [app length] in Hloop. rewrite Hloop, Hserver, Hack. cbn [negb].
  destruct (opsInsert env _) as [e |]; cbn; auto.
Qed.

(** X23.  When [getOrInsertID] fails on a document, [InsertMany] returns its error
    and runs no round trip, itself or in a goroutine; the documents before
    the failing one have been replaced by the documents with their ids in the
    slice of the caller, the failing one and those after it are as they
    were. *)
Theorem InsertMany_stops_at_first_failure (coll : Collection)
  (pre : list Iface) (bad : Iface) (post : list Iface) (options : Options)
  (e : error) :
  Forall prepares pre ->
  snd (getOrInsertID env bad) = Some e ->
  InsertMany coll (pre ++ bad :: post) options
  = ({| returned := None; err := Some e; called := []; spawned := [] |},
     map withID pre ++ bad :: post).
Proof.
  intros Hall Hbad. unfold InsertMany.
  pose proof (insertManyLoop_fail pre [] [] bad post e eq_refl Hall Hbad) as Hloop.
  cbn [app length] in Hloop. rewrite Hloop. reflexivity.
Qed.

End InsertMany.

(** *** Running [InsertMany] *)

(** A deployment in which the document 0 cannot get an id, the others get
    their own number as id and 100 more as the document with the id, and
    every round trip succeeds. *)
Definition pickyEnv : collection.Env nat unit string Z unit nat :=
  {| getOrInsertID := fun document =>
       if (document =? 0)%nat then (document, 0%nat, Some (ErrOther "no id"))
       else ((document + 100)%nat, document, None);
     getWriteableServer := fun _ => (tt, None);
     Acknowledged := fun w => negb (w =? 0);
     opsInsert := fun _ => None;
     opsDelete := fun _ => (0%nat, None) |}.

Example InsertMany_three :
  InsertMany pickyEnv {| namespace := "db.c"; writeConcern := 1 |} [1; 2; 3]%nat tt
  = ({| returned := Some {| InsertedIDs := [Some 1; Some 2; Some 3]%nat |};
        err := None;
        called := [OpInsert tt "db.c" 1 [101; 102; 103]%nat tt];
        spawned := [] |}, [101; 102; 103]%nat).
Proof. vm_compute. reflexivity. Qed.

Lemma InsertMany_acknowledged_witness :
  snd (InsertMany pickyEnv {| namespace := "db.c"; writeConcern := 1 |}
         [1; 2; 3]%nat tt)
  = [101; 102; 103]%nat.
Proof.
  apply (InsertMany_acknowledged pickyEnv
           {| namespace := "db.c"; writeConcern := 1 |} [1; 2; 3]%nat tt tt).
  - repeat constructor.
  - reflexivity.
  - reflexivity.
Defined.

Lemma InsertMany_stops_at_first_failure_witness :
  InsertMany pickyEnv {| namespace := "db.c"; writeConcern := 1 |}
    [1; 2; 0; 3]%nat tt
  = ({| returned := None; err := Some (ErrOther "no id"); called := [];
        spawned := [] |}, [101; 102; 0; 3]%nat).
Proof.
  apply (InsertMany_stops_at_first_failure pickyEnv
           {| namespace := "db.c"; writeConcern := 1 |} [1; 2]%nat 0%nat [3]%nat tt
           (ErrOther "no id")).
  - repeat constructor.
  - reflexivity.
Defined.

End collection_many.

(** ** mongo/collection.go: the writes that look at the first key of a document *)
Module collection_update.

Section Update.
Context {Iface Bytes SelectedServer Namespace WriteConcern Options UpdateResult : Type}.

(** The value of an element of a [bson.D]: a filter, an update, or a
    boolean. *)
Inductive DValue : Type :=
| DInterface (v : Iface)
| DBool (b : bool).

(** A call of [ops.Update], [ops.FindOneAndReplace] or
    [ops.FindOneAndUpdate], with its arguments. *)
Inductive Op : Type :=
| OpUpdate (s : SelectedServer) (ns : Namespace) (wc : WriteConcern)
    (updateDocs : list (list (string * DValue))) (options : Options)
| OpFindOneAndReplace (s : SelectedServer) (ns : Namespace) (wc : WriteConcern)
    (filter replacement result : Iface) (opts : Options)
| OpFindOneAndUpdate (s : SelectedServer) (ns : Namespace) (wc : WriteConcern)
    (filter update result : Iface) (opts : Options).

(** [type Collection struct]: the fields that the writes read. *)
Record Collection : Type := {
  namespace : Namespace;
  writeConcern : WriteConcern;
}.

(** The functions that the writes call, with Go's pairs of a value and an
    error; [bson.Unmarshal] fills a [bson.D], a slice of names and values. *)
Record Env : Type := {
  Marshal : Iface -> Bytes * option error;
  Unmarshal : Bytes -> list (string * Iface) * option error;
  getWriteableServer : Collection -> SelectedServer * option error;
  Acknowledged : WriteConcern -> bool;
  opsUpdate : Op -> UpdateResult * option error;
  opsFindOneAnd : Op -> bool * option error;
}.

(** What a call of a write method does: the value and the error it returns,
    whether it selected a server, the round trips it runs itself and waits
    for, and those it starts in a goroutine. *)
Record Ran (R : Type) : Type := {
  returned : R;
  err : option error;
  selected : bool;
  called : list Op;
  spawned : list Op;
}.
Arguments returned {R} r.
Arguments err {R} r.
Arguments selected {R} r.
Arguments called {R} r.
Arguments spawned {R} r.

Variable env : Env.

(** [return nil, err] or [return false, err] before a server is selected. *)
Definition rejected {R} (zero : R) (e : error) : Ran R :=
  {| returned := zero; err := Some e; selected := false; called := [];
     spawned := [] |}.

(** [doc[0].Name[0]]: the first byte of the first name; indexing an empty
    string panics. *)
Definition firstByte (name : string) : outcome ascii :=
  match name with
  | EmptyString => Panicked
  | String.String c _ => Returned c
  end.

(** [func (coll *Collection) updateOrReplaceOne(ctx, filter, update,
    options...)], which returns a pointer to an [UpdateResult] and an
    error. *)
Definition updateOrReplaceOne (coll : Collection) (filter update : Iface)
  (options : Options) : Ran (option UpdateResult) :=
  let updateDocs :=
    [[("q", DInterface filter); ("u", DInterface update); ("multi", DBool false)]] in
  let '(s, e) := getWriteableServer env coll in
  match e with
  | Some e =>
      {| returned := None; err := Some e; selected := true; called := [];
         spawned := [] |}
  | None =>
      let doUpdate :=
        OpUpdate s (namespace coll) (writeConcern coll) updateDocs options in
      if negb (Acknowledged env (writeConcern coll)) then
        {| returned := None; err := None; selected := true; called := [];
           spawned := [doUpdate] |}
      else
        let '(result, e) := opsUpdate env doUpdate in
        match e with
        | Some e =>
            {| returned := None; err := Some e; selected := true;
               called := [doUpdate]; spawned := [] |}
        | None =>
            {| returned := Some result; err := None; selected := true;
               called := [doUpdate]; spawned := [] |}
        end
  end.

(** [func (coll *Collection) ReplaceOne(ctx, filter, replacement,
    options...)] *)
Definition ReplaceOne (coll : Collection) (filter replacement : Iface)
  (options : Options) : outcome (Ran (option UpdateResult)) :=
  let '(bytes, e) := Marshal env replacement in
  match e with
  | Some e => Returned (rejected None e)
  | None =>
      let '(doc, e) := Unmarshal env bytes in
      match e with
      | Some e => Returned (rejected None e)
      | None =>
          obind
            match doc with
            | (name, _) :: _ =>
                obind (firstByte name) (fun c => Returned (Ascii.eqb c "$"))
            | [] => Returned false
            end
            (fun dollar =>
               if dollar : bool then
                 Returned
                   (rejected None
                      (ErrOther
                         "replacement document cannot contains keys beginning with '$"))
               else Returned (updateOrReplaceOne coll filter replacement options))
      end
  end.

(** The end of [FindOneAndReplace] and [FindOneAndUpdate], from the
    selection of the server on; both return a boolean and an error. *)
Definition findOneAnd (coll : Collection) (op : SelectedServer -> Op) : Ran bool :=
  let '(s, e) := getWriteableServer env coll in
  match e with
  | Some e =>
      {| returned := false; err := Some e; selected := true; called := [];
         spawned := [] |}
  | None =>
      if negb (Acknowledged env (writeConcern coll)) then
        {| returned := false; err := None; selected := true; called := [];
           spawned := [op s] |}
      else
        let '(found, e) := opsFindOneAnd env (op s) in
        {| returned := found; err := e; selected := true; called := [op s];
           spawned := [] |}
  end.

(** [func (coll *Collection) FindOneAndReplace(ctx, filter, replacement,
    result, opts...)] *)
Definition FindOneAndReplace (coll : Collection) (filter replacement result : Iface)
  (opts : Options) : outcome (Ran bool) :=
  let '(bytes, e) := Marshal env replacement in
  match e with
  | Some e => Returned (rejected false e)
  | None =>
      let '(doc, e) := Unmarshal env bytes in
      match e with
      | Some e => Returned (rejected false e)
      | None =>
          obind
            match doc with
            | (name, _) :: _ =>
                obind (firstByte name) (fun c => Returned (Ascii.eqb c "$"))
            | [] => Returned false
            end
            (fun dollar =>
               if dollar : bool then
                 Returned
                   (rejected false
                      (ErrOther
                         "replacement document cannot contains keys beginning with '$"))
               else
                 Returned
                   (findOneAnd coll
                      (fun s =>
                         OpFindOneAndReplace s (namespace coll) (writeConcern coll)
                           filter replacement result opts)))
      end
  end.

(** [func (coll *Collection) FindOneAndUpdate(ctx, filter, update, result,
    opts...)] *)
Definition FindOneAndUpdate (coll : Collection) (filter update result : Iface)
  (opts : Options) : outcome (Ran bool) :=
  let '(bytes, e) := Marshal env update in
  match e with
  | Some e => Returned (rejected false e)
  | None =>
      let '(doc, e) := Unmarshal env bytes in
      match e with
      | Some e => Returned (rejected false e)
      | None =>
          obind
            match doc with
            | (name, _) :: _ =>
                obind (firstByte name) (fun c => Returned (negb (Ascii.eqb c "$")))
            | [] => Returned false
            end
            (fun plain =>
               if plain : bool then
                 Returned
                   (rejected false
                      (ErrOther
                         "update document must contain key beginning with '$"))
               else
                 Returned
                   (findOneAnd coll
                      (fun s =>
                         OpFindOneAndUpdate s (namespace coll) (writeConcern coll)
                           filter update result opts)))
      end
  end.

Lemma updateOrReplaceOne_selected (coll : Collection) (filter update : Iface)
  (options : Options) :
  selected (updateOrReplaceOne coll filter update options) = true.
Proof.
  unfold updateOrReplaceOne.
  destruct (getWriteableServer env coll) as [s [e |]]; [reflexivity |].
  destruct (negb (Acknowledged env (writeConcern coll))); [reflexivity |].
  destruct (opsUpdate env _) as [result [e |]]; reflexivity.
Qed.

Lemma findOneAnd_selected (coll : Collection) (op : SelectedServer -> Op) :
  selected (findOneAnd coll op) = true.
Proof.
  unfold findOneAnd.
  destruct (getWriteableServer env coll) as [s [e |]]; [reflexivity |].
  destruct (negb (Acknowledged env (writeConcern coll))); [reflexivity |].
  destruct (opsFindOneAnd env _) as [found e]; reflexivity.
Qed.

(** The document is empty or its first name begins with a byte other than
    the dollar sign. *)
Definition plainFirst (doc : list (string * Iface)) : Prop :=
  doc = [] \/
  exists c tl v rest, doc = (String.String c tl, v) :: rest /\ c <> "$"%char.

(** The document is empty or its first name begins with a dollar sign. *)
Definition dollarFirst (doc : list (string * Iface)) : Prop :=
  doc = [] \/ exists tl v rest, doc = (String.String "$" tl, v) :: rest.

(** The first name of the document is the empty string. *)
Definition emptyFirst (doc : list (string * Iface)) : Prop :=
  exists v rest, doc = (EmptyString, v) :: rest.

Ltac first_key_cases :=
  unfold plainFirst, dollarFirst, emptyFirst;
  repeat match goal with
         | |- _ /\ _ => split
         | |- _ <-> _ => split
         | |- forall _, _ => intro
         | |- _ -> _ => intro
         | H : Returned _ = Returned _ |- _ => injection H as <-
         | H : _ \/ _ |- _ => destruct H
         | H : ex _ |- _ => destruct H
         | H : _ /\ _ |- _ => destruct H
         | H : _ :: _ = _ :: _ |- _ => injection H as ? ? ?
         | H : (_, _) = (_, _) |- _ => injection H as ? ?
         end;
  subst; cbn [rejected selected called spawned returned err] in *;
  rewrite ?updateOrReplaceOne_selected, ?findOneAnd_selected in *;
  try discriminate; try congruence; try reflexivity.

(** X24.  When the document marshals and unmarshals, the first name of the
    document decides what [ReplaceOne], [FindOneAndReplace] and
    [FindOneAndUpdate] do, whatever follows it.  Each of the three panics
    exactly when the first name is the empty string.  Otherwise
    [ReplaceOne] and [FindOneAndReplace] select a server exactly when the
    document is empty or its first name does not begin with a dollar sign,
    and [FindOneAndUpdate] exactly when the document is empty or its first
    name begins with a dollar sign; a call that selects no server returns an
    error and runs no round trip, itself or in a goroutine. *)
Theorem first_key_checks (coll : Collection) (filter v result : Iface)
  (options : Options) (bytes : Bytes) (doc : list (string * Iface)) :
  Marshal env v = (bytes, None) ->
  Unmarshal env bytes = (doc, None) ->
  (ReplaceOne coll filter v options = Panicked <-> emptyFirst doc) /\
  (FindOneAndReplace coll filter v result options = Panicked <-> emptyFirst doc) /\
  (FindOneAndUpdate coll filter v result options = Panicked <-> emptyFirst doc) /\
  (forall ran,
     ReplaceOne coll filter v options = Returned ran ->
     (selected ran = true <-> plainFirst doc) /\
     (selected ran = false ->
      err ran <> None /\ returned ran = None /\ called ran = [] /\ spawned ran = [])) /\
  (forall ran,
     FindOneAndReplace coll filter v result options = Returned ran ->
     (selected ran = true <-> plainFirst doc) /\
     (selected ran = false ->
      err ran <> None /\ returned ran = false /\ called ran = [] /\ spawned ran = [])) /\
  (forall ran,
     FindOneAndUpdate coll filter v result options = Returned ran ->
     (selected ran = true <-> dollarFirst doc) /\
     (selected ran = false ->
      err ran <> None /\ returned ran = false /\ called ran = [] /\ spawned ran = [])).
Proof.
  intros Hmarshal Hunmarshal.
  unfold ReplaceOne, FindOneAndReplace, FindOneAndUpdate.
  rewrite Hmarshal, Hunmarshal.
  destruct doc as [| [[| c tl] v0] rest]; cbn [firstByte obind].
  - first_key_cases; auto.
  - first_key_cases; eauto.
  - destruct (Ascii.eqb_spec c "$") as [-> | Hne]; cbn [negb].
    + first_key_cases; eauto.
    + first_key_cases; eauto 10.
Qed.

End Update.

Arguments Env Iface Bytes SelectedServer Namespace WriteConcern Options UpdateResult
  : clear implicits.
Arguments Collection Namespace WriteConcern : clear implicits.

(** *** Running the writes *)

(** A deployment in which a document is the list of its names, marshalling
    keeps it, the write concern is the number [w], acknowledged unless [w] is
    0, and every round trip succeeds. *)
Definition namesEnv : Env (list string) (list string) unit string Z unit nat :=
  {| Marshal := fun v => (v, None);
     Unmarshal := fun bytes => (map (fun name => (name, [])) bytes, None);
     getWriteableServer := fun _ => (tt, None);
     Acknowledged := fun w => negb (w =? 0);
     opsUpdate := fun _ => (1%nat, None);
     opsFindOneAnd := fun _ => (true, None) |}.

Definition coll1 : Collection string Z := {| namespace := "db.c"; writeConcern := 1 |}.

Example ReplaceOne_dollar_in_second_place :
  ReplaceOne namesEnv coll1 [] ["x"; "$set"] tt
  = Returned
      {| returned := Some 1%nat; err := None; selected := true;
         called := [OpUpdate tt "db.c" 1
                      [[("q", DInterface []); ("u", DInterface ["x"; "$set"]);
                        ("multi", DBool false)]] tt];
         spawned := [] |}.
Proof. reflexivity. Qed.

Lemma first_key_checks_witness :
  ReplaceOne namesEnv coll1 [] [EmptyString; "x"] tt = Panicked.
Proof.
  apply (first_key_checks namesEnv coll1 [] [EmptyString; "x"] [] tt
           [EmptyString; "x"] [(EmptyString, []); ("x", [])] eq_refl eq_refl).
  exists [], [("x", [])]. reflexivity.
Defined.

End collection_update.

(** ** mongo/document_result.go: more on [Decode] *)
Module decode_props.
Import mongo.

Section Decode.
Context {C Dest : Type} `{Cursor C Dest}.

Notation DocumentResult := (mongo.DocumentResult C).

(** X25.  [Decode] panics exactly on a result that holds neither an error nor a
    cursor, as the zero [DocumentResult] does.  It returns a nil error only
    when no error is stored and [Next] reported a document, and then the
    cursor has advanced by that one document; the destination is written only
    by the cursor's [Decode], so whenever [Decode] returns the stored error,
    the cursor's error or [ErrNoDocuments] because [Next] reported no
    document, the destination is as it was. *)
Theorem Decode_nil_only_after_a_document (dr : DocumentResult) (v : option Dest) :
  (Decode dr v = Panicked <-> err dr = None /\ cur dr = None) /\
  (forall c' v',
     Decode dr v = Returned (None, c', v') ->
     err dr = None /\
     exists c c1,
       cur dr = Some c /\ Next c = (true, c1) /\
       match v with
       | None => c' = Some c1 /\ v' = None
       | Some d =>
           exists c2 d', CurDecode c1 d = (None, c2, d') /\
                         c' = Some c2 /\ v' = Some d'
       end) /\
  (forall e c' v',
     Decode dr v = Returned (Some e, c', v') ->
     v' = v \/
     exists c c1 d c2 d',
       err dr = None /\ cur dr = Some c /\ Next c = (true, c1) /\ v = Some d /\
       CurDecode c1 d = (Some e, c2, d') /\ c' = Some c2 /\ v' = Some d').
Proof.
  unfold Decode.
  destruct (err dr) as [e0 |].
  { split; [split; [discriminate | intros [[=] _]] |].
    split; [discriminate |]. intros e c' v' [= _ _ <-]. left. reflexivity. }
  destruct (cur dr) as [c |].
  2: { split; [split; [auto | reflexivity] |]. split; discriminate. }
  destruct (Next c) as [more c1] eqn:Enext. destruct more; cbn [negb].
  - destruct v as [d |].
    + destruct (CurDecode c1 d) as [[e2 c2] d'] eqn:Edecode.
      split; [split; [discriminate | intros [_ [=]]] |]. split.
      * intros c' v' [= -> <- <-]. split; [reflexivity |].
        exists c, c1. repeat split; eauto.
      * intros e c' v' [= -> <- <-]. right.
        exists c, c1, d, c2, d'. repeat split; auto.
    + split; [split; [discriminate | intros [_ [=]]] |]. split.
      * intros c' v' [= <- <-]. split; [reflexivity |].
        exists c, c1. repeat split; auto.
      * discriminate.
  - destruct (Err c1) as [e1 |];
      (split; [split; [discriminate | intros [_ [=]]] |]);
      (split; [discriminate |]); intros e c' v' [= _ _ <-]; left; reflexivity.
Qed.

End Decode.

(** Two calls of [Decode] on the result of an operation that found one
    document: the first decodes it, the second finds no document. *)
Example Decode_twice :
  Decode {| err := None; cur := Some oneDocCursor |} (Some 0%nat)
  = Returned (None, Some {| current := Some 7%nat; rest := []; failure := None |},
              Some 7%nat) /\
  Decode {| err := None;
            cur := Some {| current := Some 7%nat; rest := []; failure := None |} |}
    (Some 0%nat)
  = Returned (Some ErrNoDocuments,
              Some {| current := Some 7%nat; rest := []; failure := None |},
              Some 0%nat).
Proof. split; reflexivity. Qed.

Lemma Decode_nil_only_after_a_document_witness :
  err {| err := None; cur := Some oneDocCursor |} = None /\
  Decode {| err := None; cur := @None batchCursor |} (Some 0%nat) = Panicked.
Proof.
  pose proof (Decode_nil_only_after_a_document (H := batchCursor_Cursor)
                {| err := None; cur := Some oneDocCursor |} (Some 0%nat))
    as (_ & Hnil & _).
  split.
  - apply (Hnil (Some {| current := Some 7%nat; rest := []; failure := None |})
             (Some 7%nat)).
    reflexivity.
  - apply (Decode_nil_only_after_a_document (H := batchCursor_Cursor)
             {| err := None; cur := None |} (Some 0%nat)).
    split; reflexivity.
Defined.

End decode_props.

(** ** mongo: [verifyListCollections], the check of the database tests *)
Module listcollections.

(** What the cursor gives for one collection: [cursor.Decode] fails, or the
    document decodes and [LookupErr] of [name] fails, or it gives a value. *)
Inductive Row : Type :=
| DecodeFails (e : error)
| LookupFails (e : error)
| Name (v : bson.Val).

(** The errors of [verifyListCollections]: those of the cursor and of the
    lookup, and the formatted ones with their arguments. *)
Inductive VerifyError : Type :=
| CursorError (e : error)
| IncorrectType (got : bson.Val)
| IncorrectName (got uncappedName cappedName : string)
| FoundUncapped (uncappedName : string)
| Duplicate (elemName : string)
| NotFound (name : string).

Section Verify.
Variables (uncappedName cappedName : string) (cappedOnly : bool).

(** The loop [for cursor.Next(ctx)], over the rows that the cursor still
    holds: an error, or the two flags when the cursor is exhausted. *)
Fixpoint verifyLoop (rows : list Row) (uncappedFound cappedFound : bool)
  : VerifyError + bool * bool :=
  match rows with
  | [] => inr (uncappedFound, cappedFound)
  | DecodeFails e :: _ => inl (CursorError e)
  | LookupFails e :: _ => inl (CursorError e)
  | Name v :: rest =>
      match v with
      | bson.String elemName =>
          if negb (String.eqb elemName uncappedName)
             && negb (String.eqb elemName cappedName)
          then inl (IncorrectName elemName uncappedName cappedName)
          else if String.eqb elemName uncappedName && negb uncappedFound then
            if cappedOnly then inl (FoundUncapped uncappedName)
            else verifyLoop rest true cappedFound
          else if String.eqb elemName cappedName && negb cappedFound then
            verifyLoop rest uncappedFound true
          else inl (Duplicate elemName)
      | _ => inl (IncorrectType v)
      end
  end.

(** [func verifyListCollections(cursor Cursor, uncappedName string,
    cappedName string, cappedOnly bool) (err error)] *)
Definition verifyListCollections (rows : list Row) : option VerifyError :=
  match verifyLoop rows false false with
  | inl e => Some e
  | inr (uncappedFound, cappedFound) =>
      if negb cappedFound then Some (NotFound cappedName)
      else if negb cappedOnly && negb uncappedFound
      then Some (NotFound uncappedName)
      else None
  end.

Hypothesis distinct : uncappedName <> cappedName.

Lemma eqb_uncapped_capped : String.eqb uncappedName cappedName = false.
Proof. apply String.eqb_neq. exact distinct. Qed.

Lemma eqb_capped_uncapped : String.eqb cappedName uncappedName = false.
Proof. apply String.eqb_neq. intros Heq. apply distinct. symmetry. exact Heq. Qed.

(** One round of the loop that does not return. *)
Lemma verifyLoop_step (rows : list Row) (uf cf uf' cf' : bool) :
  verifyLoop rows uf cf = inr (uf', cf') ->
  (rows = [] /\ uf' = uf /\ cf' = cf) \/
  (exists rest,
     rows = Name (bson.String uncappedName) :: rest /\ uf = false /\
     cappedOnly = false /\ verifyLoop rest true cf = inr (uf', cf')) \/
  (exists rest,
     rows = Name (bson.String cappedName) :: rest /\ cf = false /\
     verifyLoop rest uf true = inr (uf', cf')).
Proof.
  destruct rows as [| [e | e | v] rest]; cbn [verifyLoop];
    [intros [= <- <-]; auto | discriminate | discriminate |].
  destruct v; try discriminate.
  destruct (String.eqb_spec s uncappedName) as [-> | Hu].
  - rewrite eqb_uncapped_capped. cbn [negb andb].
    destruct uf; cbn [negb andb]; [discriminate |].
    destruct cappedOnly; [discriminate |].
    intros Hrest. right. left. exists rest. auto.
  - destruct (String.eqb_spec s cappedName) as [-> | Hc]; cbn [negb andb];
      [| discriminate].
    destruct cf; cbn [negb]; [discriminate |].
    intros Hrest. right. right. exists rest. auto.
Qed.

(** X26.  With two different names, [verifyListCollections] returns nil exactly
    when the cursor gives the expected collections and nothing else, each
    once: the capped and the uncapped collection in either order, or, with
    [cappedOnly], the capped collection alone. *)
Theorem verifyListCollections_nil (rows : list Row) :
  verifyListCollections rows = None <->
  if cappedOnly then rows = [Name (bson.String cappedName)]
  else rows = [Name (bson.String uncappedName); Name (bson.String cappedName)] \/
       rows = [Name (bson.String cappedName); Name (bson.String uncappedName)].
Proof.
  unfold verifyListCollections. split.
  - destruct (verifyLoop rows false false) as [e | [uf' cf']] eqn:Eloop;
      [discriminate |].
    destruct cf'; cbn [negb]; [| discriminate].
    intros Hend.
    apply verifyLoop_step in Eloop
      as [(_ & _ & [=]) | [(r1 & -> & _ & Hco & E1) | (r1 & -> & _ & E1)]].
    + rewrite Hco in *. cbn [negb andb] in Hend.
      apply verifyLoop_step in E1
        as [(_ & _ & [=]) | [(r2 & _ & [=] & _) | (r2 & -> & _ & E2)]].
      apply verifyLoop_step in E2
        as [(-> & _ & _) | [(r3 & _ & [=] & _) | (r3 & _ & [=] & _)]].
      left. reflexivity.
    + apply verifyLoop_step in E1
        as [(-> & -> & _) | [(r2 & -> & _ & Hco & E2) | (r2 & _ & [=] & _)]].
      * destruct cappedOnly eqn:Hco; [reflexivity | discriminate Hend].
      * rewrite Hco.
        apply verifyLoop_step in E2
          as [(-> & _ & _) | [(r3 & _ & [=] & _) | (r3 & _ & [=] & _)]].
        right. reflexivity.
  - destruct cappedOnly eqn:Hco.
    + intros ->. cbn [verifyLoop].
      rewrite String.eqb_refl, eqb_capped_uncapped. reflexivity.
    + intros [-> | ->]; cbn [verifyLoop];
        rewrite ?String.eqb_refl, ?eqb_capped_uncapped, ?eqb_uncapped_capped, ?Hco;
        cbn; rewrite ?String.eqb_refl, ?eqb_capped_uncapped, ?eqb_uncapped_capped;
        reflexivity.
Qed.

End Verify.

Lemma verifyListCollections_nil_witness :
  verifyListCollections "listcoll_uncapped" "listcoll_capped" false
    [Name (bson.String "listcoll_capped"); Name (bson.String "listcoll_uncapped")]
  = None.
Proof.
  apply (verifyListCollections_nil "listcoll_uncapped" "listcoll_capped" false).
  - discriminate.
  - right. reflexivity.
Defined.

(** With equal names the check no longer sees a duplicate. *)
Example verifyListCollections_same_name :
  verifyListCollections "c" "c" false
    [Name (bson.String "c"); Name (bson.String "c")]
  = None.
Proof. reflexivity. Qed.

End listcollections.

(** ** mongo: [IndexOptionsBuilder] *)
Module indexopts.

(** A pointer to a [bson.Document]: an address, or nil. *)
Definition DocPtr : Type := option nat.

(** The values that the builder appends: booleans, 32-bit integers, strings,
    doubles (as their 64 bits), and sub-documents, which are pointers. *)
Inductive Value : Type :=
| Boolean (b : bool)
| Int32 (i : Z)
| String (s : string)
| Double (bits : Z)
| SubDocument (d : DocPtr).

(** [*bson.Element], as [bson.EC] makes it. *)
Definition Element : Type := string * Value.

(** [type IndexOptionsBuilder struct { document *bson.Document }]; the
    methods take and return a pointer to the builder, which stands here for
    the builder itself. *)
Record IndexOptionsBuilder : Type := { document : DocPtr }.

Section Builder.
(** The documents of the program, and the two functions of the bson package
    that the builder calls: [bson.NewDocument()] and the method [Append]
    of a document. *)
Variable Heap : Type.
Variable NewDocument : Heap -> DocPtr * Heap.
Variable Append : DocPtr -> Element -> Heap -> outcome Heap.

(** [func NewIndexOptionsBuilder() *IndexOptionsBuilder] *)
Definition NewIndexOptionsBuilder (h : Heap) : IndexOptionsBuilder * Heap :=
  let '(d, h) := NewDocument h in ({| document := d |}, h).

(** The body that the setters share: [iob.document.Append(elem); return
    iob]. *)
Definition appendOption (iob : IndexOptionsBuilder) (e : Element) (h : Heap)
  : outcome (IndexOptionsBuilder * Heap) :=
  obind (Append (document iob) e h) (fun h => Returned (iob, h)).

Definition Background iob (background : bool) :=
  appendOption iob ("background", Boolean background).
Definition ExpireAfter iob (expireAfter : Z) :=
  appendOption iob ("expireAfter", Int32 expireAfter).
Definition Name iob (name : string) := appendOption iob ("name", String name).
Definition Sparse iob (sparse : bool) := appendOption iob ("sparse", Boolean sparse).
Definition StorageEngine iob (storageEngine : string) :=
  appendOption iob ("storageEngine", String storageEngine).
Definition Unique iob (unique : bool) := appendOption iob ("unique", Boolean unique).
Definition Version iob (version : Z) := appendOption iob ("version", Int32 version).
Definition DefaultLanguage iob (defaultLanguage : string) :=
  appendOption iob ("defaultLanguage", String defaultLanguage).
Definition LanguageOverride iob (languageOverride : string) :=
  appendOption iob ("languageOverride", String languageOverride).
Definition TextVersion iob (textVersion : Z) :=
  appendOption iob ("textVersion", Int32 textVersion).
Definition Weights iob (weights : DocPtr) :=
  appendOption iob ("weights", SubDocument weights).
Definition SphereVersion iob (sphereVersion : Z) :=
  appendOption iob ("sphereVersion", Int32 sphereVersion).
Definition Bits iob (bits : Z) := appendOption iob ("bits", Int32 bits).
Definition Max iob (max : Z) := appendOption iob ("max", Double max).
Definition Min iob (min : Z) := appendOption iob ("min", Double min).
Definition BucketSize iob (bucketSize : Z) :=
  appendOption iob ("bucketSize", Int32 bucketSize).
Definition PartialFilterExpression iob (partialFilterExpression : DocPtr) :=
  appendOption iob ("partialFilterExpression", SubDocument partialFilterExpression).
Definition Collation iob (collation : DocPtr) :=
  appendOption iob ("collation", SubDocument collation).

(** [func (iob *IndexOptionsBuilder) Build() *bson.Document] *)
Definition Build (iob : IndexOptionsBuilder) : DocPtr := document iob.

(** A call of a setter with its argument. *)
Inductive Call : Type :=
| CBackground (b : bool) | CExpireAfter (i : Z) | CName (s : string)
| CSparse (b : bool) | CStorageEngine (s : string) | CUnique (b : bool)
| CVersion (i : Z) | CDefaultLanguage (s : string) | CLanguageOverride (s : string)
| CTextVersion (i : Z) | CWeights (d : DocPtr) | CSphereVersion (i : Z)
| CBits (i : Z) | CMax (bits : Z) | CMin (bits : Z) | CBucketSize (i : Z)
| CPartialFilterExpression (d : DocPtr) | CCollation (d : DocPtr).

Definition call (c : Call) (iob : IndexOptionsBuilder)
  : Heap -> outcome (IndexOptionsBuilder * Heap) :=
  match c with
  | CBackground b => Background iob b
  | CExpireAfter i => ExpireAfter iob i
  | CName s => Name iob s
  | CSparse b => Sparse iob b
  | CStorageEngine s => StorageEngine iob s
  | CUnique b => Unique iob b
  | CVersion i => Version iob i
  | CDefaultLanguage s => DefaultLanguage iob s
  | CLanguageOverride s => LanguageOverride iob s
  | CTextVersion i => TextVersion iob i
  | CWeights d => Weights iob d
  | CSphereVersion i => SphereVersion iob i
  | CBits i => Bits iob i
  | CMax bits => Max iob bits
  | CMin bits => Min iob bits
  | CBucketSize i => BucketSize iob i
  | CPartialFilterExpression d => PartialFilterExpression iob d
  | CCollation d => Collation iob d
  end.

(** A chain of calls, [iob.A(x).B(y)...], each call on what the one before
    returned. *)
Fixpoint chain (calls : list Call) (iob : IndexOptionsBuilder) (h : Heap)
  : outcome (IndexOptionsBuilder * Heap) :=
  match calls with
  | [] => Returned (iob, h)
  | c :: rest => obind (call c iob h) (fun '(iob, h) => chain rest iob h)
  end.

(** The element that a call appends. *)
Definition elementOf (c : Call) : Element :=
  match c with
  | CBackground b => ("background", Boolean b)
  | CExpireAfter i => ("expireAfter", Int32 i)
  | CName s => ("name", String s)
  | CSparse b => ("sparse", Boolean b)
  | CStorageEngine s => ("storageEngine", String s)
  | CUnique b => ("unique", Boolean b)
  | CVersion i => ("version", Int32 i)
  | CDefaultLanguage s => ("defaultLanguage", String s)
  | CLanguageOverride s => ("languageOverride", String s)
  | CTextVersion i => ("textVersion", Int32 i)
  | CWeights d => ("weights", SubDocument d)
  | CSphereVersion i => ("sphereVersion", Int32 i)
  | CBits i => ("bits", Int32 i)
  | CMax bits => ("max", Double bits)
  | CMin bits => ("min", Double bits)
  | CBucketSize i => ("bucketSize", Int32 i)
  | CPartialFilterExpression d => ("partialFilterExpression", SubDocument d)
  | CCollation d => ("collation", SubDocument d)
  end.

Lemma call_appends (c : Call) (iob : IndexOptionsBuilder) (h : Heap) :
  call c iob h = appendOption iob (elementOf c) h.
Proof. destruct c; reflexivity. Qed.

(** The elements of the document at an address, when there is one. *)
Variable elements : Heap -> nat -> option (list Element).

(** [Append] adds the element at the end of the document, in place, and
    touches no other document. *)
Hypothesis Append_in_place :
  forall p elems e h,
    elements h p = Some elems ->
    exists h',
      Append (Some p) e h = Returned h' /\
      elements h' p = Some (elems ++ [e]) /\
      forall q, q <> p -> elements h' q = elements h q.

Lemma chain_appends (calls : list Call) :
  forall (p : nat) (elems : list Element) (h : Heap),
    elements h p = Some elems ->
    exists h',
      chain calls {| document := Some p |} h
      = Returned ({| document := Some p |}, h') /\
      elements h' p = Some (elems ++ map elementOf calls) /\
      forall q, q <> p -> elements h' q = elements h q.
Proof.
  induction calls as [| c rest IH]; intros p elems h Hp; cbn [chain map].
  - exists h. rewrite app_nil_r. auto.
  - rewrite call_appends. unfold appendOption. cbn [document].
    destruct (Append_in_place p elems (elementOf c) h Hp) as (h1 & -> & Hp1 & Hframe1).
    cbn [obind].
    destruct (IH p (elems ++ [elementOf c]) h1 Hp1) as (h2 & -> & Hp2 & Hframe2).
    exists h2. rewrite <- app_assoc in Hp2. split; [reflexivity |].
    split; [exact Hp2 |].
    intros q Hq. rewrite Hframe2, Hframe1 by exact Hq. reflexivity.
Qed.

(** X27.  When [Append] adds the element at the end of the document in place, the
    document that [Build] returns is the document of the builder, not a copy:
    with the elements [elems] in that document, a chain of setters returns
    the same builder and leaves, under the pointer that [Build] gave before
    the chain and gives after it, [elems] followed by one element per call,
    in the order of the calls, a repeated option twice; every other document
    is as it was. *)
Theorem Build_sees_later_options (calls : list Call) (iob : IndexOptionsBuilder)
  (p : nat) (elems : list Element) (h : Heap) :
  Build iob = Some p -> elements h p = Some elems ->
  exists h',
    chain calls iob h = Returned (iob, h') /\
    elements h' p = Some (elems ++ map elementOf calls) /\
    forall q, q <> p -> elements h' q = elements h q.
Proof.
  intros Hbuild Hp. destruct iob as [d]. cbn [Build document] in Hbuild. subst d.
  apply chain_appends. exact Hp.
Qed.

End Builder.

(** *** Running the builder *)

(** A heap of documents, by address: a new document takes the next address,
    and [Append] on nil or on an address without a document panics. *)
Definition listNewDocument (h : list (list Element)) : DocPtr * list (list Element) :=
  (Some (length h), h ++ [[]]).

Definition listAppend (d : DocPtr) (e : Element) (h : list (list Element))
  : outcome (list (list Element)) :=
  match d with
  | None => Panicked
  | Some p =>
      match h !! p with
      | None => Panicked
      | Some elems => Returned (<[p := elems ++ [e]]> h)
      end
  end.

Lemma listAppend_in_place (p : nat) (elems : list Element) (e : Element)
  (h : list (list Element)) :
  h !! p = Some elems ->
  exists h',
    listAppend (Some p) e h = Returned h' /\
    h' !! p = Some (elems ++ [e]) /\
    forall q, q <> p -> h' !! q = h !! q.
Proof.
  intros Hp. exists (<[p := elems ++ [e]]> h). unfold listAppend. rewrite Hp.
  split; [reflexivity |]. split.
  - apply list_lookup_insert_eq. eapply lookup_lt_Some. exact Hp.
  - intros q Hq. apply list_lookup_insert_ne. congruence.
Qed.

(** [NewIndexOptionsBuilder().Name("a").Unique(true)], then the document is
    built, then [Name("b")] is called on the builder. *)
Example build_then_set :
  let '(iob, h) := NewIndexOptionsBuilder _ listNewDocument [] in
  obind (chain _ listAppend [CName "a"; CUnique true] iob h)
    (fun '(iob, h) =>
       let built := Build iob in
       obind (Name _ listAppend iob "b" h) (fun '(_, h) => Returned (built, h)))
  = Returned (Some 0%nat,
              [[("name", String "a"); ("unique", Boolean true);
                ("name", String "b")]]).
Proof. reflexivity. Qed.

Lemma Build_sees_later_options_witness :
  exists h',
    chain _ listAppend [CName "b"] {| document := Some 0%nat |}
      [[("name", String "a")]]
    = Returned ({| document := Some 0%nat |}, h') /\
    h' !! 0%nat = Some [("name", String "a"); ("name", String "b")].
Proof.
  destruct (Build_sees_later_options _ listAppend (fun h p => h !! p)
              listAppend_in_place [CName "b"] {| document := Some 0%nat |}
              0%nat [("name", String "a")] [[("name", String "a")]]
              eq_refl eq_refl)
    as (h' & Hchain & Hdoc & _).
  exists h'. split; [exact Hchain | exact Hdoc].
Defined.

End indexopts.

(** ** mongo/collection.go: the acknowledged writes *)
Module collection_acknowledged.
Import collection.

Section Acknowledged.
Context {Iface SelectedServer Namespace WriteConcern Options DeleteResult : Type}.

Variable env :
  collection.Env Iface SelectedServer Namespace WriteConcern Options DeleteResult.

(** X28.  With an acknowledged write concern, [InsertOne] and [DeleteOne] start no
    goroutine and run at most one round trip; each returns a result exactly
    when it returns a nil error.  The result of [InsertOne] holds the id that
    [getOrInsertID] gave, and the round trip carried the one document that
    [getOrInsertID] made, not the document of the caller; the round trip of
    [DeleteOne] carried the filter with a limit of 1, and its result is what
    the round trip filled in. *)
Theorem acknowledged_writes (coll : Collection) (v : Iface) (options : Options) :
  Acknowledged env (writeConcern coll) = true ->
  let inserted := InsertOne env coll v options in
  let deleted := DeleteOne env coll v options in
  (spawned inserted = [] /\ spawned deleted = []) /\
  ((length (called inserted) <= 1)%nat /\ (length (called deleted) <= 1)%nat) /\
  (err inserted = None <-> exists r, returned inserted = Some r) /\
  (err deleted = None <-> exists r, returned deleted = Some r) /\
  (forall r,
     returned inserted = Some r ->
     InsertedID r = snd (fst (getOrInsertID env v)) /\
     exists s,
       getWriteableServer env coll = (s, None) /\
       called inserted
       = [OpInsert s (namespace coll) (writeConcern coll)
            [fst (fst (getOrInsertID env v))] options]) /\
  (forall r,
     returned deleted = Some r ->
     exists s,
       getWriteableServer env coll = (s, None) /\
       called deleted
       = [OpDelete s (namespace coll) (writeConcern coll)
            [[("q", DInterface v); ("limit", DInt 1)]] options] /\
       opsDelete env
         (OpDelete s (namespace coll) (writeConcern coll)
            [[("q", DInterface v); ("limit", DInt 1)]] options)
       = (r, None)).
Proof.
  intros Hack. cbv zeta. unfold InsertOne, DeleteOne. rewrite Hack. cbn [negb].
  destruct (getOrInsertID env v) as [[doc insertedID] [e1 |]];
    destruct (getWriteableServer env coll) as [s [e2 |]]; cbn [fst snd];
    try destruct (opsInsert env _) as [e3 |];
    try destruct (opsDelete env _) as [result [e4 |]] eqn:Edelete;
    cbn [returned err called spawned length InsertedID];
    repeat match goal with
           | |- _ /\ _ => split
           | |- _ <-> _ => split
           | |- forall _, _ => intro
           | H : ex _ |- _ => destruct H
           | H : Some _ = Some _ |- _ => injection H as <-
           end;
    try discriminate; try reflexivity; try lia; eauto.
Qed.

End Acknowledged.

Lemma acknowledged_writes_witness :
  spawned (InsertOne failingEnv {| namespace := "db.c"; writeConcern := 1 |} 7%nat tt)
  = [] /\
  spawned (DeleteOne failingEnv {| namespace := "db.c"; writeConcern := 1 |} 7%nat tt)
  = [].
Proof.
  apply (acknowledged_writes failingEnv
           {| namespace := "db.c"; writeConcern := 1 |} 7%nat tt).
  reflexivity.
Defined.

End collection_acknowledged.

(** ** bson-codec-design/bson: the struct tag parser on a raw tag *)
Module structtag_raw.
Import structtag.

Section Raw.
(** [strings.ToLower] and [strconv.Unquote]. *)
Variable ToLower : string -> string.
Variable Unquote : string -> option string.

(** X29.  Without a bson tag, a raw tag that is not empty and holds no colon
    is the name, as it is: it is not lower-cased and not split at commas, no
    flag is read from it and no skip (a raw tag that is a dash included), the
    name of the field plays no part, and the error is nil. *)
Theorem raw_tag_is_the_name (sf : StructField) (name : string) :
  Lookup Unquote (Tag sf) "bson" = None ->
  ContainsColon (Tag sf) = false -> Tag sf <> "" ->
  DefaultStructTagParser ToLower Unquote sf
  = ({| TagName := Tag sf; OmitEmpty := false; MinSize := false;
        Truncate := false; Inline := false; Skip := false |}, None) /\
  DefaultStructTagParser ToLower Unquote {| Name := name; Tag := Tag sf |}
  = DefaultStructTagParser ToLower Unquote sf.
Proof.
  intros Hlook Hcolon Hne.
  assert (Hresult : forall sf0,
            Tag sf0 = Tag sf ->
            DefaultStructTagParser ToLower Unquote sf0
            = ({| TagName := Tag sf; OmitEmpty := false; MinSize := false;
                  Truncate := false; Inline := false; Skip := false |}, None)).
  { intros sf0 Htag.
    pose proof (DefaultStructTagParser_raw ToLower Unquote sf0) as Hraw.
    rewrite Htag in Hraw. specialize (Hraw Hlook Hcolon Hne).
    rewrite <- Hraw. unfold DefaultStructTagParser.
    destruct (Lookup Unquote (Tag sf0) "bson");
      try destruct (tagLoop _ _ _); try destruct (negb _ && _); reflexivity. }
  split.
  - apply Hresult. reflexivity.
  - rewrite (Hresult sf eq_refl). apply Hresult. reflexivity.
Qed.

End Raw.

(** The field [Foo] with the raw tag [bar,omitempty]: the whole tag is the
    name, and the flag in it is not read. *)
Lemma raw_tag_is_the_name_witness :
  parse {| Name := "Foo"; Tag := "bar,omitempty" |}
  = ({| TagName := "bar,omitempty"; OmitEmpty := false; MinSize := false;
        Truncate := false; Inline := false; Skip := false |}, None).
Proof.
  apply (raw_tag_is_the_name asciiToLower plainUnquote
           {| Name := "Foo"; Tag := "bar,omitempty" |} "Foo");
    [reflexivity | reflexivity | discriminate].
Defined.

End structtag_raw.
